(** * The ACP reply projector of openclaw

    A shallow embedding of
      - [src/auto-reply/reply/acp-stream-settings.ts] (settings resolution and
        tag visibility), and
      - [src/auto-reply/reply/acp-projector.ts] (the streaming reply
        projector), and
      - [createDirectRoomTracker] (the tracker that tells the direct rooms
        of a Matrix client from its group rooms),
    followed by the properties of the projector's per-turn state machine, of
    the settings, of the pure helpers and of the tracker.

    JavaScript strings are sequences of UTF-16 code units; they are embedded
    as lists of code units.  The closure variables of
    [createAcpReplyProjector] become the fields of one record that every
    routine threads through a small state-and-trace monad; the trace records
    the calls the projector makes on its collaborators.

    The embedding covers the runs in which no collaborator throws and in
    which the host awaits each [onEvent] before it sends the next input, as
    the projector expects; one input is then processed as a whole.  The
    expiry of the idle timer is an input of its own.  Block replies the
    pipeline may send between two inputs, on its own timers, are not part of
    the trace. *)

From Stdlib Require Import ZArith QArith Qround String Ascii.
From stdpp Require Import base option list gmap pretty.

Local Open Scope Z_scope.

(** ** JavaScript strings *)

Module Js.

(** A UTF-16 code unit. *)
Definition char := N.

(** A string value. *)
Definition str := list char.

(** The code units of a literal all of whose characters are ASCII. *)
Definition lit (s : String.string) : str :=
  map N_of_ascii (list_ascii_of_string s).

(** [s.length] *)
Definition len (s : str) : Z := Z.of_nat (length s).

(** [!s] on a string: only the empty string is falsy. *)
Definition falsy (s : str) : bool :=
  match s with [] => true | _ => false end.

(** [!s] where [s] may be undefined. *)
Definition falsy_opt (s : option str) : bool :=
  match s with None => true | Some s => falsy s end.

(** Strict equality of two strings. *)
Definition eqb (a b : str) : bool := bool_decide (a = b).

(** [a === b] where [a] may be undefined and [b] is a string. *)
Definition opt_is (a : option str) (b : str) : bool :=
  match a with None => false | Some a => eqb a b end.

(** The characters matched by [\s] in a regular expression, which are also
    the ones [trim] strips: WhiteSpace and LineTerminator of ECMA-262. *)
Definition isWhitespace (c : char) : bool :=
  ((9 <=? c) && (c <=? 13) || (c =? 32) || (c =? 160) || (c =? 5760)
   || (8192 <=? c) && (c <=? 8202) || (c =? 8232) || (c =? 8233)
   || (c =? 8239) || (c =? 8287) || (c =? 12288) || (c =? 65279))%N.

Fixpoint dropWhile (p : char -> bool) (s : str) : str :=
  match s with
  | [] => []
  | c :: r => if p c then dropWhile p r else s
  end.

Definition trimStart (s : str) : str := dropWhile isWhitespace s.
Definition trimEnd (s : str) : str := rev (dropWhile isWhitespace (rev s)).
Definition trim (s : str) : str := trimStart (trimEnd s).

Fixpoint startsWith (s p : str) : bool :=
  match p, s with
  | [], _ => true
  | _ :: _, [] => false
  | a :: p', b :: s' => (a =? b)%N && startsWith s' p'
  end.

Definition endsWith (s p : str) : bool := startsWith (rev s) (rev p).

Fixpoint includes (s p : str) : bool :=
  startsWith s p || match s with [] => false | _ :: r => includes r p end.

(** An index argument of [slice], relative to the end when negative and
    clamped to the string. *)
Definition sliceIndex (n : Z) (i : Z) : Z :=
  if i <? 0 then Z.max (n + i) 0 else Z.min i n.

(** [s.slice(from, to)]; [to] defaults to the length. *)
Definition slice (s : str) (from : Z) (to : option Z) : str :=
  let n := len s in
  let a := sliceIndex n from in
  let b := match to with None => n | Some t => sliceIndex n t end in
  take (Z.to_nat (b - a)) (drop (Z.to_nat a) s).

(** [parts.join(sep)] *)
Fixpoint join (sep : str) (parts : list str) : str :=
  match parts with
  | [] => []
  | [p] => p
  | p :: r => p ++ sep ++ join sep r
  end.

(** A number value: a double is a rational, an infinity or NaN. *)
Inductive number :=
| Finite (q : Q)
| NaN
| PosInfinity
| NegInfinity.

(** The values a configuration entry can hold at run time. *)
Inductive value :=
| Undefined
| Null
| Bool (b : bool)
| Number (n : number)
| String (s : str)
| Object.

(** [Math.round]: the nearest integer, ties towards plus infinity. *)
Definition round (q : Q) : Z := Qfloor (Qplus q (1 # 2)).

End Js.

Abbreviation jsstring := Js.str.

(** String constants of the two source files. *)
Definition s_live : jsstring := Eval cbv in Js.lit "live".
Definition s_final_only : jsstring := Eval cbv in Js.lit "final_only".
Definition s_none : jsstring := Eval cbv in Js.lit "none".
Definition s_space : jsstring := Eval cbv in Js.lit "space".
Definition s_newline : jsstring := Eval cbv in Js.lit "newline".
Definition s_paragraph : jsstring := Eval cbv in Js.lit "paragraph".
Definition s_output : jsstring := Eval cbv in Js.lit "output".
Definition s_in_progress : jsstring := Eval cbv in Js.lit "in_progress".
Definition s_tool_call : jsstring := Eval cbv in Js.lit "tool_call".
Definition s_tool_call_update : jsstring := Eval cbv in Js.lit "tool_call_update".
Definition s_usage_update : jsstring := Eval cbv in Js.lit "usage_update".
Definition s_session_info_update : jsstring :=
  Eval cbv in Js.lit "session_info_update".
Definition s_agent_message_chunk : jsstring :=
  Eval cbv in Js.lit "agent_message_chunk".
Definition s_available_commands_update : jsstring :=
  Eval cbv in Js.lit "available_commands_update".
Definition s_current_mode_update : jsstring :=
  Eval cbv in Js.lit "current_mode_update".
Definition s_config_option_update : jsstring :=
  Eval cbv in Js.lit "config_option_update".
Definition s_plan : jsstring := Eval cbv in Js.lit "plan".
Definition s_agent_thought_chunk : jsstring :=
  Eval cbv in Js.lit "agent_thought_chunk".
Definition s_output_truncated : jsstring := Eval cbv in Js.lit "output truncated".
Definition s_tool_call_words : jsstring := Eval cbv in Js.lit "tool call".
Definition s_status_eq : jsstring := Eval cbv in Js.lit "status=".
Definition s_sp : jsstring := [32%N].
Definition s_nl : jsstring := [10%N].
Definition s_nlnl : jsstring := [10%N; 10%N].
(** [" · "]: a middle dot (U+00B7) between two spaces. *)
Definition s_middot : jsstring := [32%N; 183%N; 32%N].
(** ["…"] (U+2026). *)
Definition s_ellipsis : jsstring := [8230%N].

(** ** acp-stream-settings.ts *)

(** [AcpSessionUpdateTag] is a union of string literals; at run time a tag is
    a string, and [isAcpTagVisible] caters for strings outside the union. *)
Abbreviation AcpSessionUpdateTag := Js.str (only parsing).

Definition DEFAULT_ACP_REPEAT_SUPPRESSION : bool := true.
Definition DEFAULT_ACP_MAX_TURN_CHARS : Z := 24000.
Definition DEFAULT_ACP_MAX_TOOL_SUMMARY_CHARS : Z := 320.
Definition DEFAULT_ACP_MAX_STATUS_CHARS : Z := 320.
Definition DEFAULT_ACP_MAX_META_EVENTS_PER_TURN : Z := 64.

Inductive AcpDeliveryMode := live | final_only.
Inductive AcpHiddenBoundarySeparator :=
  sep_none | sep_space | sep_newline | sep_paragraph.

#[global] Instance AcpDeliveryMode_eq_dec : EqDecision AcpDeliveryMode.
Proof. solve_decision. Defined.
#[global] Instance AcpHiddenBoundarySeparator_eq_dec :
  EqDecision AcpHiddenBoundarySeparator.
Proof. solve_decision. Defined.

Definition DEFAULT_ACP_DELIVERY_MODE : AcpDeliveryMode := final_only.
Definition DEFAULT_ACP_HIDDEN_BOUNDARY_SEPARATOR : AcpHiddenBoundarySeparator :=
  sep_paragraph.
Definition DEFAULT_ACP_HIDDEN_BOUNDARY_SEPARATOR_LIVE :
  AcpHiddenBoundarySeparator := sep_space.

(** The own properties of the [ACP_TAG_VISIBILITY_DEFAULTS] object. *)
Definition ACP_TAG_VISIBILITY_DEFAULTS : gmap jsstring bool :=
  list_to_map
    [ (s_agent_message_chunk, true);
      (s_tool_call, false);
      (s_tool_call_update, false);
      (s_usage_update, false);
      (s_available_commands_update, false);
      (s_current_mode_update, false);
      (s_config_option_update, false);
      (s_session_info_update, false);
      (s_plan, false);
      (s_agent_thought_chunk, false) ].

Record AcpProjectionSettings := {
  deliveryMode : AcpDeliveryMode;
  hiddenBoundarySeparator : AcpHiddenBoundarySeparator;
  repeatSuppression : bool;
  maxTurnChars : Z;
  maxToolSummaryChars : Z;
  maxStatusChars : Z;
  maxMetaEventsPerTurn : Z;
  (** what [settings.tagVisibility[tag]] evaluates to, where it is defined *)
  tagVisibility : gmap jsstring Js.value;
}.

(** The part of [OpenClawConfig] read here: the entries of [cfg.acp.stream],
    each of which may hold any value at run time.  The type itself is
    declared in [config/config.ts]. *)
Record AcpStreamConfig := {
  cfg_deliveryMode : Js.value;
  cfg_hiddenBoundarySeparator : Js.value;
  cfg_repeatSuppression : Js.value;
  cfg_maxTurnChars : Js.value;
  cfg_maxToolSummaryChars : Js.value;
  cfg_maxStatusChars : Js.value;
  cfg_maxMetaEventsPerTurn : Js.value;
  (** [None] when the entry is undefined or null *)
  cfg_tagVisibility : option (gmap jsstring Js.value);
  cfg_coalesceIdleMs : Js.value;
  cfg_maxChunkChars : Js.value;
}.

Record OpenClawConfig := {
  (** [cfg.acp?.stream] *)
  acp_stream : option AcpStreamConfig;
}.

Definition clampPositiveInteger (value : Js.value) (fallback : Z)
    (bounds_min bounds_max : Z) : Z :=
  match value with
  | Js.Number (Js.Finite q) =>
      let rounded := Js.round q in
      if rounded <? bounds_min then bounds_min
      else if bounds_max <? rounded then bounds_max
      else rounded
  | _ => fallback
  end.

Definition clampBoolean (value : Js.value) (fallback : bool) : bool :=
  match value with
  | Js.Bool b => b
  | _ => fallback
  end.

Definition resolveAcpDeliveryMode (value : Js.value) : AcpDeliveryMode :=
  match value with
  | Js.String s =>
      if Js.eqb s s_live then live
      else if Js.eqb s s_final_only then final_only
      else DEFAULT_ACP_DELIVERY_MODE
  | _ => DEFAULT_ACP_DELIVERY_MODE
  end.

Definition resolveAcpHiddenBoundarySeparator (value : Js.value)
    (fallback : AcpHiddenBoundarySeparator) : AcpHiddenBoundarySeparator :=
  match value with
  | Js.String s =>
      if Js.eqb s s_none then sep_none
      else if Js.eqb s s_space then sep_space
      else if Js.eqb s s_newline then sep_newline
      else if Js.eqb s s_paragraph then sep_paragraph
      else fallback
  | _ => fallback
  end.

(** [stream?.field]: undefined when there is no stream section. *)
Definition streamField (cfg : OpenClawConfig)
    (field : AcpStreamConfig -> Js.value) : Js.value :=
  match acp_stream cfg with
  | Some stream => field stream
  | None => Js.Undefined
  end.

Definition DEFAULT_ACP_STREAM_COALESCE_IDLE_MS : Z := 350.
Definition DEFAULT_ACP_STREAM_MAX_CHUNK_CHARS : Z := 1800.

Definition resolveAcpStreamCoalesceIdleMs (cfg : OpenClawConfig) : Z :=
  clampPositiveInteger (streamField cfg cfg_coalesceIdleMs)
    DEFAULT_ACP_STREAM_COALESCE_IDLE_MS 0 5000.

Definition resolveAcpStreamMaxChunkChars (cfg : OpenClawConfig) : Z :=
  clampPositiveInteger (streamField cfg cfg_maxChunkChars)
    DEFAULT_ACP_STREAM_MAX_CHUNK_CHARS 50 4000.

Definition resolveAcpProjectionSettings (cfg : OpenClawConfig)
    : AcpProjectionSettings :=
  let mode := resolveAcpDeliveryMode (streamField cfg cfg_deliveryMode) in
  let hiddenBoundaryFallback :=
    match mode with
    | live => DEFAULT_ACP_HIDDEN_BOUNDARY_SEPARATOR_LIVE
    | final_only => DEFAULT_ACP_HIDDEN_BOUNDARY_SEPARATOR
    end in
  {| deliveryMode := mode;
     hiddenBoundarySeparator :=
       resolveAcpHiddenBoundarySeparator
         (streamField cfg cfg_hiddenBoundarySeparator) hiddenBoundaryFallback;
     repeatSuppression :=
       clampBoolean (streamField cfg cfg_repeatSuppression)
         DEFAULT_ACP_REPEAT_SUPPRESSION;
     maxTurnChars :=
       clampPositiveInteger (streamField cfg cfg_maxTurnChars)
         DEFAULT_ACP_MAX_TURN_CHARS 1 500000;
     maxToolSummaryChars :=
       clampPositiveInteger (streamField cfg cfg_maxToolSummaryChars)
         DEFAULT_ACP_MAX_TOOL_SUMMARY_CHARS 64 8000;
     maxStatusChars :=
       clampPositiveInteger (streamField cfg cfg_maxStatusChars)
         DEFAULT_ACP_MAX_STATUS_CHARS 64 8000;
     maxMetaEventsPerTurn :=
       clampPositiveInteger (streamField cfg cfg_maxMetaEventsPerTurn)
         DEFAULT_ACP_MAX_META_EVENTS_PER_TURN 1 2000;
     tagVisibility :=
       match acp_stream cfg with
       | Some stream => default ∅ (cfg_tagVisibility stream)
       | None => ∅
       end |}.

Definition isAcpTagVisible (settings : AcpProjectionSettings)
    (tag : option AcpSessionUpdateTag) : bool :=
  match tag with
  | None => true
  | Some tag =>
      if Js.falsy tag then true
      else
        match tagVisibility settings !! tag with
        | Some (Js.Bool override) => override
        | _ =>
            match ACP_TAG_VISIBILITY_DEFAULTS !! tag with
            | Some visible => visible
            | None => true
            end
        end
  end.

(** ** acp-projector.ts: constants and pure helpers *)

Definition ACP_BLOCK_REPLY_TIMEOUT_MS : Z := 15000.
Definition ACP_LIVE_IDLE_FLUSH_FLOOR_MS : Z := 750.
Definition ACP_LIVE_IDLE_MIN_CHARS : Z := 80.
Definition ACP_LIVE_SOFT_FLUSH_CHARS : Z := 220.
Definition ACP_LIVE_HARD_FLUSH_CHARS : Z := 480.

Definition TERMINAL_TOOL_STATUSES : list jsstring :=
  Eval cbv in
    map Js.lit ["completed"; "failed"; "cancelled"; "done"; "error"]%string.

Definition HIDDEN_BOUNDARY_TAGS : list jsstring :=
  [s_tool_call; s_tool_call_update].

(** [set.has(x)] *)
Definition has (set : list jsstring) (x : jsstring) : bool :=
  existsb (Js.eqb x) set.

Record AcpProjectedDeliveryMeta := {
  meta_tag : option jsstring;
  meta_toolCallId : option jsstring;
  meta_toolStatus : option jsstring;
  meta_allowEdit : option bool;
}.

Record ToolLifecycleState := {
  started : bool;
  terminal : bool;
  lastRenderedHash : option jsstring;
}.

(** [ReplyPayload] is declared in [auto-reply/types.ts]; the projector only
    ever builds [{ text }]. *)
Record ReplyPayload := { payload_text : jsstring }.

Record BufferedToolDelivery := {
  payload : ReplyPayload;
  meta : option AcpProjectedDeliveryMeta;
}.

#[global] Instance AcpProjectedDeliveryMeta_eq_dec :
  EqDecision AcpProjectedDeliveryMeta.
Proof. solve_decision. Defined.
#[global] Instance ReplyPayload_eq_dec : EqDecision ReplyPayload.
Proof. solve_decision. Defined.
#[global] Instance BufferedToolDelivery_eq_dec : EqDecision BufferedToolDelivery.
Proof. solve_decision. Defined.

Definition truncateText (input : jsstring) (maxChars : Z) : jsstring :=
  if Js.len input <=? maxChars then input
  else if maxChars <=? 1 then Js.slice input 0 (Some maxChars)
  else Js.slice input 0 (Some (maxChars - 1)) ++ s_ellipsis.

Definition hashText (text : jsstring) : jsstring := Js.trim text.

Definition resolveHiddenBoundarySeparatorText
    (mode : AcpHiddenBoundarySeparator) : jsstring :=
  match mode with
  | sep_space => s_sp
  | sep_newline => s_nl
  | sep_paragraph => s_nlnl
  | sep_none => []
  end.

(** [/\s$/.test(text)] *)
Definition endsWithWhitespace (text : jsstring) : bool :=
  match rev text with
  | c :: _ => Js.isWhitespace c
  | [] => false
  end.

Definition shouldInsertSeparator (separator : jsstring)
    (previousTail : option jsstring) (nextText : jsstring) : bool :=
  if Js.falsy separator then false
  else if Js.falsy nextText then false
  else if match nextText with
          | firstChar :: _ => Js.isWhitespace firstChar
          | [] => false
          end then false
  else
    let tail := default [] previousTail in
    if Js.falsy tail then false
    else if Js.eqb separator s_sp && endsWithWhitespace tail then false
    else if (Js.eqb separator s_nl || Js.eqb separator s_nlnl)
            && Js.endsWith tail s_nl then false
    else true.

(** The characters of the class [[.!?]]. *)
Definition isSentenceEnd (c : Js.char) : bool :=
  ((c =? 46) || (c =? 33) || (c =? 63))%N.

(** The characters of the second class of the two sentence patterns: closing
    parenthesis, double quote, single quote and backquote. *)
Definition isCloser (c : Js.char) : bool :=
  ((c =? 41) || (c =? 34) || (c =? 39) || (c =? 96))%N.

(** The pattern of [shouldFlushLiveBufferOnIdle]: a sentence-ending
    character, any number of closers, end of input.  Read from the end of
    [text]: closers, then one sentence-ending character (which is not a
    closer, so the closers can be taken greedily). *)
Definition endsSentence (text : jsstring) : bool :=
  match Js.dropWhile isCloser (rev text) with
  | c :: _ => isSentenceEnd c
  | [] => false
  end.

(** The pattern of [shouldFlushLiveBufferOnBoundary]: the same followed by
    one whitespace character before the end of input. *)
Definition endsSentenceThenSpace (text : jsstring) : bool :=
  match rev text with
  | w :: before => Js.isWhitespace w && endsSentence (rev before)
  | [] => false
  end.

Definition shouldFlushLiveBufferOnBoundary (text : jsstring) : bool :=
  if Js.falsy text then false
  else if ACP_LIVE_HARD_FLUSH_CHARS <=? Js.len text then true
  else if Js.endsWith text s_nlnl then true
  else if endsSentenceThenSpace text then true
  else if (ACP_LIVE_SOFT_FLUSH_CHARS <=? Js.len text) && endsWithWhitespace text
  then true
  else false.

Definition shouldFlushLiveBufferOnIdle (text : jsstring) : bool :=
  if Js.falsy text then false
  else if ACP_LIVE_IDLE_MIN_CHARS <=? Js.len text then true
  else if endsSentence (Js.trimEnd text) then true
  else if Js.includes text s_nl then true
  else false.

(** ** Events *)

(** [AcpRuntimeEvent] is declared in [acp/runtime/types.ts]; these are the
    fields the projector reads.  An optional string field is [None] when it
    is undefined. *)
Record TextDeltaEvent := {
  td_stream : option jsstring;
  td_tag : option AcpSessionUpdateTag;
  td_text : jsstring;
}.

Record StatusEvent := {
  st_tag : option AcpSessionUpdateTag;
  st_text : jsstring;
  (** [Some n] when [typeof event.used === "number"] *)
  st_used : option Js.number;
  st_size : option Js.number;
}.

Record ToolCallEvent := {
  tc_tag : option AcpSessionUpdateTag;
  tc_toolCallId : option jsstring;
  tc_title : option jsstring;
  tc_status : option jsstring;
  tc_text : option jsstring;
}.

Inductive AcpRuntimeEvent :=
| ev_text_delta (event : TextDeltaEvent)
| ev_status (event : StatusEvent)
| ev_tool_call (event : ToolCallEvent)
| ev_done
| ev_error.

(** ** Collaborators *)

Inductive ReplyDispatchKind := kind_tool | kind_block | kind_final.

#[global] Instance ReplyDispatchKind_eq_dec : EqDecision ReplyDispatchKind.
Proof. solve_decision. Defined.

(** What the projector does to the outside: calls of [params.deliver]
    (directly for tool payloads, through the pipeline's [onBlockReply] for
    block payloads) and the text it hands to the chunker. *)
Inductive Call :=
| Deliver (kind : ReplyDispatchKind) (payload : ReplyPayload)
    (meta : option AcpProjectedDeliveryMeta)
| ChunkerAppend (text : jsstring).

#[global] Instance Call_eq_dec : EqDecision Call.
Proof. solve_decision. Defined.

(** The imports of [acp-projector.ts] whose code lies outside the two files,
    and the built-ins not spelled out above.  The chunker and the pipeline
    are used through their methods only; a drain yields the chunks it emits,
    an enqueue or a flush of the pipeline yields the block replies it
    sends. *)
Class Host := {
  (** [String.prototype.toLowerCase] *)
  toLowerCase : jsstring -> jsstring;
  (** a number inside a template literal *)
  numberToString : Js.number -> jsstring;
  (** [infra/system-message.ts] *)
  prefixSystemMessage : jsstring -> jsstring;
  (** [agents/tool-display.ts] *)
  ToolDisplay : Type;
  resolveToolDisplay : jsstring -> jsstring -> ToolDisplay;
  formatToolSummary : ToolDisplay -> jsstring;
  (** [block-streaming.ts], as used by [resolveAcpStreamingConfig] *)
  Chunking : Type;
  Coalescing : Type;
  resolveEffectiveBlockStreamingConfig :
    OpenClawConfig -> option jsstring -> option jsstring -> Z -> Z ->
    Chunking * Coalescing;
  chunking_withMinChars : Z -> Chunking -> Chunking;
  coalescing_withMinCharsJoiner : Z -> jsstring -> Coalescing -> Coalescing;
  coalescing_idleMs : Coalescing -> Z;
  (** [agents/pi-embedded-block-chunker.ts] *)
  Chunker : Type;
  newEmbeddedBlockChunker : Chunking -> Chunker;
  chunker_append : jsstring -> Chunker -> Chunker;
  chunker_drain : bool -> Chunker -> list jsstring * Chunker;
  (** [block-reply-pipeline.ts] *)
  Pipeline : Type;
  createBlockReplyPipeline : Z -> option Coalescing -> Pipeline;
  pipeline_enqueue : ReplyPayload -> Pipeline -> list ReplyPayload * Pipeline;
  pipeline_flush : bool -> Pipeline -> list ReplyPayload * Pipeline;
}.

(** A timer handle as [setTimeout] returns it; the handle stays in the
    variable that holds it after the timer has fired. *)
Inductive TimerHandle := timer_pending | timer_fired.

#[global] Instance TimerHandle_eq_dec : EqDecision TimerHandle.
Proof. solve_decision. Defined.

(** ** The projector

    The turn-scoped variables [createAcpReplyProjector] closes over. *)

Record TurnState := {
  emittedTurnChars : Z;
  emittedMetaEvents : Z;
  truncationNoticeEmitted : bool;
  lastStatusHash : option jsstring;
  lastToolHash : option jsstring;
  lastUsageTuple : option jsstring;
  lastVisibleOutputTail : option jsstring;
  pendingHiddenBoundary : bool;
  liveBufferText : jsstring;
  liveIdleTimer : option TimerHandle;
  pendingToolDeliveries : list BufferedToolDelivery;
  toolLifecycleById : gmap jsstring ToolLifecycleState;
}.

(** Assignments to the variables. *)
Definition set_emittedTurnChars (v : Z) (t : TurnState) : TurnState :=
  {| emittedTurnChars := v;
     emittedMetaEvents := emittedMetaEvents t;
     truncationNoticeEmitted := truncationNoticeEmitted t;
     lastStatusHash := lastStatusHash t;
     lastToolHash := lastToolHash t;
     lastUsageTuple := lastUsageTuple t;
     lastVisibleOutputTail := lastVisibleOutputTail t;
     pendingHiddenBoundary := pendingHiddenBoundary t;
     liveBufferText := liveBufferText t;
     liveIdleTimer := liveIdleTimer t;
     pendingToolDeliveries := pendingToolDeliveries t;
     toolLifecycleById := toolLifecycleById t |}.
Definition set_emittedMetaEvents (v : Z) (t : TurnState) : TurnState :=
  {| emittedTurnChars := emittedTurnChars t;
     emittedMetaEvents := v;
     truncationNoticeEmitted := truncationNoticeEmitted t;
     lastStatusHash := lastStatusHash t;
     lastToolHash := lastToolHash t;
     lastUsageTuple := lastUsageTuple t;
     lastVisibleOutputTail := lastVisibleOutputTail t;
     pendingHiddenBoundary := pendingHiddenBoundary t;
     liveBufferText := liveBufferText t;
     liveIdleTimer := liveIdleTimer t;
     pendingToolDeliveries := pendingToolDeliveries t;
     toolLifecycleById := toolLifecycleById t |}.
Definition set_truncationNoticeEmitted (v : bool) (t : TurnState) : TurnState :=
  {| emittedTurnChars := emittedTurnChars t;
     emittedMetaEvents := emittedMetaEvents t;
     truncationNoticeEmitted := v;
     lastStatusHash := lastStatusHash t;
     lastToolHash := lastToolHash t;
     lastUsageTuple := lastUsageTuple t;
     lastVisibleOutputTail := lastVisibleOutputTail t;
     pendingHiddenBoundary := pendingHiddenBoundary t;
     liveBufferText := liveBufferText t;
     liveIdleTimer := liveIdleTimer t;
     pendingToolDeliveries := pendingToolDeliveries t;
     toolLifecycleById := toolLifecycleById t |}.
Definition set_lastStatusHash (v : option jsstring) (t : TurnState) : TurnState :=
  {| emittedTurnChars := emittedTurnChars t;
     emittedMetaEvents := emittedMetaEvents t;
     truncationNoticeEmitted := truncationNoticeEmitted t;
     lastStatusHash := v;
     lastToolHash := lastToolHash t;
     lastUsageTuple := lastUsageTuple t;
     lastVisibleOutputTail := lastVisibleOutputTail t;
     pendingHiddenBoundary := pendingHiddenBoundary t;
     liveBufferText := liveBufferText t;
     liveIdleTimer := liveIdleTimer t;
     pendingToolDeliveries := pendingToolDeliveries t;
     toolLifecycleById := toolLifecycleById t |}.
Definition set_lastToolHash (v : option jsstring) (t : TurnState) : TurnState :=
  {| emittedTurnChars := emittedTurnChars t;
     emittedMetaEvents := emittedMetaEvents t;
     truncationNoticeEmitted := truncationNoticeEmitted t;
     lastStatusHash := lastStatusHash t;
     lastToolHash := v;
     lastUsageTuple := lastUsageTuple t;
     lastVisibleOutputTail := lastVisibleOutputTail t;
     pendingHiddenBoundary := pendingHiddenBoundary t;
     liveBufferText := liveBufferText t;
     liveIdleTimer := liveIdleTimer t;
     pendingToolDeliveries := pendingToolDeliveries t;
     toolLifecycleById := toolLifecycleById t |}.
Definition set_lastUsageTuple (v : option jsstring) (t : TurnState) : TurnState :=
  {| emittedTurnChars := emittedTurnChars t;
     emittedMetaEvents := emittedMetaEvents t;
     truncationNoticeEmitted := truncationNoticeEmitted t;
     lastStatusHash := lastStatusHash t;
     lastToolHash := lastToolHash t;
     lastUsageTuple := v;
     lastVisibleOutputTail := lastVisibleOutputTail t;
     pendingHiddenBoundary := pendingHiddenBoundary t;
     liveBufferText := liveBufferText t;
     liveIdleTimer := liveIdleTimer t;
     pendingToolDeliveries := pendingToolDeliveries t;
     toolLifecycleById := toolLifecycleById t |}.
Definition set_lastVisibleOutputTail (v : option jsstring) (t : TurnState) : TurnState :=
  {| emittedTurnChars := emittedTurnChars t;
     emittedMetaEvents := emittedMetaEvents t;
     truncationNoticeEmitted := truncationNoticeEmitted t;
     lastStatusHash := lastStatusHash t;
     lastToolHash := lastToolHash t;
     lastUsageTuple := lastUsageTuple t;
     lastVisibleOutputTail := v;
     pendingHiddenBoundary := pendingHiddenBoundary t;
     liveBufferText := liveBufferText t;
     liveIdleTimer := liveIdleTimer t;
     pendingToolDeliveries := pendingToolDeliveries t;
     toolLifecycleById := toolLifecycleById t |}.
Definition set_pendingHiddenBoundary (v : bool) (t : TurnState) : TurnState :=
  {| emittedTurnChars := emittedTurnChars t;
     emittedMetaEvents := emittedMetaEvents t;
     truncationNoticeEmitted := truncationNoticeEmitted t;
     lastStatusHash := lastStatusHash t;
     lastToolHash := lastToolHash t;
     lastUsageTuple := lastUsageTuple t;
     lastVisibleOutputTail := lastVisibleOutputTail t;
     pendingHiddenBoundary := v;
     liveBufferText := liveBufferText t;
     liveIdleTimer := liveIdleTimer t;
     pendingToolDeliveries := pendingToolDeliveries t;
     toolLifecycleById := toolLifecycleById t |}.
Definition set_liveBufferText (v : jsstring) (t : TurnState) : TurnState :=
  {| emittedTurnChars := emittedTurnChars t;
     emittedMetaEvents := emittedMetaEvents t;
     truncationNoticeEmitted := truncationNoticeEmitted t;
     lastStatusHash := lastStatusHash t;
     lastToolHash := lastToolHash t;
     lastUsageTuple := lastUsageTuple t;
     lastVisibleOutputTail := lastVisibleOutputTail t;
     pendingHiddenBoundary := pendingHiddenBoundary t;
     liveBufferText := v;
     liveIdleTimer := liveIdleTimer t;
     pendingToolDeliveries := pendingToolDeliveries t;
     toolLifecycleById := toolLifecycleById t |}.
Definition set_liveIdleTimer (v : option TimerHandle) (t : TurnState) : TurnState :=
  {| emittedTurnChars := emittedTurnChars t;
     emittedMetaEvents := emittedMetaEvents t;
     truncationNoticeEmitted := truncationNoticeEmitted t;
     lastStatusHash := lastStatusHash t;
     lastToolHash := lastToolHash t;
     lastUsageTuple := lastUsageTuple t;
     lastVisibleOutputTail := lastVisibleOutputTail t;
     pendingHiddenBoundary := pendingHiddenBoundary t;
     liveBufferText := liveBufferText t;
     liveIdleTimer := v;
     pendingToolDeliveries := pendingToolDeliveries t;
     toolLifecycleById := toolLifecycleById t |}.
Definition set_pendingToolDeliveries (v : list BufferedToolDelivery) (t : TurnState) : TurnState :=
  {| emittedTurnChars := emittedTurnChars t;
     emittedMetaEvents := emittedMetaEvents t;
     truncationNoticeEmitted := truncationNoticeEmitted t;
     lastStatusHash := lastStatusHash t;
     lastToolHash := lastToolHash t;
     lastUsageTuple := lastUsageTuple t;
     lastVisibleOutputTail := lastVisibleOutputTail t;
     pendingHiddenBoundary := pendingHiddenBoundary t;
     liveBufferText := liveBufferText t;
     liveIdleTimer := liveIdleTimer t;
     pendingToolDeliveries := v;
     toolLifecycleById := toolLifecycleById t |}.
Definition set_toolLifecycleById (v : gmap jsstring ToolLifecycleState) (t : TurnState) : TurnState :=
  {| emittedTurnChars := emittedTurnChars t;
     emittedMetaEvents := emittedMetaEvents t;
     truncationNoticeEmitted := truncationNoticeEmitted t;
     lastStatusHash := lastStatusHash t;
     lastToolHash := lastToolHash t;
     lastUsageTuple := lastUsageTuple t;
     lastVisibleOutputTail := lastVisibleOutputTail t;
     pendingHiddenBoundary := pendingHiddenBoundary t;
     liveBufferText := liveBufferText t;
     liveIdleTimer := liveIdleTimer t;
     pendingToolDeliveries := pendingToolDeliveries t;
     toolLifecycleById := v |}.

Section Projector.
Context `{host : Host}.

(** The state of one projector: the turn-scoped variables, and the chunker
    and the pipeline it creates. *)
Record Projector := {
  turn : TurnState;
  chunker : Chunker;
  blockReplyPipeline : Pipeline;
}.

Definition onTurn (f : TurnState -> TurnState) (p : Projector) : Projector :=
  {| turn := f (turn p);
     chunker := chunker p;
     blockReplyPipeline := blockReplyPipeline p |}.

Definition set_chunker (v : Chunker) (p : Projector) : Projector :=
  {| turn := turn p; chunker := v; blockReplyPipeline := blockReplyPipeline p |}.

Definition set_blockReplyPipeline (v : Pipeline) (p : Projector) : Projector :=
  {| turn := turn p; chunker := chunker p; blockReplyPipeline := v |}.

(** A routine of the projector: it updates the state, makes calls on the
    collaborators and returns a value. *)
Record Outcome (A : Type) := {
  result : A;
  after : Projector;
  calls : list Call;
}.
Arguments result {A} _.
Arguments after {A} _.
Arguments calls {A} _.

Definition Proj (A : Type) : Type := Projector -> Outcome A.

(** The routine that returns [a] and does nothing else. *)
Definition ret {A} (a : A) : Proj A :=
  fun p => {| result := a; after := p; calls := [] |}.

(** [m], then [k] on what [m] returns; the calls of both, in order. *)
Definition bind {A B} (m : Proj A) (k : A -> Proj B) : Proj B :=
  fun p =>
    let o := m p in
    let o' := k (result o) (after o) in
    {| result := result o'; after := after o'; calls := calls o ++ calls o' |}.

(** Reading from and changing the whole state. *)
Definition gets {A} (f : Projector -> A) : Proj A :=
  fun p => {| result := f p; after := p; calls := [] |}.

Definition modify (f : Projector -> Projector) : Proj unit :=
  fun p => {| result := tt; after := f p; calls := [] |}.

(** Reading and assigning a turn-scoped variable. *)
Definition read {A} (f : TurnState -> A) : Proj A :=
  gets (fun p => f (turn p)).

Definition assign (f : TurnState -> TurnState) : Proj unit :=
  modify (onTurn f).

(** A call on a collaborator, recorded in the trace. *)
Definition call (c : Call) : Proj unit :=
  fun p => {| result := tt; after := p; calls := [c] |}.

Notation "'let*' x ':=' m 'in' k" := (bind m (fun x => k))
  (at level 10, x name, m at level 100, k at level 200, only parsing).
Notation "m '>>' k" := (bind m (fun _ => k))
  (at level 90, right associativity, only parsing).

(** [for (const x of l) body(x)] *)
Fixpoint forEach {A} (l : list A) (body : A -> Proj unit) : Proj unit :=
  match l with
  | [] => ret tt
  | x :: r => body x >> forEach r body
  end.

(** [params.deliver(kind, payload, meta)]; the promised boolean is not
    read. *)
Definition deliver (kind : ReplyDispatchKind) (payload : ReplyPayload)
    (meta : option AcpProjectedDeliveryMeta) : Proj unit :=
  call (Deliver kind payload meta).

(** [chunker.append(text)] *)
Definition chunkerAppend (text : jsstring) : Proj unit :=
  modify (fun p => set_chunker (chunker_append text (chunker p)) p)
  >> call (ChunkerAppend text).

(** [blockReplyPipeline.enqueue(payload)], whose [onBlockReply] delivers
    block payloads. *)
Definition pipelineEnqueue (payload : ReplyPayload) : Proj unit :=
  let* pl := gets blockReplyPipeline in
  let sent := pipeline_enqueue payload pl in
  modify (set_blockReplyPipeline sent.2)
  >> forEach sent.1 (fun reply => deliver kind_block reply None).

(** [blockReplyPipeline.flush({ force })] *)
Definition pipelineFlush (force : bool) : Proj unit :=
  let* pl := gets blockReplyPipeline in
  let sent := pipeline_flush force pl in
  modify (set_blockReplyPipeline sent.2)
  >> forEach sent.1 (fun reply => deliver kind_block reply None).

(** The parameters of [createAcpReplyProjector]; the [deliver] callback is
    the trace. *)
Record ProjectorParams := {
  cfg : OpenClawConfig;
  shouldSendToolSummaries : bool;
  provider : option jsstring;
  accountId : option jsstring;
}.

Definition resolveAcpStreamingConfig (cfg : OpenClawConfig)
    (provider accountId : option jsstring) (mode : AcpDeliveryMode)
    : Chunking * Coalescing :=
  let resolved :=
    resolveEffectiveBlockStreamingConfig cfg provider accountId
      (resolveAcpStreamMaxChunkChars cfg) (resolveAcpStreamCoalesceIdleMs cfg) in
  match mode with
  | live =>
      (chunking_withMinChars 1 resolved.1,
       coalescing_withMinCharsJoiner 1 [] resolved.2)
  | final_only => resolved
  end.

Definition renderToolSummaryText (event : ToolCallEvent) : jsstring :=
  let title := Js.trim <$> tc_title event in
  let detailParts1 :=
    if Js.falsy_opt title then [] else [default [] title] in
  let status := Js.trim <$> tc_status event in
  let detailParts2 :=
    if Js.falsy_opt status then detailParts1
    else detailParts1 ++ [s_status_eq ++ default [] status] in
  let fallback := Js.trim <$> tc_text event in
  let detailParts :=
    if bool_decide (detailParts2 = []) && negb (Js.falsy_opt fallback)
    then detailParts2 ++ [default [] fallback]
    else detailParts2 in
  let joined := Js.join s_middot detailParts in
  let display :=
    resolveToolDisplay s_tool_call
      (if Js.falsy joined then s_tool_call_words else joined) in
  formatToolSummary display.

Definition normalizeToolStatus (status : option jsstring) : option jsstring :=
  match status with
  | None => None
  | Some status =>
      if Js.falsy status then None
      else
        let normalized := toLowerCase (Js.trim status) in
        if Js.falsy normalized then None else Some normalized
  end.

(** [status ? TERMINAL_TOOL_STATUSES.has(status) : false] *)
Definition isTerminalStatus (status : option jsstring) : bool :=
  match status with
  | Some status => has TERMINAL_TOOL_STATUSES status
  | None => false
  end.

Variable params : ProjectorParams.

Definition settings : AcpProjectionSettings :=
  resolveAcpProjectionSettings (cfg params).

Definition streaming : Chunking * Coalescing :=
  resolveAcpStreamingConfig (cfg params) (provider params) (accountId params)
    (deliveryMode settings).

Definition liveIdleFlushMs : Z :=
  Z.max (coalescing_idleMs streaming.2) ACP_LIVE_IDLE_FLUSH_FLOOR_MS.

(** The variables as [createAcpReplyProjector] declares them. *)
Definition initialTurn : TurnState :=
  {| emittedTurnChars := 0;
     emittedMetaEvents := 0;
     truncationNoticeEmitted := false;
     lastStatusHash := None;
     lastToolHash := None;
     lastUsageTuple := None;
     lastVisibleOutputTail := None;
     pendingHiddenBoundary := false;
     liveBufferText := [];
     liveIdleTimer := None;
     pendingToolDeliveries := [];
     toolLifecycleById := ∅ |}.

(** The state [createAcpReplyProjector] returns with. *)
Definition createAcpReplyProjector : Projector :=
  {| turn := initialTurn;
     chunker := newEmbeddedBlockChunker streaming.1;
     blockReplyPipeline :=
       createBlockReplyPipeline ACP_BLOCK_REPLY_TIMEOUT_MS
         (match deliveryMode settings with
          | live => None
          | final_only => Some streaming.2
          end) |}.

Definition clearLiveIdleTimer : Proj unit :=
  let* timer := read liveIdleTimer in
  match timer with
  | None => ret tt
  | Some _ => assign (set_liveIdleTimer None)
  end.

Definition drainChunker (force : bool) : Proj unit :=
  if bool_decide (deliveryMode settings = final_only) && negb force then ret tt
  else
    let* ch := gets chunker in
    let drained := chunker_drain force ch in
    modify (set_chunker drained.2)
    >> forEach drained.1
         (fun chunk => pipelineEnqueue {| payload_text := chunk |}).

(** [flushLiveBuffer(opts)]; [force] is [opts?.force === true] and [idle] is
    [opts?.idle]. *)
Definition flushLiveBuffer (force idle : bool) : Proj unit :=
  if negb (bool_decide (deliveryMode settings = live)) then ret tt
  else
    let* text := read liveBufferText in
    if Js.falsy text then ret tt
    else if idle && negb (shouldFlushLiveBufferOnIdle text) then ret tt
    else
      assign (set_liveBufferText [])
      >> chunkerAppend text
      >> drainChunker force.

Definition scheduleLiveIdleFlush : Proj unit :=
  if negb (bool_decide (deliveryMode settings = live)) then ret tt
  else
    let* text := read liveBufferText in
    if (liveIdleFlushMs <=? 0) || Js.falsy text then ret tt
    else
      clearLiveIdleTimer
      >> assign (set_liveIdleTimer (Some timer_pending)).

(** The callback [scheduleLiveIdleFlush] hands to [setTimeout]. *)
Definition liveIdleTimeout : Proj unit :=
  flushLiveBuffer true true
  >> let* text := read liveBufferText in
     if Js.falsy text then ret tt else scheduleLiveIdleFlush.

Definition resetTurnState : Proj unit :=
  clearLiveIdleTimer
  >> assign (set_emittedTurnChars 0)
  >> assign (set_emittedMetaEvents 0)
  >> assign (set_truncationNoticeEmitted false)
  >> assign (set_lastStatusHash None)
  >> assign (set_lastToolHash None)
  >> assign (set_lastUsageTuple None)
  >> assign (set_lastVisibleOutputTail None)
  >> assign (set_pendingHiddenBoundary false)
  >> assign (set_liveBufferText [])
  >> assign (set_pendingToolDeliveries [])
  >> assign (set_toolLifecycleById ∅).

Definition flushBufferedToolDeliveries (force : bool) : Proj unit :=
  if negb (bool_decide (deliveryMode settings = final_only) && force)
  then ret tt
  else
    let* entries := read pendingToolDeliveries in
    assign (set_pendingToolDeliveries [])
    >> forEach entries
         (fun entry => deliver kind_tool (payload entry) (meta entry)).

Definition flush (force : bool) : Proj unit :=
  (if bool_decide (deliveryMode settings = live)
   then clearLiveIdleTimer >> flushLiveBuffer true false
   else ret tt)
  >> flushBufferedToolDeliveries force
  >> drainChunker force
  >> pipelineFlush force.

Definition consumeMetaQuota (force : bool) : Proj bool :=
  if force then ret true
  else
    let* emitted := read emittedMetaEvents in
    if maxMetaEventsPerTurn settings <=? emitted then ret false
    else assign (set_emittedMetaEvents (emitted + 1)) >> ret true.

(** Either buffer a tool payload (final-only mode) or flush and deliver it:
    the tail shared by [emitSystemStatus] and [emitToolSummary]. *)
Definition deliverOrBuffer (payload : ReplyPayload)
    (meta : option AcpProjectedDeliveryMeta) : Proj unit :=
  match deliveryMode settings with
  | final_only =>
      assign (fun t =>
        set_pendingToolDeliveries
          (pendingToolDeliveries t ++ [{| payload := payload; meta := meta |}])
          t)
  | live => flush true >> deliver kind_tool payload meta
  end.

(** [emitSystemStatus(text, meta, opts)] with [opts_force] for [opts?.force]
    and [opts_dedupe] for [opts?.dedupe]. *)
Definition emitSystemStatus (text : jsstring)
    (meta : option AcpProjectedDeliveryMeta) (opts_force opts_dedupe : option bool)
    : Proj unit :=
  if negb (shouldSendToolSummaries params) then ret tt
  else
    let bounded := truncateText (Js.trim text) (maxStatusChars settings) in
    if Js.falsy bounded then ret tt
    else
      let formatted := prefixSystemMessage bounded in
      let hash := hashText formatted in
      let shouldDedupe :=
        repeatSuppression settings
        && negb (bool_decide (opts_dedupe = Some false)) in
      let* last := read lastStatusHash in
      if shouldDedupe && Js.opt_is last hash then ret tt
      else
        let* granted := consumeMetaQuota (bool_decide (opts_force = Some true)) in
        if negb granted then ret tt
        else
          deliverOrBuffer {| payload_text := formatted |} meta
          >> assign (set_lastStatusHash (Some hash)).

(** [event.toolCallId?.trim() || undefined] *)
Definition trimmedToolCallId (event : ToolCallEvent) : option jsstring :=
  match tc_toolCallId event with
  | Some id => if Js.falsy (Js.trim id) then None else Some (Js.trim id)
  | None => None
  end.

Definition toolSummaryOf (event : ToolCallEvent) : jsstring :=
  truncateText (renderToolSummaryText event) (maxToolSummaryChars settings).

Definition isStartEvent (event : ToolCallEvent) : bool :=
  Js.opt_is (normalizeToolStatus (tc_status event)) s_in_progress
  || Js.opt_is (tc_tag event) s_tool_call.

Definition emitToolSummary (event : ToolCallEvent) (opts_force : option bool)
    : Proj unit :=
  if negb (shouldSendToolSummaries params) then ret tt
  else if negb (isAcpTagVisible settings (tc_tag event)) then ret tt
  else
    let toolSummary := toolSummaryOf event in
    let hash := hashText toolSummary in
    let toolCallId := trimmedToolCallId event in
    let status := normalizeToolStatus (tc_status event) in
    let isTerminal := isTerminalStatus status in
    let isStart := isStartEvent event in
    let send : Proj unit :=
      let* granted := consumeMetaQuota (bool_decide (opts_force = Some true)) in
      if negb granted then ret tt
      else
        let deliveryMeta :=
          {| meta_tag := if Js.falsy_opt (tc_tag event) then None else tc_tag event;
             meta_toolCallId := toolCallId;
             meta_toolStatus := status;
             meta_allowEdit :=
               Some (bool_decide (is_Some toolCallId)
                     && Js.opt_is (tc_tag event) s_tool_call_update) |} in
        deliverOrBuffer {| payload_text := toolSummary |} (Some deliveryMeta)
        >> assign (set_lastToolHash (Some hash)) in
    if repeatSuppression settings then
      match toolCallId with
      | Some id =>
          let* byId := read toolLifecycleById in
          let state :=
            default {| started := false; terminal := false;
                       lastRenderedHash := None |} (byId !! id) in
          if isTerminal && terminal state then ret tt
          else if isStart && started state then ret tt
          else if Js.opt_is (lastRenderedHash state) hash then ret tt
          else
            assign (set_toolLifecycleById
                      (<[id := {| started := if isStart then true else started state;
                                  terminal :=
                                    if isTerminal then true else terminal state;
                                  lastRenderedHash := Some hash |}]> byId))
            >> send
      | None =>
          let* last := read lastToolHash in
          if Js.opt_is last hash then ret tt else send
      end
    else send.

Definition emitTruncationNotice : Proj unit :=
  let* emitted := read truncationNoticeEmitted in
  if emitted then ret tt
  else
    assign (set_truncationNoticeEmitted true)
    >> emitSystemStatus s_output_truncated
         (Some {| meta_tag := Some s_session_info_update;
                  meta_toolCallId := None;
                  meta_toolStatus := None;
                  meta_allowEdit := None |})
         (Some true) (Some false).

(** Whether [onEvent] projects a text delta: it is on the output stream (or
    on none), its tag is visible and its text is not empty. *)
Definition isProjectedText (event : TextDeltaEvent) : bool :=
  negb (negb (Js.falsy_opt (td_stream event))
        && negb (Js.opt_is (td_stream event) s_output))
  && isAcpTagVisible settings (td_tag event)
  && negb (Js.falsy (td_text event)).

(** The text of a projected delta once the hidden-boundary separator has
    been considered (the first conditional of [onEvent] after the guards). *)
Definition textWithSeparator (p : TurnState) (text : jsstring) : jsstring :=
  let separator :=
    resolveHiddenBoundarySeparatorText (hiddenBoundarySeparator settings) in
  if pendingHiddenBoundary p
     && shouldInsertSeparator separator (lastVisibleOutputTail p) text
  then separator ++ text
  else text.

(** The part of [text] that fits the turn budget left in [p]. *)
Definition acceptedText (p : TurnState) (text : jsstring) : jsstring :=
  let remaining := maxTurnChars settings - emittedTurnChars p in
  if remaining <? Js.len text then Js.slice text 0 (Some remaining) else text.

(** Whether [onEvent] cuts a text delta short (or drops it whole): it is
    projected and longer than the budget left. *)
Definition truncates (p : TurnState) (event : TextDeltaEvent) : bool :=
  isProjectedText event
  && (maxTurnChars settings - emittedTurnChars p
        <? Js.len (textWithSeparator p (td_text event))).

(** The payload and the meta [emitTruncationNotice] passes on. *)
Definition truncationNotice : BufferedToolDelivery :=
  {| payload :=
       {| payload_text :=
            prefixSystemMessage
              (truncateText (Js.trim s_output_truncated)
                 (maxStatusChars settings)) |};
     meta := Some {| meta_tag := Some s_session_info_update;
                     meta_toolCallId := None;
                     meta_toolStatus := None;
                     meta_allowEdit := None |} |}.

Definition onTextDelta (event : TextDeltaEvent) : Proj unit :=
  if negb (Js.falsy_opt (td_stream event))
     && negb (Js.opt_is (td_stream event) s_output) then ret tt
  else if negb (isAcpTagVisible settings (td_tag event)) then ret tt
  else if Js.falsy (td_text event) then ret tt
  else
    let* text := read (fun t => textWithSeparator t (td_text event)) in
    assign (set_pendingHiddenBoundary false)
    >> let* emitted := read emittedTurnChars in
       if maxTurnChars settings <=? emitted then emitTruncationNotice
       else
         let* accepted := read (fun t => acceptedText t text) in
         (if 0 <? Js.len accepted then
            assign (set_emittedTurnChars (emitted + Js.len accepted))
            >> assign (set_lastVisibleOutputTail
                         (Some (Js.slice accepted (-1) None)))
            >> match deliveryMode settings with
               | live =>
                   assign (fun t =>
                     set_liveBufferText (liveBufferText t ++ accepted) t)
                   >> let* buffered := read liveBufferText in
                      if shouldFlushLiveBufferOnBoundary buffered
                      then clearLiveIdleTimer >> flushLiveBuffer true false
                      else scheduleLiveIdleFlush
               | final_only => chunkerAppend accepted >> drainChunker false
               end
          else ret tt)
         >> if Js.len accepted <? Js.len text then emitTruncationNotice
            else ret tt.

Definition onStatus (event : StatusEvent) : Proj unit :=
  if negb (isAcpTagVisible settings (st_tag event)) then ret tt
  else
    let emit :=
      emitSystemStatus (st_text event)
        (if Js.falsy_opt (st_tag event) then None
         else Some {| meta_tag := st_tag event;
                      meta_toolCallId := None;
                      meta_toolStatus := None;
                      meta_allowEdit := None |})
        None (Some true) in
    if Js.opt_is (st_tag event) s_usage_update && repeatSuppression settings
    then
      let usageTuple :=
        match st_used event, st_size event with
        | Some used, Some size =>
            numberToString used ++ [47%N] ++ numberToString size
        | _, _ => hashText (st_text event)
        end in
      let* last := read lastUsageTuple in
      if Js.opt_is last usageTuple then ret tt
      else assign (set_lastUsageTuple (Some usageTuple)) >> emit
    else emit.

Definition onToolCall (event : ToolCallEvent) : Proj unit :=
  if negb (isAcpTagVisible settings (tc_tag event)) then
    match tc_tag event with
    | Some tag =>
        if negb (Js.falsy tag) && has HIDDEN_BOUNDARY_TAGS tag then
          let status := normalizeToolStatus (tc_status event) in
          let isTerminal := isTerminalStatus status in
          assign (set_pendingHiddenBoundary
                    (Js.eqb tag s_tool_call || isTerminal))
        else ret tt
    | None => ret tt
    end
  else emitToolSummary event None.

Definition onEvent (event : AcpRuntimeEvent) : Proj unit :=
  match event with
  | ev_text_delta event => onTextDelta event
  | ev_status event => onStatus event
  | ev_tool_call event => onToolCall event
  | ev_done | ev_error => flush true >> resetTurnState
  end.

(** What reaches a projector: the two methods it returns, and the expiry of
    the idle timer it has armed. *)
Inductive Input :=
| OnEvent (event : AcpRuntimeEvent)
| Flush (force : bool)
| IdleTimeout.

Definition step (i : Input) : Proj unit :=
  match i with
  | OnEvent event => onEvent event
  | Flush force => flush force
  | IdleTimeout =>
      let* timer := read liveIdleTimer in
      match timer with
      | Some timer_pending =>
          assign (set_liveIdleTimer (Some timer_fired)) >> liveIdleTimeout
      | _ => ret tt
      end
  end.

Fixpoint run (inputs : list Input) : Proj unit :=
  match inputs with
  | [] => ret tt
  | i :: rest => step i >> run rest
  end.

End Projector.

Arguments Projector : clear implicits.
Arguments Proj : clear implicits.
Arguments result {host A} _.
Arguments after {host A} _.
Arguments calls {host A} _.

Arguments settings : simpl never.
Arguments liveIdleFlushMs : simpl never.
Arguments clearLiveIdleTimer : simpl never.
Arguments drainChunker : simpl never.
Arguments flushLiveBuffer : simpl never.
Arguments scheduleLiveIdleFlush : simpl never.
Arguments liveIdleTimeout : simpl never.
Arguments resetTurnState : simpl never.
Arguments flushBufferedToolDeliveries : simpl never.
Arguments flush : simpl never.
Arguments consumeMetaQuota : simpl never.
Arguments deliverOrBuffer : simpl never.
Arguments emitSystemStatus : simpl never.
Arguments emitToolSummary : simpl never.
Arguments emitTruncationNotice : simpl never.
Arguments onTextDelta : simpl never.
Arguments onStatus : simpl never.
Arguments onToolCall : simpl never.
Arguments onEvent : simpl never.
Arguments step : simpl never.

(** ** A concrete host

    A small instance of the collaborators, on which the definitions can be
    run: the chunker keeps one buffer and emits it whole on a forced drain,
    the pipeline queues payloads and sends them on a flush; letters are
    lowered within ASCII and numbers print as the integer below them. *)

Module Sample.

Definition asciiLower (c : Js.char) : Js.char :=
  if ((65 <=? c) && (c <=? 90))%N then (c + 32)%N else c.

(** A host for the runs below.  It lowers the ASCII letters only and prints
    a finite number by its whole part, as JavaScript does for the whole
    numbers and the ASCII texts these runs pass; the theorems hold of every
    host and do not depend on it. *)
#[local] Instance host : Host := {|
  toLowerCase := map asciiLower;
  numberToString := fun n =>
    match n with
    | Js.Finite q => Js.lit (pretty (Qfloor q))
    | Js.NaN => Js.lit "NaN"
    | Js.PosInfinity => Js.lit "Infinity"
    | Js.NegInfinity => Js.lit "-Infinity"
    end;
  prefixSystemMessage := fun s => Js.lit "System: " ++ s;
  ToolDisplay := jsstring * jsstring;
  resolveToolDisplay := fun name meta => (name, meta);
  formatToolSummary := fun d => d.1 ++ Js.lit ": " ++ d.2;
  Chunking := Z * Z;
  Coalescing := Z * Z * jsstring;
  resolveEffectiveBlockStreamingConfig := fun _ _ _ maxChunkChars idleMs =>
    ((800, maxChunkChars), (800, idleMs, [10%N; 10%N]));
  chunking_withMinChars := fun n c => (n, c.2);
  coalescing_withMinCharsJoiner := fun n j c => (n, c.1.2, j);
  coalescing_idleMs := fun c => c.1.2;
  Chunker := jsstring;
  newEmbeddedBlockChunker := fun _ => [];
  chunker_append := fun text buffer => buffer ++ text;
  chunker_drain := fun force buffer =>
    if force && negb (Js.falsy buffer) then ([buffer], []) else ([], buffer);
  Pipeline := list ReplyPayload;
  createBlockReplyPipeline := fun _ _ => [];
  pipeline_enqueue := fun payload queue => ([], queue ++ [payload]);
  pipeline_flush := fun _ queue => (queue, []);
|}.

(** [{ acp: { stream: { deliveryMode, maxTurnChars, maxMetaEventsPerTurn,
    tagVisibility } } }] *)
Definition config (mode : jsstring) (maxTurn maxMeta : Z)
    (visibility : list (jsstring * bool)) : OpenClawConfig :=
  {| acp_stream := Some
       {| cfg_deliveryMode := Js.String mode;
          cfg_hiddenBoundarySeparator := Js.Undefined;
          cfg_repeatSuppression := Js.Undefined;
          cfg_maxTurnChars := Js.Number (Js.Finite (inject_Z maxTurn));
          cfg_maxToolSummaryChars := Js.Undefined;
          cfg_maxStatusChars := Js.Undefined;
          cfg_maxMetaEventsPerTurn := Js.Number (Js.Finite (inject_Z maxMeta));
          cfg_tagVisibility :=
            Some (list_to_map (prod_map id Js.Bool <$> visibility));
          cfg_coalesceIdleMs := Js.Undefined;
          cfg_maxChunkChars := Js.Undefined |} |}.

Definition params (mode : jsstring) (maxTurn maxMeta : Z)
    (visibility : list (jsstring * bool)) (summaries : bool) : ProjectorParams :=
  {| cfg := config mode maxTurn maxMeta visibility;
     shouldSendToolSummaries := summaries;
     provider := None;
     accountId := None |}.

(** A text delta of the default (visible) tag on the output stream. *)
Definition text (content : String.string) : TextDeltaEvent :=
  {| td_stream := Some s_output;
     td_tag := Some s_agent_message_chunk;
     td_text := Js.lit content |}.

Definition toolCall (tag id stat title : String.string) : ToolCallEvent :=
  {| tc_tag := Some (Js.lit tag);
     tc_toolCallId := Some (Js.lit id);
     tc_title := Some (Js.lit title);
     tc_status := Some (Js.lit stat);
     tc_text := None |}.

Definition statusNote (tag content : String.string) : StatusEvent :=
  {| st_tag := Some (Js.lit tag);
     st_text := Js.lit content;
     st_used := None;
     st_size := None |}.

Definition say (content : String.string) : Input :=
  OnEvent (ev_text_delta (text content)).

Definition tool (tag id stat title : String.string) : Input :=
  OnEvent (ev_tool_call (toolCall tag id stat title)).

Definition note (tag content : String.string) : Input :=
  OnEvent (ev_status (statusNote tag content)).

(** Both tool-call tags made visible. *)
Definition toolsVisible : list (jsstring * bool) :=
  [(s_tool_call, true); (s_tool_call_update, true)].

(** The calls of a run from a fresh projector. *)
Definition trace (ps : ProjectorParams) (inputs : list Input) : list Call :=
  calls (run ps inputs (createAcpReplyProjector ps)).

Definition final (ps : ProjectorParams) (inputs : list Input) : Projector host :=
  after (run ps inputs (createAcpReplyProjector ps)).

End Sample.


(** * The direct-room tracker of the Matrix monitor

    The second module of [acp-projector.ts] is the tracker that tells
    direct-message rooms from group rooms ([createDirectRoomTracker]).  Its
    closure variables are the fields of one record; the Matrix client, the
    clock and the [log] callback are the outside, reached through calls
    that the trace records.  A promise that rejects is a call that yields a
    thrown value.  [client.dms.isDm] and [log], which the tracker calls
    outside any [try], are taken to return; one [isDirectMessage] is
    processed as a whole. *)

Module Direct.

Definition DM_CACHE_TTL_MS : Z := 30000.

Definition s_m_room_member : jsstring := Eval cbv in Js.lit "m.room.member".

(** The content of an [m.room.member] state event, as far as it is read;
    the event itself may be null or undefined. *)
Record MemberState := { is_direct : Js.value }.

(** An entry of [memberCountCache]. *)
Record MemberCount := { count : nat; ts : Z }.

(** The Matrix client and the clock.  Each call may depend on and change
    the world the client talks to; an awaited call either resolves or
    throws. *)
Class MatrixClient := {
  World : Type;
  Thrown : Type;
  (** [String(err)] *)
  thrownToString : Thrown -> jsstring;
  (** [Date.now()] *)
  date_now : World -> Z * World;
  (** [client.dms.update()]: [None] when it resolves *)
  dms_update : World -> option Thrown * World;
  (** [client.dms.isDm(roomId)], as a condition *)
  dms_isDm : jsstring -> World -> bool * World;
  getUserId : World -> (Thrown + jsstring) * World;
  getRoomStateEvent :
    jsstring -> jsstring -> jsstring -> World ->
    (Thrown + option MemberState) * World;
  getJoinedRoomMembers : jsstring -> World -> (Thrown + list jsstring) * World;
}.

(** What the tracker does to the outside. *)
Inductive ClientCall :=
| DmsUpdate
| IsDm (roomId : jsstring)
| GetUserId
| GetRoomStateEvent (roomId eventType stateKey : jsstring)
| GetJoinedRoomMembers (roomId : jsstring)
| Log (message : jsstring).

#[global] Instance ClientCall_eq_dec : EqDecision ClientCall.
Proof. solve_decision. Defined.

Record DirectRoomTrackerOptions := {
  (** whether [opts.includeMemberCountInLogs === true] *)
  includeMemberCountInLogs : bool;
}.

Record DirectMessageCheck := {
  roomId : jsstring;
  senderId : option jsstring;
  selfUserId : option jsstring;
}.

Section Tracker.
Context `{client : MatrixClient}.

(** The variables [createDirectRoomTracker] closes over, and the world. *)
Record Tracker := {
  lastDmUpdateMs : Z;
  cachedSelfUserId : option jsstring;
  (** [None] when the map is undefined *)
  memberCountCache : option (gmap jsstring MemberCount);
  world : World;
}.

Definition set_lastDmUpdateMs (v : Z) (s : Tracker) : Tracker :=
  {| lastDmUpdateMs := v;
     cachedSelfUserId := cachedSelfUserId s;
     memberCountCache := memberCountCache s;
     world := world s |}.

Definition set_cachedSelfUserId (v : option jsstring) (s : Tracker) : Tracker :=
  {| lastDmUpdateMs := lastDmUpdateMs s;
     cachedSelfUserId := v;
     memberCountCache := memberCountCache s;
     world := world s |}.

Definition set_memberCountCache (v : option (gmap jsstring MemberCount))
    (s : Tracker) : Tracker :=
  {| lastDmUpdateMs := lastDmUpdateMs s;
     cachedSelfUserId := cachedSelfUserId s;
     memberCountCache := v;
     world := world s |}.

Definition set_world (v : World) (s : Tracker) : Tracker :=
  {| lastDmUpdateMs := lastDmUpdateMs s;
     cachedSelfUserId := cachedSelfUserId s;
     memberCountCache := memberCountCache s;
     world := v |}.

(** A routine of the tracker: the value it returns, the state it ends in
    and the calls it has made. *)
Record Outcome (A : Type) := {
  answer : A;
  final : Tracker;
  trace : list ClientCall;
}.
Arguments answer {A} _.
Arguments final {A} _.
Arguments trace {A} _.

Definition Routine (A : Type) : Type := Tracker -> Outcome A.

Definition ret {A} (a : A) : Routine A :=
  fun s => {| answer := a; final := s; trace := [] |}.

Definition bind {A B} (m : Routine A) (k : A -> Routine B) : Routine B :=
  fun s =>
    let o := m s in
    let o' := k (answer o) (final o) in
    {| answer := answer o'; final := final o'; trace := trace o ++ trace o' |}.

Definition read {A} (f : Tracker -> A) : Routine A :=
  fun s => {| answer := f s; final := s; trace := [] |}.

Definition assign (f : Tracker -> Tracker) : Routine unit :=
  fun s => {| answer := tt; final := f s; trace := [] |}.

(** A call on the client or the clock: its answer comes from the world,
    which it may change. *)
Definition ask {A} (made : list ClientCall) (f : World -> A * World)
    : Routine A :=
  fun s =>
    let r := f (world s) in
    {| answer := r.1; final := set_world r.2 s; trace := made |}.

Notation "'let*' x ':=' m 'in' k" := (bind m (fun x => k))
  (at level 10, x name, m at level 100, k at level 200, only parsing).
Notation "m '>>' k" := (bind m (fun _ => k))
  (at level 90, right associativity, only parsing).

(** [log(message)], where [log] is [opts.log] or a function that does
    nothing. *)
Definition log (message : jsstring) : Routine unit :=
  fun s => {| answer := tt; final := s; trace := [Log message] |}.

Variable opts : DirectRoomTrackerOptions.

(** The state [createDirectRoomTracker] returns with. *)
Definition createDirectRoomTracker (w : World) : Tracker :=
  {| lastDmUpdateMs := 0;
     cachedSelfUserId := None;
     memberCountCache :=
       if includeMemberCountInLogs opts then Some ∅ else None;
     world := w |}.

Definition ensureSelfUserId : Routine (option jsstring) :=
  let* cached := read cachedSelfUserId in
  if negb (Js.falsy_opt cached) then ret cached
  else
    let* fetched := ask [GetUserId] getUserId in
    assign (set_cachedSelfUserId
              match fetched with
              | inr userId => Some userId
              | inl _ => None
              end)
    >> read cachedSelfUserId.

Definition refreshDmCache : Routine unit :=
  let* now := ask [] date_now in
  let* last := read lastDmUpdateMs in
  if now - last <? DM_CACHE_TTL_MS then ret tt
  else
    assign (set_lastDmUpdateMs now)
    >> let* failure := ask [DmsUpdate] dms_update in
       match failure with
       | None => ret tt
       | Some err =>
           log (Js.lit "matrix: dm cache refresh failed ("
                ++ thrownToString err ++ Js.lit ")")
       end.

Definition resolveMemberCount (room : jsstring) : Routine (option nat) :=
  let* cache := read memberCountCache in
  match cache with
  | None => ret None
  | Some entries =>
      let cached := entries !! room in
      let* now := ask [] date_now in
      let fetch : Routine (option nat) :=
        let* fetched :=
          ask [GetJoinedRoomMembers room] (getJoinedRoomMembers room) in
        match fetched with
        | inr members =>
            let n := length members in
            assign (fun s =>
              set_memberCountCache
                (insert room {| count := n; ts := now |}
                   <$> memberCountCache s) s)
            >> ret (Some n)
        | inl err =>
            log (Js.lit "matrix: dm member count failed room=" ++ room
                 ++ Js.lit " (" ++ thrownToString err ++ Js.lit ")")
            >> ret None
        end in
      match cached with
      | Some entry =>
          if now - ts entry <? DM_CACHE_TTL_MS then ret (Some (count entry))
          else fetch
      | None => fetch
      end
  end.

Definition hasDirectFlag (room : jsstring) (userId : option jsstring)
    : Routine bool :=
  match Js.trim <$> userId with
  | None => ret false
  | Some target =>
      if Js.falsy target then ret false
      else
        let* fetched :=
          ask [GetRoomStateEvent room s_m_room_member target]
            (getRoomStateEvent room s_m_room_member target) in
        ret match fetched with
            | inr (Some state) =>
                match is_direct state with
                | Js.Bool true => true
                | _ => false
                end
            | _ => false
            end
  end.

Definition isDirectMessage (params : DirectMessageCheck) : Routine bool :=
  let room := roomId params in
  refreshDmCache
  >> let* dm := ask [IsDm room] (dms_isDm room) in
     if dm then
       log (Js.lit "matrix: dm detected via m.direct room=" ++ room)
       >> ret true
     else
       let* self :=
         match selfUserId params with
         | Some given => ret (Some given)
         | None => ensureSelfUserId
         end in
       let* viaSender := hasDirectFlag room (senderId params) in
       let* directViaState :=
         if viaSender then ret true
         else hasDirectFlag room (Some (default [] self)) in
       if directViaState then
         log (Js.lit "matrix: dm detected via member state room=" ++ room)
         >> ret true
       else if negb (includeMemberCountInLogs opts) then
         log (Js.lit "matrix: dm check room=" ++ room
              ++ Js.lit " result=group")
         >> ret false
       else
         let* memberCount := resolveMemberCount room in
         log (Js.lit "matrix: dm check room=" ++ room
              ++ Js.lit " result=group members="
              ++ match memberCount with
                 | Some n => Js.lit (pretty n)
                 | None => Js.lit "unknown"
                 end)
         >> ret false.

(** Checks one after the other on one tracker. *)
Fixpoint checks (questions : list DirectMessageCheck) : Routine (list bool) :=
  match questions with
  | [] => ret []
  | question :: rest =>
      let* verdict := isDirectMessage question in
      let* verdicts := checks rest in
      ret (verdict :: verdicts)
  end.

End Tracker.

Arguments Tracker : clear implicits.
Arguments Routine : clear implicits.
Arguments answer {client A} _.
Arguments final {client A} _.
Arguments trace {client A} _.

(** *** Vocabulary of the properties of the tracker *)

Section Vocabulary.
Context `{client : MatrixClient}.

(** [m], run from [s], returns a value, ends in a state and makes calls
    that satisfy [Q]. *)
Definition holds {A} (m : Routine client A)
    (Q : A -> Tracker client -> list ClientCall -> Prop) (s : Tracker client)
    : Prop :=
  Q (answer (m s)) (final (m s)) (trace (m s)).

(** Two states that differ in the member-count cache at most. *)
Definition sameButCache (s s' : Tracker client) : Prop :=
  lastDmUpdateMs s = lastDmUpdateMs s'
  /\ cachedSelfUserId s = cachedSelfUserId s'
  /\ world s = world s'.

(** Two routines that, from two such states, return the same value, make
    the same calls and end in two such states. *)
Definition agree {A} (m m' : Routine client A) : Prop :=
  forall s s',
    sameButCache s s' ->
    answer (m s) = answer (m' s')
    /\ trace (m s) = trace (m' s')
    /\ sameButCache (final (m s)) (final (m' s')).

(** Two checks that, from two such states, give the same verdict, and make
    the same calls when the verdict is that the room is direct. *)
Definition agreeOnVerdict (m m' : Routine client bool) : Prop :=
  forall s s',
    sameButCache s s' ->
    answer (m s) = answer (m' s')
    /\ (answer (m s) = true -> trace (m s) = trace (m' s')).

(** The calls by kind. *)
Definition isMemberListQuery (c : ClientCall) : bool :=
  match c with GetJoinedRoomMembers _ => true | _ => false end.

Definition isDmListUpdate (c : ClientCall) : bool :=
  match c with DmsUpdate => true | _ => false end.

Definition isUserIdQuery (c : ClientCall) : bool :=
  match c with GetUserId => true | _ => false end.

Definition isMemberStateQuery (c : ClientCall) : bool :=
  match c with GetRoomStateEvent _ _ _ => true | _ => false end.

(** How many of some calls are of a kind. *)
Definition countCalls (kind : ClientCall -> bool) (made : list ClientCall)
    : nat :=
  length (List.filter kind made).

(** A call other than a query for the member state of a user with an
    empty name, of another room or of another event type. *)
Definition wellFormedFor (room : jsstring) (c : ClientCall) : Prop :=
  match c with
  | GetRoomStateEvent r eventType stateKey =>
      r = room /\ eventType = s_m_room_member /\ stateKey <> []
  | _ => True
  end.

End Vocabulary.

(** The client of the tests of the tracker: fixed answers, a clock that
    advances by one second at each reading, and nothing that throws. *)
Module Mock.

Definition alice : jsstring := Eval cbv in Js.lit "@alice:example.org".
Definition bot : jsstring := Eval cbv in Js.lit "@bot:example.org".
Definition room : jsstring := Eval cbv in Js.lit "!room:example.org".

#[local] Instance client (isDm senderDirect selfDirect : bool)
    (members : list jsstring) : MatrixClient := {|
  World := Z;
  Thrown := Empty_set;
  thrownToString := fun _ => [];
  date_now := fun clock => (clock, clock + 1000);
  dms_update := fun clock => (None, clock);
  dms_isDm := fun _ clock => (isDm, clock);
  getUserId := fun clock => (inr bot, clock);
  getRoomStateEvent := fun _ _ stateKey clock =>
    (inr (Some {| is_direct :=
                    if Js.eqb stateKey alice then Js.Bool senderDirect
                    else if Js.eqb stateKey bot then Js.Bool selfDirect
                    else Js.Undefined |}), clock);
  getJoinedRoomMembers := fun _ clock => (inr members, clock);
|}.

Definition question : DirectMessageCheck :=
  {| roomId := room; senderId := Some alice; selfUserId := None |}.

(** One check of [question] on a new tracker, in a room of two members. *)
Definition check (opts : DirectRoomTrackerOptions)
    (isDm senderDirect selfDirect : bool) : Outcome bool :=
  let mock := client isDm senderDirect selfDirect [alice; bot] in
  isDirectMessage (client := mock) opts question
    (createDirectRoomTracker (client := mock) opts 1700000000000).

End Mock.

End Direct.

(** ** Reading a trace *)

(** The tool payloads delivered by a sequence of calls, in order. *)
Definition toolDeliveries (l : list Call) : list BufferedToolDelivery :=
  omap (fun c =>
          match c with
          | Deliver kind_tool payload meta =>
              Some {| payload := payload; meta := meta |}
          | _ => None
          end) l.

(** The text handed to the chunker by a sequence of calls. *)
Definition appended (l : list Call) : jsstring :=
  concat (omap (fun c =>
                  match c with
                  | ChunkerAppend text => Some text
                  | _ => None
                  end) l).

(** ** Vocabulary of the properties

    What a routine does to the turn-scoped variables, the tool payloads it
    delivers and the text it hands to the chunker depends on the
    turn-scoped variables only.  [wpt m Q t] says that [m], run from any
    projector whose turn state is [t], ends in a turn state, with tool
    deliveries and chunker text that satisfy [Q].  The definitions after it
    name the turn states and payloads the routines produce, and the notions
    the properties are stated with. *)

Section Properties.
Context `{host : Host} (params : ProjectorParams).

(** A property of the value a routine returns, the turn state it ends in,
    the tool payloads it has delivered and the text it has handed to the
    chunker. *)
Definition Post (A : Type) : Type :=
  A -> TurnState -> list BufferedToolDelivery -> jsstring -> Prop.

(** [m], run from [p], satisfies [Q]. *)
Definition wp {A} (m : Proj host A) (Q : Post A) (p : Projector host) : Prop :=
  Q (result (m p)) (turn (after (m p))) (toolDeliveries (calls (m p)))
    (appended (calls (m p))).

(** [m], run from any projector whose turn state is [t], satisfies [Q]. *)
Definition wpt {A} (m : Proj host A) (Q : Post A) (t : TurnState) : Prop :=
  forall p, turn p = t -> wp m Q p.

(** Whether [flushLiveBuffer] empties the live buffer. *)
Definition liveFlushes (idle : bool) (t : TurnState) : bool :=
  bool_decide (deliveryMode (settings params) = live)
  && negb (Js.falsy (liveBufferText t))
  && negb (idle && negb (shouldFlushLiveBufferOnIdle (liveBufferText t))).

(** The turn state once a tool payload has been flushed out in live mode:
    the idle timer is cleared and the live buffer is empty. *)
Definition flushedLive (t : TurnState) : TurnState :=
  set_liveBufferText [] (set_liveIdleTimer None t).

(** The turn state once [deliverOrBuffer] has taken a payload. *)
Definition delivered (entry : BufferedToolDelivery) (t : TurnState) : TurnState :=
  match deliveryMode (settings params) with
  | live => flushedLive t
  | final_only =>
      set_pendingToolDeliveries (pendingToolDeliveries t ++ [entry]) t
  end.

(** What [deliverOrBuffer] delivers at once. *)
Definition deliveredNow (entry : BufferedToolDelivery)
    : list BufferedToolDelivery :=
  match deliveryMode (settings params) with
  | live => [entry]
  | final_only => []
  end.

(** The live text a tool delivery flushes to the chunker first. *)
Definition flushedText (t : TurnState) : jsstring :=
  match deliveryMode (settings params) with
  | live => liveBufferText t
  | final_only => []
  end.

(** The turn state once the meta quota has been charged. *)
Definition charged (force : bool) (t : TurnState) : TurnState :=
  if force then t else set_emittedMetaEvents (emittedMetaEvents t + 1) t.

(** Whether the meta quota admits one more delivery. *)
Definition quotaAdmits (force : bool) (t : TurnState) : bool :=
  force || negb (maxMetaEventsPerTurn (settings params) <=? emittedMetaEvents t).

(** The text of the payload [emitSystemStatus] builds from [text]. *)
Definition statusText (text : jsstring) : jsstring :=
  prefixSystemMessage
    (truncateText (Js.trim text) (maxStatusChars (settings params))).

(** Whether [emitSystemStatus] gets as far as [consumeMetaQuota]. *)
Definition statusPasses (text : jsstring) (opts_dedupe : option bool)
    (t : TurnState) : bool :=
  shouldSendToolSummaries params
  && negb (Js.falsy (truncateText (Js.trim text)
                       (maxStatusChars (settings params))))
  && negb (repeatSuppression (settings params)
           && negb (bool_decide (opts_dedupe = Some false))
           && Js.opt_is (lastStatusHash t) (hashText (statusText text))).

(** The lifecycle of a tool call as [emitToolSummary] reads it. *)
Definition lifecycleOf (id : jsstring) (t : TurnState) : ToolLifecycleState :=
  default {| started := false; terminal := false; lastRenderedHash := None |}
    (toolLifecycleById t !! id).

(** Whether a tool call carries a terminal status. *)
Definition isTerminalEvent (event : ToolCallEvent) : bool :=
  isTerminalStatus (normalizeToolStatus (tc_status event)).

(** Whether a tool call gets past the repeat filter of [emitToolSummary]. *)
Definition toolPasses (event : ToolCallEvent) (t : TurnState) : bool :=
  let hash := hashText (toolSummaryOf params event) in
  if repeatSuppression (settings params) then
    match trimmedToolCallId event with
    | Some id =>
        let state := lifecycleOf id t in
        negb (isTerminalEvent event && terminal state)
        && negb (isStartEvent event && started state)
        && negb (Js.opt_is (lastRenderedHash state) hash)
    | None => negb (Js.opt_is (lastToolHash t) hash)
    end
  else true.

(** The lifecycle map once the repeat filter has recorded a tool call. *)
Definition recordedLifecycle (event : ToolCallEvent) (t : TurnState)
    : gmap jsstring ToolLifecycleState :=
  if repeatSuppression (settings params) then
    match trimmedToolCallId event with
    | Some id =>
        let state := lifecycleOf id t in
        <[id := {| started :=
                     if isStartEvent event then true else started state;
                   terminal :=
                     if isTerminalEvent event then true else terminal state;
                   lastRenderedHash :=
                     Some (hashText (toolSummaryOf params event)) |}]>
          (toolLifecycleById t)
    | None => toolLifecycleById t
    end
  else toolLifecycleById t.

(** The turn state once the repeat filter has recorded a tool call. *)
Definition recorded (event : ToolCallEvent) (t : TurnState) : TurnState :=
  set_toolLifecycleById (recordedLifecycle event t) t.

(** The payload [emitToolSummary] builds for a tool call. *)
Definition toolEntry (event : ToolCallEvent) : BufferedToolDelivery :=
  {| payload := {| payload_text := toolSummaryOf params event |};
     meta := Some
       {| meta_tag :=
            if Js.falsy_opt (tc_tag event) then None else tc_tag event;
          meta_toolCallId := trimmedToolCallId event;
          meta_toolStatus := normalizeToolStatus (tc_status event);
          meta_allowEdit :=
            Some (bool_decide (is_Some (trimmedToolCallId event))
                  && Js.opt_is (tc_tag event) s_tool_call_update) |} |}.

(** What holds of the turn state from [createAcpReplyProjector] on: the two
    counters stay within their budgets, the live buffer is only used in live
    mode, and tool payloads are only buffered in final-only mode. *)
Record consistent (t : TurnState) : Prop := {
  turnChars_bounds : 0 <= emittedTurnChars t <= maxTurnChars (settings params);
  metaEvents_bounds :
    0 <= emittedMetaEvents t <= maxMetaEventsPerTurn (settings params);
  liveBuffer_live :
    deliveryMode (settings params) = final_only -> liveBufferText t = [];
  pending_final :
    deliveryMode (settings params) = live -> pendingToolDeliveries t = [];
}.

(** Inputs that end the turn. *)
Definition endsTurn (i : Input) : bool :=
  match i with
  | OnEvent ev_done | OnEvent ev_error => true
  | _ => false
  end.

(** The text a delta contributes to the turn: nothing unless it is
    projected, else what fits the budget. *)
Definition contribution (t : TurnState) (event : TextDeltaEvent) : jsstring :=
  if isProjectedText params event
  then acceptedText params t (textWithSeparator params t (td_text event))
  else [].

(** The text of the turn so far grows by what each input contributes, and
    [emittedTurnChars] counts it. *)
Definition textGrows (t t' : TurnState) (x : jsstring) : Prop :=
  exists acc,
    x ++ liveBufferText t' = liveBufferText t ++ acc
    /\ emittedTurnChars t' = emittedTurnChars t + Js.len acc.

(** The payload and the meta [onEvent] passes to [emitSystemStatus] for a
    status event, as [deliver] gets them. *)
Definition statusEntry (event : StatusEvent) : BufferedToolDelivery :=
  {| payload :=
       {| payload_text :=
            prefixSystemMessage
              (truncateText (Js.trim (st_text event))
                 (maxStatusChars (settings params))) |};
     meta :=
       if Js.falsy_opt (st_tag event) then None
       else Some {| meta_tag := st_tag event;
                    meta_toolCallId := None;
                    meta_toolStatus := None;
                    meta_allowEdit := None |} |}.

(** What one input schedules: the tool payloads delivered at once or
    buffered until the forced flush. *)
Definition scheduledBy (i : Input) (t t' : TurnState)
    (new : list BufferedToolDelivery) : Prop :=
  match i with
  | OnEvent (ev_text_delta event) =>
      new = (if shouldSendToolSummaries params && truncates params t event
                && negb (truncationNoticeEmitted t)
             then [truncationNotice params] else [])
      /\ truncationNoticeEmitted t'
         = truncationNoticeEmitted t || truncates params t event
      /\ emittedMetaEvents t' = emittedMetaEvents t
  | OnEvent (ev_status event) =>
      (new = [] \/ shouldSendToolSummaries params = true
                   /\ new = [statusEntry event])
      /\ truncationNoticeEmitted t' = truncationNoticeEmitted t
      /\ emittedMetaEvents t' = emittedMetaEvents t + Z.of_nat (length new)
  | OnEvent (ev_tool_call event) =>
      (new = [] \/ shouldSendToolSummaries params = true
                   /\ new = [toolEntry event])
      /\ truncationNoticeEmitted t' = truncationNoticeEmitted t
      /\ emittedMetaEvents t' = emittedMetaEvents t + Z.of_nat (length new)
  | _ =>
      new = []
      /\ truncationNoticeEmitted t' = truncationNoticeEmitted t
      /\ emittedMetaEvents t' = emittedMetaEvents t
  end.

(** The condition for a separator, in words: the separator is not empty;
    the fragment is not empty and does not start with whitespace; text was
    emitted before, and its last character is not whitespace if the
    separator is a space, not a newline if the separator is one or two
    newlines. *)
Definition separatorDue (separator : jsstring) (previousTail : option jsstring)
    (nextText : jsstring) : bool :=
  negb (Js.falsy separator)
  && match nextText with
     | first :: _ => negb (Js.isWhitespace first)
     | [] => false
     end
  && match previousTail with
     | Some tail =>
         match last tail with
         | Some c =>
             if Js.eqb separator s_sp then negb (Js.isWhitespace c)
             else if Js.eqb separator s_nl || Js.eqb separator s_nlnl
                  then negb (c =? 10)%N
                  else true
         | None => false
         end
     | None => false
     end.

(** How many of some tool payloads are the truncation notice. *)
Definition countNotices (l : list BufferedToolDelivery) : nat :=
  length (filter (fun d => d = truncationNotice params) l).

(** A status event that renders to the very payload of the truncation
    notice, with its session-info tag. *)
Definition mimicsNotice (i : Input) : bool :=
  match i with
  | OnEvent (ev_status event) =>
      bool_decide (statusEntry event = truncationNotice params)
  | _ => false
  end.

(** Whether an input is a text delta that gets cut short. *)
Definition truncatesInput (i : Input) (t : TurnState) : bool :=
  match i with
  | OnEvent (ev_text_delta event) => truncates params t event
  | _ => false
  end.

(** Whether truncation occurs while [inputs] are processed from [p]. *)
Fixpoint truncationIn (inputs : list Input) (p : Projector host) : bool :=
  match inputs with
  | [] => false
  | i :: rest =>
      truncatesInput i (turn p) || truncationIn rest (after (step params i p))
  end.

(** Whether a tool-call event gets as far as the meta quota. *)
Definition toolCallPasses (event : ToolCallEvent) (t : TurnState) : bool :=
  shouldSendToolSummaries params
  && isAcpTagVisible (settings params) (tc_tag event)
  && toolPasses event t.

(** Whether a tool-call event is delivered or buffered. *)
Definition toolCallGoesOut (event : ToolCallEvent) (t : TurnState) : bool :=
  toolCallPasses event t && quotaAdmits false t.

(** Whether the lifecycle map has the tool call [id] as terminal. *)
Definition terminalSeen (id : jsstring) (t : TurnState) : bool :=
  terminal (lifecycleOf id t).

(** The discipline of the live buffer: it never holds text that meets the
    boundary test, the idle timer is pending exactly while it holds text,
    and in final-only mode neither is ever used. *)
Record buffered (t : TurnState) : Prop := {
  below_boundary : shouldFlushLiveBufferOnBoundary (liveBufferText t) = false;
  armed_when_holding :
    liveBufferText t <> [] <-> liveIdleTimer t = Some timer_pending;
  final_only_idle :
    deliveryMode (settings params) = final_only ->
    liveBufferText t = [] /\ liveIdleTimer t = None;
}.

(** The tag an event carries; the two events that end a turn have none. *)
Definition eventTag (event : AcpRuntimeEvent) : option jsstring :=
  match event with
  | ev_text_delta event => td_tag event
  | ev_status event => st_tag event
  | ev_tool_call event => tc_tag event
  | ev_done | ev_error => None
  end.

(** Inputs that force a flush: [flush(true)], and the two events that end
    a turn. *)
Definition forcesFlush (i : Input) : bool :=
  match i with
  | Flush true | OnEvent ev_done | OnEvent ev_error => true
  | _ => false
  end.

(** The last character of a text, as a string: [text.slice(-1)] of a text
    that is not empty. *)
Definition tailOf (text : jsstring) : option jsstring :=
  (fun c => [c]) <$> last text.

(** The text of the turn so far grows by what each input contributes, and
    [lastVisibleOutputTail] follows its last character. *)
Definition tailFollows (t t' : TurnState) (x : jsstring) : Prop :=
  exists acc,
    x ++ liveBufferText t' = liveBufferText t ++ acc
    /\ lastVisibleOutputTail t'
       = if Js.falsy acc then lastVisibleOutputTail t else tailOf acc.

(** A tool payload that carries a status line: the system prefix put
    before a text that is not empty and has at most [maxStatusChars]
    characters, with no meta or with a tag alone. *)
Definition statusPayload (d : BufferedToolDelivery) : Prop :=
  (exists text,
     text <> [] /\ Js.len text <= maxStatusChars (settings params)
     /\ payload_text (payload d) = prefixSystemMessage text)
  /\ (meta d = None
      \/ exists tag,
           tag <> []
           /\ meta d = Some {| meta_tag := Some tag;
                               meta_toolCallId := None;
                               meta_toolStatus := None;
                               meta_allowEdit := None |}).

(** A tool payload that carries a tool summary: at most
    [maxToolSummaryChars] characters; no empty string in the meta; editing
    allowed exactly for a [tool_call_update] that names its tool call. *)
Definition summaryPayload (d : BufferedToolDelivery) : Prop :=
  Js.len (payload_text (payload d)) <= maxToolSummaryChars (settings params)
  /\ exists m,
       meta d = Some m
       /\ meta_tag m <> Some []
       /\ meta_toolCallId m <> Some []
       /\ meta_toolStatus m <> Some []
       /\ meta_allowEdit m
          = Some (bool_decide (meta_tag m = Some s_tool_call_update
                               /\ is_Some (meta_toolCallId m))).

(** The calls that deliver some tool payloads, and the calls by which the
    pipeline sends some block replies. *)
Definition toolCalls (entries : list BufferedToolDelivery) : list Call :=
  (fun entry => Deliver kind_tool (payload entry) (meta entry)) <$> entries.

Definition blockCalls (replies : list ReplyPayload) : list Call :=
  (fun reply => Deliver kind_block reply None) <$> replies.

(** The call that hands a text to the chunker, if there is a text. *)
Definition appendCalls (text : jsstring) : list Call :=
  if Js.falsy text then [] else [ChunkerAppend text].

(** A routine that leaves the turn state alone and whose only calls are
    block replies of the pipeline. *)
Definition sendsBlocksOnly (m : Proj host unit) : Prop :=
  forall p,
    turn (after (m p)) = turn p
    /\ exists replies, calls (m p) = blockCalls replies.

(** The detail line of a tool summary, case by case: the title and the
    status where they are not blank, else the text, else a fixed phrase. *)
Definition toolSummaryMeta (event : ToolCallEvent) : jsstring :=
  let title := default [] (Js.trim <$> tc_title event) in
  let status := default [] (Js.trim <$> tc_status event) in
  let text := default [] (Js.trim <$> tc_text event) in
  match title, status with
  | _ :: _, _ :: _ => title ++ s_middot ++ s_status_eq ++ status
  | _ :: _, [] => title
  | [], _ :: _ => s_status_eq ++ status
  | [], [] => if Js.falsy text then s_tool_call_words else text
  end.

(** A routine whose value, final turn state, tool deliveries and chunker
    text depend on the turn state it starts from only, whatever the chunker
    and the pipeline hold. *)
Definition turnOnly {A} (m : Proj host A) : Prop :=
  forall p p',
    turn p = turn p' ->
    result (m p) = result (m p')
    /\ turn (after (m p)) = turn (after (m p'))
    /\ toolDeliveries (calls (m p)) = toolDeliveries (calls (m p'))
    /\ appended (calls (m p)) = appended (calls (m p')).

Lemma toolDeliveries_app l1 l2 :
  toolDeliveries (l1 ++ l2) = toolDeliveries l1 ++ toolDeliveries l2.
Proof. apply omap_app. Qed.

Lemma appended_app l1 l2 : appended (l1 ++ l2) = appended l1 ++ appended l2.
Proof. unfold appended. by rewrite omap_app, concat_app. Qed.

(** ** Strings *)

Lemma sliceIndex_nonneg (n i : Z) :
  0 <= i -> Js.sliceIndex n i = Z.min i n.
Proof. intros. unfold Js.sliceIndex. by destruct (Z.ltb_spec i 0); [lia|]. Qed.

Lemma slice_prefix_take (s : jsstring) (n : Z) :
  0 <= n -> Js.slice s 0 (Some n) = take (Z.to_nat n) s.
Proof.
  intros Hn. unfold Js.slice.
  rewrite !sliceIndex_nonneg by (unfold Js.len; lia).
  unfold Js.len.
  rewrite (Z.min_l 0) by lia. rewrite drop_0, Z.sub_0_r.
  destruct (Z.le_gt_cases n (Z.of_nat (length s))).
  - by rewrite Z.min_l by lia.
  - rewrite Z.min_r by lia. rewrite Nat2Z.id.
    rewrite !take_ge; [done|lia..].
Qed.

Lemma slice_prefix_length (s : jsstring) (n : Z) :
  0 <= n <= Js.len s -> Js.len (Js.slice s 0 (Some n)) = n.
Proof.
  intros Hn. rewrite slice_prefix_take by lia.
  unfold Js.len in *. rewrite length_take. lia.
Qed.

Lemma len_app (a b : jsstring) : Js.len (a ++ b) = Js.len a + Js.len b.
Proof. unfold Js.len. rewrite length_app. lia. Qed.

Lemma len_nonneg (a : jsstring) : 0 <= Js.len a.
Proof. unfold Js.len. lia. Qed.

Lemma eqb_eq (a b : jsstring) : Js.eqb a b = true <-> a = b.
Proof. unfold Js.eqb. apply bool_decide_eq_true. Qed.

Lemma opt_is_Some (a : option jsstring) (b : jsstring) :
  Js.opt_is a b = true <-> a = Some b.
Proof.
  destruct a as [a|]; simpl; [|done].
  rewrite eqb_eq. split; congruence.
Qed.

(** ** Settings *)

Lemma clampPositiveInteger_bounds value fallback lo hi :
  lo <= hi -> lo <= fallback <= hi ->
  lo <= clampPositiveInteger value fallback lo hi <= hi.
Proof.
  intros Hb Hf. unfold clampPositiveInteger.
  destruct value as [| | |[q| | |]| |]; try lia.
  destruct (Z.ltb_spec (Js.round q) lo); [lia|].
  destruct (Z.ltb_spec hi (Js.round q)); lia.
Qed.

Lemma maxTurnChars_bounds cfg :
  1 <= maxTurnChars (resolveAcpProjectionSettings cfg) <= 500000.
Proof. by apply clampPositiveInteger_bounds. Qed.

Lemma maxStatusChars_bounds cfg :
  64 <= maxStatusChars (resolveAcpProjectionSettings cfg) <= 8000.
Proof. by apply clampPositiveInteger_bounds. Qed.

Lemma maxToolSummaryChars_bounds cfg :
  64 <= maxToolSummaryChars (resolveAcpProjectionSettings cfg) <= 8000.
Proof. by apply clampPositiveInteger_bounds. Qed.

Lemma maxMetaEventsPerTurn_bounds cfg :
  1 <= maxMetaEventsPerTurn (resolveAcpProjectionSettings cfg) <= 2000.
Proof. by apply clampPositiveInteger_bounds. Qed.

(** ** Tag visibility *)

(** C10: an event without a tag (undefined or empty) is visible, and so is
    an event whose tag has no boolean override in the conversation's
    [tagVisibility] and is not a key of [ACP_TAG_VISIBILITY_DEFAULTS]. *)
Theorem isAcpTagVisible_unlisted (settings : AcpProjectionSettings)
    (tag : option jsstring) :
  (tag = None \/ tag = Some []
   \/ exists t, tag = Some t
        /\ (forall b, tagVisibility settings !! t <> Some (Js.Bool b))
        /\ ACP_TAG_VISIBILITY_DEFAULTS !! t = None) ->
  isAcpTagVisible settings tag = true.
Proof.
  intros [-> | [-> | (t & -> & Hov & Hdef)]]; [done..|].
  unfold isAcpTagVisible. destruct (Js.falsy t); [done|].
  rewrite Hdef.
  destruct (tagVisibility settings !! t) as [[| |b| | |]|] eqn:E; try done.
  by destruct (Hov b).
Qed.

Lemma settings_maxTurnChars :
  1 <= maxTurnChars (settings params) <= 500000.
Proof. apply maxTurnChars_bounds. Qed.

Lemma settings_maxStatusChars :
  64 <= maxStatusChars (settings params) <= 8000.
Proof. apply maxStatusChars_bounds. Qed.

Lemma settings_maxMetaEventsPerTurn :
  1 <= maxMetaEventsPerTurn (settings params) <= 2000.
Proof. apply maxMetaEventsPerTurn_bounds. Qed.

Lemma settings_maxToolSummaryChars :
  64 <= maxToolSummaryChars (settings params) <= 8000.
Proof. apply maxToolSummaryChars_bounds. Qed.

#[global] Opaque settings.

(** ** Rules for the routines *)

Lemma wpt_ret {A} (a : A) (Q : Post A) t : Q a t [] [] -> wpt (ret a) Q t.
Proof. intros HQ p <-. exact HQ. Qed.

Lemma wpt_bind {A B} (m : Proj host A) (k : A -> Proj host B) (Q : Post B) t :
  wpt m (fun a t1 d1 x1 =>
           wpt (k a) (fun b t2 d2 x2 => Q b t2 (d1 ++ d2) (x1 ++ x2)) t1) t ->
  wpt (bind m k) Q t.
Proof.
  intros Hm p Hp. specialize (Hm p Hp). unfold wp in *. simpl.
  specialize (Hm (after (m p)) eq_refl). unfold wp in Hm.
  by rewrite toolDeliveries_app, appended_app.
Qed.

Lemma wpt_mono {A} (m : Proj host A) (Q Q' : Post A) t :
  wpt m Q t -> (forall a t' d x, Q a t' d x -> Q' a t' d x) -> wpt m Q' t.
Proof. intros Hm HQ p Hp. apply HQ, Hm, Hp. Qed.

Lemma wpt_read {A} (f : TurnState -> A) (Q : Post A) t :
  Q (f t) t [] [] -> wpt (read f) Q t.
Proof. intros HQ p <-. exact HQ. Qed.

Lemma wpt_assign (f : TurnState -> TurnState) (Q : Post unit) t :
  Q tt (f t) [] [] -> wpt (assign f) Q t.
Proof. intros HQ p <-. exact HQ. Qed.

Lemma wpt_deliver_tool payload meta (Q : Post unit) t :
  Q tt t [{| payload := payload; meta := meta |}] [] ->
  wpt (deliver kind_tool payload meta) Q t.
Proof. intros HQ p <-. exact HQ. Qed.

Lemma wpt_chunkerAppend text (Q : Post unit) t :
  Q tt t [] text -> wpt (chunkerAppend text) Q t.
Proof.
  intros HQ p <-. unfold wp, appended. simpl. by rewrite app_nil_r.
Qed.

Lemma wpt_forEach_deliver_tool entries (Q : Post unit) t :
  Q tt t entries [] ->
  wpt (forEach entries
         (fun entry => deliver kind_tool (payload entry) (meta entry))) Q t.
Proof.
  revert Q. induction entries as [|[pl mt] entries IH]; intros Q HQ; simpl.
  - by apply wpt_ret.
  - apply wpt_bind, wpt_deliver_tool, IH. exact HQ.
Qed.

Lemma wpt_deliver_block payload meta (Q : Post unit) t :
  Q tt t [] [] -> wpt (deliver kind_block payload meta) Q t.
Proof. intros HQ p <-. exact HQ. Qed.

(** Reading or replacing the chunker or the pipeline leaves the turn state
    alone. *)
Lemma wpt_gets {A} (f : Projector host -> A) (Q : Post A) t :
  (forall a, Q a t [] []) -> wpt (gets f) Q t.
Proof. intros HQ p <-. apply HQ. Qed.

Lemma wpt_modify (f : Projector host -> Projector host) (Q : Post unit) t :
  (forall p, turn (f p) = turn p) -> Q tt t [] [] -> wpt (modify f) Q t.
Proof. intros Hf HQ p <-. unfold wp. simpl. by rewrite Hf. Qed.

Lemma wpt_forEach_deliver_block replies (Q : Post unit) t :
  Q tt t [] [] ->
  wpt (forEach replies (fun reply => deliver kind_block reply None)) Q t.
Proof.
  revert Q. induction replies as [|reply replies IH]; intros Q HQ; simpl.
  - by apply wpt_ret.
  - apply wpt_bind, wpt_deliver_block, IH. exact HQ.
Qed.

Lemma wpt_pipelineEnqueue payload (Q : Post unit) t :
  Q tt t [] [] -> wpt (pipelineEnqueue payload) Q t.
Proof.
  intros HQ. unfold pipelineEnqueue.
  apply wpt_bind, wpt_gets. intros pl.
  apply wpt_bind, wpt_modify; [done|].
  by apply wpt_forEach_deliver_block.
Qed.

Lemma wpt_pipelineFlush force (Q : Post unit) t :
  Q tt t [] [] -> wpt (pipelineFlush force) Q t.
Proof.
  intros HQ. unfold pipelineFlush.
  apply wpt_bind, wpt_gets. intros pl.
  apply wpt_bind, wpt_modify; [done|].
  by apply wpt_forEach_deliver_block.
Qed.

Lemma wpt_forEach_enqueue chunks (Q : Post unit) t :
  Q tt t [] [] ->
  wpt (forEach chunks
         (fun chunk => pipelineEnqueue {| payload_text := chunk |})) Q t.
Proof.
  revert Q. induction chunks as [|chunk chunks IH]; intros Q HQ; simpl.
  - by apply wpt_ret.
  - apply wpt_bind, wpt_pipelineEnqueue, IH. exact HQ.
Qed.

Lemma wpt_drainChunker force (Q : Post unit) t :
  Q tt t [] [] -> wpt (drainChunker params force) Q t.
Proof.
  intros HQ. unfold drainChunker.
  destruct (_ && _); [by apply wpt_ret|].
  apply wpt_bind, wpt_gets. intros ch.
  apply wpt_bind, wpt_modify; [done|].
  by apply wpt_forEach_enqueue.
Qed.

(** Assigning a variable the value it holds changes nothing. *)
Lemma set_liveIdleTimer_same t : set_liveIdleTimer (liveIdleTimer t) t = t.
Proof. by destruct t. Qed.

Lemma wpt_clearLiveIdleTimer (Q : Post unit) t :
  Q tt (set_liveIdleTimer None t) [] [] -> wpt clearLiveIdleTimer Q t.
Proof.
  intros HQ. unfold clearLiveIdleTimer. apply wpt_bind, wpt_read.
  destruct (liveIdleTimer t) eqn:E.
  - by apply wpt_assign.
  - apply wpt_ret. by rewrite <- E, set_liveIdleTimer_same in HQ.
Qed.

Lemma wpt_flushLiveBuffer force idle (Q : Post unit) t :
  (if liveFlushes idle t
   then Q tt (set_liveBufferText [] t) [] (liveBufferText t)
   else Q tt t [] []) ->
  wpt (flushLiveBuffer params force idle) Q t.
Proof.
  unfold liveFlushes, flushLiveBuffer. intros HQ.
  destruct (bool_decide _); simpl in *; [|by apply wpt_ret].
  apply wpt_bind, wpt_read.
  destruct (Js.falsy _); simpl in *; [by apply wpt_ret|].
  destruct (idle && _); simpl in *; [by apply wpt_ret|].
  apply wpt_bind, wpt_assign, wpt_bind, wpt_chunkerAppend, wpt_drainChunker.
  simpl. by rewrite app_nil_r.
Qed.

Lemma wpt_flush (force : bool) (Q : Post unit) (t : TurnState) :
  match deliveryMode (settings params) with
  | live => Q tt (flushedLive t) [] (liveBufferText t)
  | final_only =>
      if force
      then Q tt (set_pendingToolDeliveries [] t) (pendingToolDeliveries t) []
      else Q tt t [] []
  end ->
  wpt (flush params force) Q t.
Proof.
  intros HQ. unfold flush, flushBufferedToolDeliveries.
  destruct (deliveryMode (settings params)) eqn:Hmode; simpl.
  - apply wpt_bind, wpt_bind, wpt_clearLiveIdleTimer, wpt_flushLiveBuffer.
    unfold liveFlushes. rewrite Hmode. simpl.
    destruct (Js.falsy (liveBufferText t)) eqn:Hbuf; simpl.
    + apply wpt_bind, wpt_ret, wpt_bind, wpt_drainChunker, wpt_pipelineFlush.
      destruct (liveBufferText t) eqn:E; [|done].
      unfold flushedLive in HQ.
      replace (set_liveBufferText [] (set_liveIdleTimer None t))
        with (set_liveIdleTimer None t) in HQ; [done|].
      destruct t; simpl in *. by subst.
    + apply wpt_bind, wpt_ret, wpt_bind, wpt_drainChunker, wpt_pipelineFlush.
      simpl. by rewrite !app_nil_r.
  - apply wpt_bind, wpt_ret, wpt_bind.
    destruct force; simpl.
    + apply wpt_bind, wpt_read, wpt_bind, wpt_assign.
      apply wpt_forEach_deliver_tool, wpt_bind, wpt_drainChunker.
      apply wpt_pipelineFlush. simpl. by rewrite !app_nil_r.
    + by apply wpt_ret, wpt_bind, wpt_drainChunker, wpt_pipelineFlush.
Qed.

Lemma wpt_deliverOrBuffer pl mt (Q : Post unit) t :
  let entry := {| payload := pl; meta := mt |} in
  Q tt (delivered entry t) (deliveredNow entry) (flushedText t) ->
  wpt (deliverOrBuffer params pl mt) Q t.
Proof.
  unfold delivered, deliveredNow, flushedText, deliverOrBuffer. cbv zeta.
  destruct (deliveryMode (settings params)) eqn:Hmode; intros HQ.
  - apply wpt_bind, wpt_flush. rewrite Hmode.
    apply wpt_deliver_tool. simpl. by rewrite app_nil_r.
  - by apply wpt_assign.
Qed.

(** [scheduleLiveIdleFlush] touches the timer handle only. *)
Lemma wpt_scheduleLiveIdleFlush (Q : Post unit) t :
  (forall timer, Q tt (set_liveIdleTimer timer t) [] []) ->
  wpt (scheduleLiveIdleFlush params) Q t.
Proof.
  intros HQ. unfold scheduleLiveIdleFlush.
  pose proof (HQ (liveIdleTimer t)) as Hsame.
  rewrite set_liveIdleTimer_same in Hsame.
  destruct (negb _); [by apply wpt_ret|].
  apply wpt_bind, wpt_read.
  destruct (_ || _); [by apply wpt_ret|].
  apply wpt_bind, wpt_clearLiveIdleTimer, wpt_assign. simpl.
  replace (set_liveIdleTimer (Some timer_pending) (set_liveIdleTimer None t))
    with (set_liveIdleTimer (Some timer_pending) t) by by destruct t.
  apply HQ.
Qed.

Lemma wpt_consumeMetaQuota force (Q : Post bool) t :
  (if quotaAdmits force t then Q true (charged force t) [] []
   else Q false t [] []) ->
  wpt (consumeMetaQuota params force) Q t.
Proof.
  unfold quotaAdmits, charged, consumeMetaQuota.
  destruct force; simpl; intros HQ; [by apply wpt_ret|].
  apply wpt_bind, wpt_read.
  destruct (_ <=? _); simpl in *; [by apply wpt_ret|].
  by apply wpt_bind, wpt_assign, wpt_ret.
Qed.

Lemma wpt_emitSystemStatus text mt opts_force opts_dedupe (Q : Post unit) t :
  let entry :=
    {| payload := {| payload_text := statusText text |}; meta := mt |} in
  let force := bool_decide (opts_force = Some true) in
  (if statusPasses text opts_dedupe t && quotaAdmits force t
   then Q tt (set_lastStatusHash (Some (hashText (statusText text)))
                (delivered entry (charged force t)))
          (deliveredNow entry) (flushedText t)
   else Q tt t [] []) ->
  wpt (emitSystemStatus params text mt opts_force opts_dedupe) Q t.
Proof.
  unfold statusPasses, statusText, emitSystemStatus. cbv zeta.
  destruct (shouldSendToolSummaries params); simpl; [|by apply wpt_ret].
  destruct (Js.falsy _); simpl; [by apply wpt_ret|].
  intros HQ. apply wpt_bind, wpt_read.
  destruct (_ && _ && Js.opt_is _ _); simpl in *; [by apply wpt_ret|].
  apply wpt_bind, wpt_consumeMetaQuota.
  destruct (quotaAdmits _ t); simpl; [|by apply wpt_ret].
  apply wpt_bind, wpt_deliverOrBuffer, wpt_assign. simpl.
  rewrite !app_nil_r.
  replace (flushedText (charged (bool_decide (opts_force = Some true)) t))
    with (flushedText t); [done|].
  unfold flushedText, charged. by repeat case_match.
Qed.

Lemma set_toolLifecycleById_same t :
  set_toolLifecycleById (toolLifecycleById t) t = t.
Proof. by destruct t. Qed.

Lemma wpt_emitToolSummary event opts_force (Q : Post unit) t :
  let force := bool_decide (opts_force = Some true) in
  (if shouldSendToolSummaries params
      && isAcpTagVisible (settings params) (tc_tag event)
      && toolPasses event t
   then
     if quotaAdmits force (recorded event t)
     then Q tt (set_lastToolHash (Some (hashText (toolSummaryOf params event)))
                  (delivered (toolEntry event) (charged force (recorded event t))))
            (deliveredNow (toolEntry event)) (flushedText t)
     else Q tt (recorded event t) [] []
   else Q tt t [] []) ->
  wpt (emitToolSummary params event opts_force) Q t.
Proof.
  unfold toolPasses, recorded, recordedLifecycle, emitToolSummary,
    isTerminalEvent, lifecycleOf.
  cbv zeta.
  destruct (shouldSendToolSummaries params); simpl; [|by apply wpt_ret].
  destruct (isAcpTagVisible _ _); simpl; [|by apply wpt_ret].
  set (send := bind (consumeMetaQuota params _) _).
  assert (Hsend : forall (Q' : Post unit) t0,
    flushedText t0 = flushedText t ->
    (if quotaAdmits (bool_decide (opts_force = Some true)) t0
     then Q' tt (set_lastToolHash
                   (Some (hashText (toolSummaryOf params event)))
                   (delivered (toolEntry event)
                      (charged (bool_decide (opts_force = Some true)) t0)))
            (deliveredNow (toolEntry event)) (flushedText t)
     else Q' tt t0 [] []) ->
    wpt send Q' t0).
  { intros Q' t0 Hflushed HQ. unfold send.
    apply wpt_bind, wpt_consumeMetaQuota.
    destruct (quotaAdmits _ t0); simpl; [|by apply wpt_ret].
    apply wpt_bind, wpt_deliverOrBuffer, wpt_assign. simpl.
    rewrite !app_nil_r.
    replace (flushedText (charged (bool_decide (opts_force = Some true)) t0))
      with (flushedText t); [done|].
    rewrite <- Hflushed. unfold flushedText, charged. by repeat case_match. }
  clearbody send. rewrite <- (set_toolLifecycleById_same t) at 1.
  destruct (repeatSuppression (settings params));
    [|rewrite !set_toolLifecycleById_same; by apply Hsend].
  destruct (trimmedToolCallId event) as [id|].
  - intros HQ. apply wpt_bind, wpt_read.
    destruct (_ && terminal _); simpl in *; [by apply wpt_ret|].
    destruct (_ && started _); simpl in *; [by apply wpt_ret|].
    destruct (Js.opt_is _ _); simpl in *; [by apply wpt_ret|].
    apply wpt_bind, wpt_assign, Hsend; [unfold flushedText; by case_match|].
    simpl. exact HQ.
  - rewrite !set_toolLifecycleById_same.
    intros HQ. apply wpt_bind, wpt_read.
    destruct (Js.opt_is _ _); simpl in *; [by apply wpt_ret|].
    apply Hsend; [done|]. simpl. exact HQ.
Qed.

Lemma truncationNotice_text :
  truncateText (Js.trim s_output_truncated) (maxStatusChars (settings params))
  = s_output_truncated.
Proof.
  pose proof (settings_maxStatusChars) as Hmax.
  change (Js.trim s_output_truncated) with s_output_truncated.
  unfold truncateText.
  destruct (Z.leb_spec (Js.len s_output_truncated)
              (maxStatusChars (settings params))) as [|Hlt]; [done|].
  change (Js.len s_output_truncated) with 16 in Hlt. lia.
Qed.

Lemma wpt_emitTruncationNotice (Q : Post unit) t :
  (if truncationNoticeEmitted t then Q tt t [] []
   else if shouldSendToolSummaries params
   then Q tt (set_lastStatusHash
                (Some (hashText (payload_text (payload (truncationNotice params)))))
                (delivered (truncationNotice params)
                   (set_truncationNoticeEmitted true t)))
          (deliveredNow (truncationNotice params)) (flushedText t)
   else Q tt (set_truncationNoticeEmitted true t) [] []) ->
  wpt (emitTruncationNotice params) Q t.
Proof.
  intros HQ. unfold emitTruncationNotice. apply wpt_bind, wpt_read.
  destruct (truncationNoticeEmitted t); [by apply wpt_ret|].
  apply wpt_bind, wpt_assign, wpt_emitSystemStatus.
  unfold statusPasses, quotaAdmits. rewrite truncationNotice_text.
  destruct (shouldSendToolSummaries params); simpl.
  - rewrite andb_false_r. simpl.
    replace (flushedText (set_truncationNoticeEmitted true t))
      with (flushedText t) by (unfold flushedText; by case_match).
    exact HQ.
  - exact HQ.
Qed.

(** Symbolic execution of a routine: one rule at a time, splitting on the
    conditions the routine tests. *)
Ltac wp_rule :=
  lazymatch goal with
  | |- wpt (bind _ _) _ _ => apply wpt_bind
  | |- wpt (ret _) _ _ => apply wpt_ret
  | |- wpt (read _) _ _ => apply wpt_read
  | |- wpt (assign _) _ _ => apply wpt_assign
  | |- wpt (chunkerAppend _) _ _ => apply wpt_chunkerAppend
  | |- wpt (drainChunker _ _) _ _ => apply wpt_drainChunker
  | |- wpt clearLiveIdleTimer _ _ => apply wpt_clearLiveIdleTimer
  | |- wpt (flushLiveBuffer _ _ _) _ _ => apply wpt_flushLiveBuffer
  | |- wpt (scheduleLiveIdleFlush _) _ _ =>
      apply wpt_scheduleLiveIdleFlush; intros ?
  | |- wpt (flush _ _) _ _ => apply wpt_flush
  | |- wpt (emitTruncationNotice _) _ _ => apply wpt_emitTruncationNotice
  | |- wpt (emitSystemStatus _ _ _ _ _) _ _ => apply wpt_emitSystemStatus
  | |- wpt (emitToolSummary _ _ _) _ _ => apply wpt_emitToolSummary
  | |- wpt (if ?c then _ else _) _ _ => destruct c eqn:?
  | |- wpt (match ?c with _ => _ end) _ _ => destruct c eqn:?
  | |- if ?c then _ else _ => destruct c eqn:?
  | |- match ?c with _ => _ end => destruct c eqn:?
  end.

Ltac wp_run :=
  repeat first
    [ wp_rule
    | progress (cbv beta iota zeta)
    | match goal with
      | H : deliveryMode ?s = _ |- context [deliveryMode ?s] => rewrite H
      end ].

(** ** Properties of the projector *)

Lemma isProjectedText_true (event : TextDeltaEvent) :
  isProjectedText params event = true <->
  (td_stream event = None \/ td_stream event = Some []
   \/ td_stream event = Some s_output)
  /\ isAcpTagVisible (settings params) (td_tag event) = true
  /\ td_text event <> [].
Proof.
  unfold isProjectedText. rewrite !andb_true_iff, !negb_true_iff.
  rewrite andb_false_iff, !negb_false_iff.
  rewrite opt_is_Some.
  destruct (td_stream event) as [[|c s]|]; simpl;
    destruct (td_text event); simpl; intuition congruence.
Qed.

Lemma onTextDelta_pendingHiddenBoundary (event : TextDeltaEvent) t :
  isProjectedText params event = true ->
  wpt (onTextDelta params event)
    (fun _ t' _ _ => pendingHiddenBoundary t' = false) t.
Proof.
  intros Hproj. unfold isProjectedText in Hproj. unfold onTextDelta.
  destruct (negb (Js.falsy_opt _) && _); [done|].
  destruct (isAcpTagVisible _ _); [|done].
  destruct (Js.falsy _); [done|]. simpl.
  wp_run.
  all: unfold delivered, flushedLive; simpl; try done.
  all: by repeat case_match.
Qed.

(** Unfolding the handlers down to the routines that have a rule. *)
Ltac wp_unfold :=
  unfold step, onEvent, onTextDelta, onStatus, onToolCall, liveIdleTimeout,
    resetTurnState.

(** Unfolding the turn states the rules produce. *)
(** Boolean tests in the hypotheses, as propositions. *)
Ltac to_prop :=
  repeat match goal with
         | H : negb _ = true |- _ => apply negb_true_iff in H
         | H : negb _ = false |- _ => apply negb_false_iff in H
         | H : (_ && _) = true |- _ => apply andb_true_iff in H as [? ?]
         | H : (_ || _) = false |- _ => apply orb_false_iff in H as [? ?]
         | H : (_ <=? _) = true |- _ => apply Z.leb_le in H
         | H : (_ <=? _) = false |- _ => apply Z.leb_gt in H
         | H : (_ <? _) = true |- _ => apply Z.ltb_lt in H
         | H : (_ <? _) = false |- _ => apply Z.ltb_ge in H
         | H : bool_decide _ = true |- _ => apply bool_decide_eq_true in H
         | H : bool_decide _ = false |- _ => apply bool_decide_eq_false in H
         end.

Ltac wp_mode :=
  repeat match goal with
         | H : deliveryMode ?s = _ |- context [deliveryMode ?s] => rewrite H
         | H : deliveryMode ?s = _, H' : context [deliveryMode ?s] |- _ =>
             tryif constr_eq H H' then fail else rewrite H in H'
         end.

Ltac wp_leaf :=
  unfold delivered, flushedLive, charged, flushedText, deliveredNow,
    liveFlushes in *;
  wp_mode;
  simpl in *.

Lemma wpt_run (Inv : TurnState -> Prop) (inputs : list Input) :
  (forall i t, Inv t -> wpt (step params i) (fun _ t' _ _ => Inv t') t) ->
  forall t, Inv t -> wpt (run params inputs) (fun _ t' _ _ => Inv t') t.
Proof.
  intros Hstep. induction inputs as [|i inputs IH]; intros t Ht; simpl.
  - by apply wpt_ret.
  - apply wpt_bind. eapply wpt_mono; [by apply Hstep|].
    intros ? t' ? ? Ht'. simpl. by apply IH.
Qed.

Lemma acceptedText_len t text :
  0 <= emittedTurnChars t <= maxTurnChars (settings params) ->
  Js.len (acceptedText params t text)
  = Z.min (Js.len text) (maxTurnChars (settings params) - emittedTurnChars t).
Proof.
  intros [H0 Hmax]. unfold acceptedText.
  destruct (Z.ltb_spec (maxTurnChars (settings params) - emittedTurnChars t)
              (Js.len text)).
  - rewrite slice_prefix_length; lia.
  - lia.
Qed.

Lemma consistent_initial : consistent initialTurn.
Proof.
  pose proof (settings_maxTurnChars).
  pose proof (settings_maxMetaEventsPerTurn).
  split; simpl; (done || lia).
Qed.

Lemma step_consistent i t :
  consistent t ->
  wpt (step params i) (fun _ t' _ _ => consistent t') t.
Proof.
  intros [Hchars Hmeta Hbuf Hpend].
  pose proof (settings_maxTurnChars) as Hmax.
  pose proof (settings_maxMetaEventsPerTurn) as Hmax'.
  destruct (deliveryMode (settings params)) eqn:Hmode.
  all: destruct i as [[event|event|event| |]|force|]; wp_unfold; wp_run.
  all: try (specialize (Hbuf eq_refl)); try (specialize (Hpend eq_refl)).
  all: wp_leaf.
  all: split; wp_mode; simpl.
  all: try done; try lia.
  all: repeat case_match; simpl in *; try done; to_prop; try lia.
  all: match goal with
       | |- context [acceptedText _ ?t0 ?x] =>
           let Hlen := fresh in
           pose proof (acceptedText_len t0 x) as Hlen;
           simpl in Hlen; rewrite Hlen by lia; lia
       end.
Qed.

Lemma run_consistent inputs t :
  consistent t -> wpt (run params inputs) (fun _ t' _ _ => consistent t') t.
Proof. apply wpt_run. apply step_consistent. Qed.

(** Every state a projector gets into is consistent. *)
Lemma reachable_consistent (history : list Input) :
  consistent
    (turn (after (run params history (createAcpReplyProjector params)))).
Proof.
  apply (run_consistent history initialTurn consistent_initial
           (createAcpReplyProjector params) eq_refl).
Qed.

(** A relation between the turn state before and after some inputs, the
    tool deliveries and the chunker text in between, that holds input by
    input, holds of the whole run. *)
Lemma wpt_run_rel (Inv : TurnState -> Prop) (good : Input -> bool)
    (R : TurnState -> TurnState -> list BufferedToolDelivery -> jsstring -> Prop)
    (inputs : list Input) :
  (forall t, Inv t -> R t t [] []) ->
  (forall t t1 t2 d1 d2 x1 x2,
     R t t1 d1 x1 -> R t1 t2 d2 x2 -> R t t2 (d1 ++ d2) (x1 ++ x2)) ->
  (forall i t, good i = true -> Inv t ->
     wpt (step params i) (fun _ t' d x => Inv t' /\ R t t' d x) t) ->
  forallb good inputs = true ->
  forall t, Inv t ->
    wpt (run params inputs) (fun _ t' d x => Inv t' /\ R t t' d x) t.
Proof.
  intros Hrefl Htrans Hstep.
  induction inputs as [|i inputs IH]; intros Hgood t Ht; simpl in *.
  - apply wpt_ret. auto.
  - apply andb_true_iff in Hgood as [Hi Hgood].
    apply wpt_bind. eapply wpt_mono; [by apply Hstep|].
    intros ? t1 d1 x1 [Ht1 HR1]. simpl.
    eapply wpt_mono; [by apply IH|].
    intros ? t2 d2 x2 [Ht2 HR2]. simpl. eauto.
Qed.

Lemma wpt_and {A} (m : Proj host A) (Q1 Q2 : Post A) t :
  wpt m Q1 t -> wpt m Q2 t -> wpt m (fun a t' d x => Q1 a t' d x /\ Q2 a t' d x) t.
Proof. intros H1 H2 p Hp. split; [by apply H1 | by apply H2]. Qed.

Lemma slice_empty (s : jsstring) : Js.slice s 0 (Some 0) = [].
Proof. by rewrite slice_prefix_take. Qed.

Lemma len_zero (s : jsstring) : Js.len s = 0 -> s = [].
Proof. destruct s; [done|]. unfold Js.len. simpl. lia. Qed.

Lemma acceptedText_exhausted t text :
  consistent t ->
  maxTurnChars (settings params) <= emittedTurnChars t ->
  acceptedText params t text = [].
Proof.
  intros [[H0 Hmax] _ _ _] Hfull. unfold acceptedText.
  replace (maxTurnChars (settings params) - emittedTurnChars t) with 0 by lia.
  destruct (Z.ltb_spec 0 (Js.len text)); [apply slice_empty|].
  apply len_zero. pose proof (len_nonneg text). lia.
Qed.

Lemma onTextDelta_text (event : TextDeltaEvent) t :
  consistent t ->
  wpt (onTextDelta params event)
    (fun _ t' _ x =>
       x ++ liveBufferText t' = liveBufferText t ++ contribution t event
       /\ emittedTurnChars t'
          = emittedTurnChars t + Js.len (contribution t event)) t.
Proof.
  intros Ht. destruct (Ht) as [_ _ Hbuf _].
  unfold contribution, isProjectedText, onTextDelta.
  destruct (negb (Js.falsy_opt _) && _); simpl.
  { apply wpt_ret. rewrite app_nil_r. split; [done|]. unfold Js.len; simpl; lia. }
  destruct (isAcpTagVisible _ _); simpl.
  2:{ apply wpt_ret. rewrite app_nil_r. split; [done|]. unfold Js.len; simpl; lia. }
  destruct (Js.falsy _); simpl.
  { apply wpt_ret. rewrite app_nil_r. split; [done|]. unfold Js.len; simpl; lia. }
  destruct (deliveryMode (settings params)) eqn:Hmode.
  all: try (rewrite (Hbuf eq_refl)).
  all: wp_run.
  all: wp_leaf.
  all: change (acceptedText params (set_pendingHiddenBoundary false t))
         with (acceptedText params t) in *.
  all: try match goal with
           | H : (_ <=? _) = true |- _ =>
               apply Z.leb_le in H; rewrite (acceptedText_exhausted t) by done
           end.
  all: try match goal with
           | H : (0 <? Js.len ?acc) = false |- _ =>
               apply Z.ltb_ge in H;
               rewrite (len_zero acc) by (pose proof (len_nonneg acc); lia)
           end.
  all: rewrite ?app_nil_r, ?app_nil_l, <- ?app_assoc.
  all: try (rewrite (Hbuf eq_refl)).
  all: rewrite ?app_nil_r, ?app_nil_l.
  all: split; [done | unfold Js.len; simpl; lia].
Qed.

Lemma step_text i t :
  endsTurn i = false ->
  consistent t ->
  wpt (step params i) (fun _ t' _ x => textGrows t t' x) t.
Proof.
  intros Hend Ht. destruct (Ht) as [_ _ Hbuf _].
  destruct i as [[event|event|event| |]|force|]; try done.
  { unfold step, onEvent. eapply wpt_mono; [by apply onTextDelta_text|].
    intros ? t' ? x. simpl. by exists (contribution t event). }
  all: assert (Hnil : deliveryMode (settings params) = final_only ->
                      forall s : jsstring, s ++ liveBufferText t = s)
    by (intros Hm s; by rewrite (Hbuf Hm), app_nil_r).
  all: destruct (deliveryMode (settings params)) eqn:Hmode.
  all: wp_unfold; wp_run.
  all: exists []; wp_leaf.
  all: repeat case_match; simpl.
  all: rewrite ?app_nil_r, ?app_nil_l, ?(Hnil eq_refl).
  all: split; [done | unfold Js.len; simpl; lia].
Qed.

Lemma run_text inputs t :
  forallb (fun i => negb (endsTurn i)) inputs = true ->
  consistent t ->
  wpt (run params inputs)
    (fun _ t' _ x => consistent t' /\ textGrows t t' x) t.
Proof.
  intros Hin Ht.
  apply (wpt_run_rel consistent (fun i => negb (endsTurn i))
           (fun t t' _ x => textGrows t t' x)); try done.
  - intros t0 _. exists []. rewrite app_nil_r. split; [done|].
    unfold Js.len; simpl; lia.
  - intros t0 t1 t2 _ _ x1 x2 (a1 & Hx1 & He1) (a2 & Hx2 & He2).
    exists (a1 ++ a2). rewrite <- app_assoc, Hx2, !app_assoc, Hx1.
    split; [done|]. rewrite len_app. lia.
  - intros i t0 Hi Ht0. apply wpt_and; [by apply step_consistent|].
    apply step_text; [|done]. apply negb_true_iff in Hi. by rewrite Hi.
Qed.

(** C1: the turn budget.
    (1) Whatever inputs a projector has processed, [emittedTurnChars] is at
        most [settings.maxTurnChars].
    (2) Over a (part of a) turn, that is from a state with the initial turn
        variables through inputs none of which is [done] or [error], the
        visible text accepted (handed to the chunker, or held in the live
        buffer) has [emittedTurnChars] characters, hence at most
        [maxTurnChars].
    (3) When a projected text delta, separator included, is longer than
        the budget left, the projector accepts its slice of exactly the
        remaining length, and the budget is then used up. *)
Theorem turn_budget_respected :
  (forall history : list Input,
     let p := after (run params history (createAcpReplyProjector params)) in
     emittedTurnChars (turn p) <= maxTurnChars (settings params))
  /\ (forall (p : Projector host) (inputs : list Input),
        turn p = initialTurn ->
        forallb (fun i => negb (endsTurn i)) inputs = true ->
        let o := run params inputs p in
        Js.len (appended (calls o) ++ liveBufferText (turn (after o)))
        = emittedTurnChars (turn (after o))
        /\ emittedTurnChars (turn (after o)) <= maxTurnChars (settings params))
  /\ (forall (history : list Input) (event : TextDeltaEvent),
        let p := after (run params history (createAcpReplyProjector params)) in
        let text := textWithSeparator params (turn p) (td_text event) in
        let remaining :=
          maxTurnChars (settings params) - emittedTurnChars (turn p) in
        isProjectedText params event = true ->
        remaining < Js.len text ->
        let o := onEvent params (ev_text_delta event) p in
        appended (calls o) ++ liveBufferText (turn (after o))
        = liveBufferText (turn p) ++ Js.slice text 0 (Some remaining)
        /\ Js.len (Js.slice text 0 (Some remaining)) = remaining
        /\ emittedTurnChars (turn (after o)) = maxTurnChars (settings params)).
Proof.
  split; [|split].
  - intros history p. apply (reachable_consistent history).
  - intros p inputs Hp Hin o.
    pose proof (run_text inputs initialTurn Hin consistent_initial p Hp)
      as [Hcons (acc & Hx & He)].
    fold o in Hcons, Hx, He. rewrite Hx. simpl in *.
    split; [by rewrite He | apply Hcons].
  - intros history event p text remaining Hproj Hlong o.
    pose proof (reachable_consistent history) as Hcons. fold p in Hcons.
    pose proof (onTextDelta_text event (turn p) Hcons p eq_refl) as [Hx He].
    fold (onEvent params (ev_text_delta event)) in Hx, He. fold o in Hx, He.
    unfold contribution in Hx, He. rewrite Hproj in Hx, He.
    unfold acceptedText in Hx, He. fold text remaining in Hx, He.
    apply Z.ltb_lt in Hlong. rewrite Hlong in Hx, He. apply Z.ltb_lt in Hlong.
    destruct Hcons as [[H0 Hmax] _ _ _].
    assert (Js.len (Js.slice text 0 (Some remaining)) = remaining) as Hlen
      by (apply slice_prefix_length; lia).
    split; [done|]. split; [done|]. rewrite He, Hlen. unfold remaining. lia.
Qed.

Lemma textWithSeparator_nonempty t text :
  Js.falsy text = false -> 0 < Js.len (textWithSeparator params t text).
Proof.
  intros Htext. unfold textWithSeparator.
  assert (0 < Js.len text) by (destruct text; [done | unfold Js.len; simpl; lia]).
  destruct (_ && _); [|done]. rewrite len_app.
  pose proof (len_nonneg
    (resolveHiddenBoundarySeparatorText
       (hiddenBoundarySeparator (settings params)))). lia.
Qed.

Lemma truncates_spec t event :
  consistent t ->
  isProjectedText params event = true ->
  truncates params t event
  = (maxTurnChars (settings params) <=? emittedTurnChars t)
    || (Js.len (acceptedText params t
                  (textWithSeparator params t (td_text event)))
        <? Js.len (textWithSeparator params t (td_text event))).
Proof.
  intros [[H0 Hmax] _ _ _] Hproj. unfold truncates. rewrite Hproj. simpl.
  pose proof (textWithSeparator_nonempty t (td_text event)) as Hne.
  unfold isProjectedText in Hproj.
  apply andb_true_iff in Hproj as [_ Hproj%negb_true_iff].
  specialize (Hne Hproj).
  set (text := textWithSeparator params t (td_text event)) in *.
  rewrite acceptedText_len by done.
  destruct (Z.leb_spec (maxTurnChars (settings params)) (emittedTurnChars t));
    simpl.
  - apply Z.ltb_lt. lia.
  - destruct (Z.ltb_spec
                (maxTurnChars (settings params) - emittedTurnChars t)
                (Js.len text)); symmetry.
    + apply Z.ltb_lt. lia.
    + apply Z.ltb_ge. lia.
Qed.

(** Rewriting with the tests a path has taken. *)
Ltac use_tests :=
  repeat match goal with
         | H : ?c = true |- context [?c] => rewrite H
         | H : ?c = false |- context [?c] => rewrite H
         end.

(** Choosing what an input has scheduled from the equation that says so. *)
Ltac pick_new :=
  first [ eexists; split; [reflexivity|]
        | exists []; split; [by rewrite ?app_nil_r|] ].

Lemma step_scheduled i t :
  endsTurn i = false ->
  consistent t ->
  wpt (step params i)
    (fun _ t' d _ =>
       exists new,
         d ++ pendingToolDeliveries t' = pendingToolDeliveries t ++ new
         /\ scheduledBy i t t' new) t.
Proof.
  intros Hend Ht. destruct (Ht) as [_ _ _ Hpend].
  assert (Hnil : deliveryMode (settings params) = live ->
                 pendingToolDeliveries t = []) by done.
  clear Hpend.
  destruct i as [[event|event|event| |]|force|]; try done.
  - unfold step, onEvent, onTextDelta, scheduledBy.
    destruct (isProjectedText params event) eqn:Hproj.
    2:{ unfold truncates. rewrite Hproj. simpl. rewrite andb_false_r.
        unfold isProjectedText in Hproj.
        destruct (negb (Js.falsy_opt _) && _); simpl in Hproj.
        { apply wpt_ret. exists []. rewrite orb_false_r, app_nil_r. done. }
        destruct (isAcpTagVisible _ _); simpl in Hproj.
        2:{ apply wpt_ret. exists []. rewrite orb_false_r, app_nil_r. done. }
        destruct (Js.falsy _); [|done].
        apply wpt_ret. exists []. rewrite orb_false_r, app_nil_r. done. }
    rewrite (truncates_spec t event Ht Hproj).
    unfold isProjectedText in Hproj.
    destruct (negb (Js.falsy_opt _) && _); [done|].
    destruct (isAcpTagVisible _ _); [|done].
    destruct (Js.falsy _); [done|]. clear Hproj.
    destruct (deliveryMode (settings params)) eqn:Hmode.
    all: try (rewrite (Hnil eq_refl) in * ).
    all: wp_run.
    all: wp_leaf.
    all: change (acceptedText params (set_pendingHiddenBoundary false t))
           with (acceptedText params t) in *.
    all: try done.
    all: use_tests; simpl.
    all: rewrite ?app_nil_r, ?(Hnil eq_refl); simpl.
    all: pick_new; simpl.
    all: rewrite ?orb_true_r, ?orb_false_r, ?andb_false_r; done.
  - unfold scheduledBy.
    destruct (deliveryMode (settings params)) eqn:Hmode.
    all: try (rewrite (Hnil eq_refl) in * ).
    all: wp_unfold; wp_run.
    all: wp_leaf.
    all: try done.
    all: unfold statusPasses in *; to_prop.
    all: rewrite ?app_nil_r, ?(Hnil eq_refl); simpl.
    all: pick_new; simpl.
    all: (split; [first [by left | by right] | split; [done | lia]]).
  - unfold scheduledBy.
    destruct (deliveryMode (settings params)) eqn:Hmode.
    all: try (rewrite (Hnil eq_refl) in * ).
    all: wp_unfold; wp_run.
    all: wp_leaf.
    all: try done.
    all: to_prop.
    all: rewrite ?app_nil_r, ?(Hnil eq_refl); simpl.
    all: pick_new; simpl.
    all: repeat case_match; simpl.
    all: (split; [first [by left | by right] | split; [done | lia]]).
  - unfold scheduledBy.
    destruct (deliveryMode (settings params)) eqn:Hmode.
    all: try (rewrite (Hnil eq_refl) in * ).
    all: wp_unfold; wp_run.
    all: wp_leaf.
    all: rewrite ?app_nil_r, ?(Hnil eq_refl); simpl.
    all: exists []; by rewrite ?app_nil_r.
  - unfold scheduledBy.
    destruct (deliveryMode (settings params)) eqn:Hmode.
    all: try (rewrite (Hnil eq_refl) in * ).
    all: wp_unfold; wp_run.
    all: wp_leaf.
    all: rewrite ?app_nil_r, ?(Hnil eq_refl); simpl.
    all: exists []; by rewrite ?app_nil_r.
Qed.

(** In final-only mode only a flush delivers tool payloads. *)
Lemma step_final_only_buffers i t :
  deliveryMode (settings params) = final_only ->
  endsTurn i = false ->
  (forall force, i <> Flush force) ->
  wpt (step params i) (fun _ _ d _ => d = []) t.
Proof.
  intros Hmode Hend Hflush.
  destruct i as [[event|event|event| |]|force|]; try done.
  all: try (by destruct (Hflush force)).
  all: wp_unfold; wp_run; wp_leaf; done.
Qed.

(** What an event other than [done] and [error] schedules, from a state the
    projector can be in. *)
Lemma onEvent_scheduled (p : Projector host) (event : AcpRuntimeEvent) :
  consistent (turn p) ->
  endsTurn (OnEvent event) = false ->
  let o := onEvent params event p in
  consistent (turn (after o))
  /\ exists new,
       toolDeliveries (calls o) ++ pendingToolDeliveries (turn (after o))
       = pendingToolDeliveries (turn p) ++ new
       /\ scheduledBy (OnEvent event) (turn p) (turn (after o)) new
       /\ toolDeliveries (calls o)
          = match deliveryMode (settings params) with
            | live => new
            | final_only => []
            end.
Proof.
  intros Hcons Hend. cbv zeta.
  pose proof (step_consistent (OnEvent event) (turn p) Hcons p eq_refl) as Hc.
  pose proof (step_scheduled (OnEvent event) (turn p) Hend Hcons p eq_refl)
    as (new & Hnew & Hsched).
  pose proof (step_final_only_buffers (OnEvent event) (turn p)) as Hd.
  unfold wpt, wp in Hc, Hd.
  change (step params (OnEvent event)) with (onEvent params event) in *.
  split; [done|]. exists new. split; [done|]. split; [done|].
  destruct (deliveryMode (settings params)) eqn:Hmode.
  - destruct Hcons as [_ _ _ Hp]. destruct Hc as [_ _ _ Hp'].
    by rewrite (Hp Hmode), (Hp' Hmode), app_nil_r in Hnew.
  - by apply Hd.
Qed.

(** C7: the meta quota.
    (1) Whatever inputs a projector has processed, [emittedMetaEvents] is at
        most [settings.maxMetaEventsPerTurn].
    (2) [consumeMetaQuota]: a forced attempt is granted and leaves the
        counter alone; an attempt that is not forced is granted and counted
        while the counter is below the quota, and refused, leaving the
        state alone, once it has reached it.
    (3) A status or tool-call event delivers or buffers at most one payload
        and [emittedMetaEvents] grows by the number of payloads it
        delivers or buffers: each costs one unit.
    (4) A text delta leaves [emittedMetaEvents] alone, also when it
        delivers the forced truncation notice.
    (5) Once [emittedMetaEvents] has reached the quota, a status or
        tool-call event delivers nothing, buffers nothing and leaves the
        counter alone. *)
Theorem meta_quota_respected :
  (forall history : list Input,
     let p := after (run params history (createAcpReplyProjector params)) in
     emittedMetaEvents (turn p) <= maxMetaEventsPerTurn (settings params))
  /\ (forall p : Projector host,
        (result (consumeMetaQuota params true p) = true
         /\ after (consumeMetaQuota params true p) = p)
        /\ (emittedMetaEvents (turn p) < maxMetaEventsPerTurn (settings params) ->
            result (consumeMetaQuota params false p) = true
            /\ emittedMetaEvents (turn (after (consumeMetaQuota params false p)))
               = emittedMetaEvents (turn p) + 1)
        /\ (maxMetaEventsPerTurn (settings params) <= emittedMetaEvents (turn p) ->
            result (consumeMetaQuota params false p) = false
            /\ after (consumeMetaQuota params false p) = p))
  /\ (forall (history : list Input) (event : AcpRuntimeEvent),
        let p := after (run params history (createAcpReplyProjector params)) in
        let o := onEvent params event p in
        (exists e, event = ev_status e) \/ (exists e, event = ev_tool_call e) ->
        exists new,
          toolDeliveries (calls o) ++ pendingToolDeliveries (turn (after o))
          = pendingToolDeliveries (turn p) ++ new
          /\ (length new <= 1)%nat
          /\ emittedMetaEvents (turn (after o))
             = emittedMetaEvents (turn p) + Z.of_nat (length new))
  /\ (forall (history : list Input) (event : TextDeltaEvent),
        let p := after (run params history (createAcpReplyProjector params)) in
        let o := onEvent params (ev_text_delta event) p in
        emittedMetaEvents (turn (after o)) = emittedMetaEvents (turn p))
  /\ (forall (history : list Input) (event : AcpRuntimeEvent),
        let p := after (run params history (createAcpReplyProjector params)) in
        let o := onEvent params event p in
        (exists e, event = ev_status e) \/ (exists e, event = ev_tool_call e) ->
        maxMetaEventsPerTurn (settings params) <= emittedMetaEvents (turn p) ->
        toolDeliveries (calls o) = []
        /\ pendingToolDeliveries (turn (after o))
           = pendingToolDeliveries (turn p)
        /\ emittedMetaEvents (turn (after o)) = emittedMetaEvents (turn p)).
Proof.
  split; [|split; [|split; [|split]]].
  - intros history p. apply (reachable_consistent history).
  - intros p. unfold consumeMetaQuota, bind, read, gets, assign, modify, ret.
    simpl. split; [by destruct p|]. split.
    + intros Hlt. apply Z.leb_gt in Hlt. by rewrite Hlt.
    + intros Hge. apply Z.leb_le in Hge. rewrite Hge. by destruct p.
  - intros history event p o Hkind.
    destruct (onEvent_scheduled p event (reachable_consistent history))
      as (_ & new & Hnew & Hsched & _).
    { by destruct Hkind as [[e ->] | [e ->]]. }
    exists new. split; [done|].
    destruct Hkind as [[e ->] | [e ->]]; simpl in Hsched;
      destruct Hsched as ([-> | [_ ->]] & _ & Hmeta); simpl; split;
      (done || lia).
  - intros history event p o.
    destruct (onEvent_scheduled p (ev_text_delta event)
                (reachable_consistent history))
      as (_ & new & _ & (_ & _ & Hmeta) & _); done.
  - intros history event p o Hkind Hfull.
    pose proof (reachable_consistent history) as Hcons.
    destruct (onEvent_scheduled p event Hcons)
      as (Hcons' & new & Hnew & Hsched & Hnow).
    { by destruct Hkind as [[e ->] | [e ->]]. }
    fold p in Hcons. fold o in Hcons', Hnew, Hsched, Hnow.
    destruct Hcons as [_ [_ Hmax] _ _]. destruct Hcons' as [_ [_ Hmax'] _ _].
    assert (new = []) as ->.
    { destruct Hkind as [[e ->] | [e ->]]; simpl in Hsched;
        destruct Hsched as ([-> | [_ ->]] & _ & Hmeta); simpl in *;
        (done || lia). }
    rewrite app_nil_r in Hnew.
    assert (toolDeliveries (calls o) = []) as Hnone
      by (rewrite Hnow; by case_match).
    rewrite Hnone in *.
    split; [done|]. split; [done|].
    destruct Hkind as [[e ->] | [e ->]]; simpl in Hsched;
      destruct Hsched as (_ & _ & Hmeta); simpl in Hmeta; lia.
Qed.

(** C8, amended: a text delta on the output stream (or on none) whose tag
    is visible leaves [pendingHiddenBoundary] false when its text is not
    empty, whatever the state before and whether or not a separator went
    in; when its text is empty the event is ignored: it makes no call and
    leaves the projector, and so the flag, as it was. *)
Theorem text_delta_clears_pending_boundary
    (p : Projector host) (event : TextDeltaEvent) :
  td_stream event = None \/ td_stream event = Some []
  \/ td_stream event = Some s_output ->
  isAcpTagVisible (settings params) (td_tag event) = true ->
  let o := onEvent params (ev_text_delta event) p in
  (td_text event <> [] -> pendingHiddenBoundary (turn (after o)) = false)
  /\ (td_text event = [] ->
      calls o = [] /\ after o = p
      /\ pendingHiddenBoundary (turn (after o))
         = pendingHiddenBoundary (turn p)).
Proof.
  intros Hstream Hvisible o. split.
  - intros Htext.
    assert (isProjectedText params event = true) as Hproj
      by by apply isProjectedText_true.
    apply (onTextDelta_pendingHiddenBoundary event (turn p) Hproj p eq_refl).
  - intros Htext. subst o. unfold onEvent, onTextDelta.
    rewrite Htext, Hvisible.
    by destruct (negb (Js.falsy_opt _) && _).
Qed.

Lemma resetTurnState_initial (p : Projector host) :
  after (resetTurnState p)
  = {| turn := initialTurn;
       chunker := chunker p;
       blockReplyPipeline := blockReplyPipeline p |}
  /\ calls (resetTurnState p) = [].
Proof.
  destruct p as [t ch pl]. destruct t as [? ? ? ? ? ? ? ? ? timer ? ?].
  by destruct timer; cbv.
Qed.

Lemma after_bind {A B} (m : Proj host A) (k : A -> Proj host B) p :
  after (bind m k p) = after (k (result (m p)) (after (m p))).
Proof. reflexivity. Qed.

Lemma calls_bind {A B} (m : Proj host A) (k : A -> Proj host B) p :
  calls (bind m k p) = calls (m p) ++ calls (k (result (m p)) (after (m p))).
Proof. reflexivity. Qed.

Lemma onEvent_done p :
  onEvent params ev_done p
  = bind (flush params true) (fun _ => resetTurnState) p.
Proof. reflexivity. Qed.

(** C5: an [error] event is processed exactly as a [done] event: the same
    calls and the same state result.  Both make the calls of [flush(true)]
    and nothing else, and leave every turn-scoped variable at its initial
    value, the chunker and the pipeline as the flush left them. *)
Theorem error_handled_as_done (p : Projector host) :
  onEvent params ev_error p = onEvent params ev_done p
  /\ calls (onEvent params ev_done p) = calls (flush params true p)
  /\ after (onEvent params ev_done p)
     = {| turn := initialTurn;
          chunker := chunker (after (flush params true p));
          blockReplyPipeline :=
            blockReplyPipeline (after (flush params true p)) |}
  /\ turn (after (onEvent params ev_done p))
     = turn (createAcpReplyProjector params).
Proof.
  split; [reflexivity|].
  destruct (resetTurnState_initial (after (flush params true p))) as [Ha Hc].
  rewrite onEvent_done, calls_bind, after_bind, Ha, Hc, app_nil_r.
  split; [reflexivity|]. split; reflexivity.
Qed.

Lemma step_silent i t :
  shouldSendToolSummaries params = false ->
  pendingToolDeliveries t = [] ->
  wpt (step params i)
    (fun _ t' d _ => d = [] /\ pendingToolDeliveries t' = []) t.
Proof.
  intros Hsend Hpend.
  destruct (deliveryMode (settings params)) eqn:Hmode.
  all: destruct i as [[event|event|event| |]|force|]; wp_unfold; wp_run.
  all: wp_leaf.
  all: rewrite ?Hpend; try done.
  all: unfold statusPasses in *; to_prop; congruence.
Qed.

Lemma run_silent inputs t :
  shouldSendToolSummaries params = false ->
  pendingToolDeliveries t = [] ->
  wpt (run params inputs)
    (fun _ t' d _ => d = [] /\ pendingToolDeliveries t' = []) t.
Proof.
  intros Hsend. revert t.
  induction inputs as [|i inputs IH]; intros t Hpend; simpl.
  - by apply wpt_ret.
  - apply wpt_bind. eapply wpt_mono; [by apply step_silent|].
    intros ? t1 d1 ? [-> Hpend1]. simpl. by apply IH.
Qed.

(** C9: a projector created with [shouldSendToolSummaries] false makes no
    tool delivery.
    (1) Whatever inputs it has processed, it has delivered no tool payload
        and holds none buffered.
    (2) No event makes it deliver or buffer one: not a status event, not a
        visible tool call, not a text delta that calls for the truncation
        notice.
    (3) A text delta that is cut short still sets
        [truncationNoticeEmitted]. *)
Theorem no_tool_delivery_without_summaries :
  shouldSendToolSummaries params = false ->
  (forall history : list Input,
     let o := run params history (createAcpReplyProjector params) in
     toolDeliveries (calls o) = []
     /\ pendingToolDeliveries (turn (after o)) = [])
  /\ (forall (history : list Input) (event : AcpRuntimeEvent),
        let p := after (run params history (createAcpReplyProjector params)) in
        let o := onEvent params event p in
        toolDeliveries (calls o) = []
        /\ pendingToolDeliveries (turn (after o)) = [])
  /\ (forall (history : list Input) (event : TextDeltaEvent),
        let p := after (run params history (createAcpReplyProjector params)) in
        let o := onEvent params (ev_text_delta event) p in
        truncates params (turn p) event = true ->
        truncationNoticeEmitted (turn (after o)) = true).
Proof.
  intros Hsend.
  assert (Hrun : forall history : list Input,
            let o := run params history (createAcpReplyProjector params) in
            toolDeliveries (calls o) = []
            /\ pendingToolDeliveries (turn (after o)) = []).
  { intros history.
    apply (run_silent history initialTurn Hsend eq_refl
             (createAcpReplyProjector params) eq_refl). }
  split; [done|]. split.
  - intros history event p o. destruct (Hrun history) as [_ Hpend].
    apply (step_silent (OnEvent event) (turn p) Hsend Hpend p eq_refl).
  - intros history event p o Htrunc.
    destruct (onEvent_scheduled p (ev_text_delta event)
                (reachable_consistent history))
      as (_ & new & _ & (_ & Hlatch & _) & _); [done|].
    fold o in Hlatch. rewrite Hlatch, Htrunc. apply orb_true_r.
Qed.

Lemma last_rev {A} (l : list A) : last l = head (rev l).
Proof.
  induction l as [|x l _] using rev_ind; [done|].
  by rewrite last_snoc, rev_unit.
Qed.

Lemma startsWith_nil (s : jsstring) : Js.startsWith s [] = true.
Proof. by destruct s. Qed.

Lemma endsWith_newline (tail : jsstring) (c : Js.char) (r : jsstring) :
  rev tail = c :: r -> Js.endsWith tail s_nl = (c =? 10)%N.
Proof.
  intros Hrev. unfold Js.endsWith. rewrite Hrev.
  change (rev s_nl) with [10%N]. cbn [Js.startsWith].
  by rewrite startsWith_nil, andb_true_r, N.eqb_sym.
Qed.

Lemma shouldInsertSeparator_due separator previousTail nextText :
  shouldInsertSeparator separator previousTail nextText
  = separatorDue separator previousTail nextText.
Proof.
  unfold shouldInsertSeparator, separatorDue, endsWithWhitespace.
  destruct (Js.falsy separator); [done|]. cbn [negb andb].
  destruct nextText as [|first rest]; [done|]. cbn [Js.falsy].
  destruct (Js.isWhitespace first); [done|]. cbn [negb andb].
  destruct previousTail as [tail|]; [|done]. cbn [default from_option id].
  rewrite last_rev.
  destruct tail as [|c0 tail0]; [done|]. cbn [Js.falsy].
  destruct (rev (c0 :: tail0)) as [|c r] eqn:Hrev.
  { apply (f_equal length) in Hrev. rewrite length_rev in Hrev. done. }
  rewrite (endsWith_newline _ c r Hrev). cbn [head].
  destruct (Js.eqb separator s_sp) eqn:Hsp.
  - apply eqb_eq in Hsp as ->.
    change (Js.eqb s_sp s_nl || Js.eqb s_sp s_nlnl) with false.
    by destruct (Js.isWhitespace c).
  - cbn [andb].
    destruct (Js.eqb separator s_nl || Js.eqb separator s_nlnl); [|done].
    by destruct (c =? 10)%N.
Qed.

(** C4, amended: when a projected text delta arrives while a hidden
    boundary is pending, the separator is decided by [separatorDue], and
    the turn's text grows by the fragment, with the separator in front
    exactly when it is due, cut to the budget left. *)
Theorem separator_inserted_when_due
    (history : list Input) (event : TextDeltaEvent) :
  let p := after (run params history (createAcpReplyProjector params)) in
  let separator :=
    resolveHiddenBoundarySeparatorText
      (hiddenBoundarySeparator (settings params)) in
  let due :=
    separatorDue separator (lastVisibleOutputTail (turn p)) (td_text event) in
  let o := onEvent params (ev_text_delta event) p in
  isProjectedText params event = true ->
  pendingHiddenBoundary (turn p) = true ->
  shouldInsertSeparator separator (lastVisibleOutputTail (turn p))
    (td_text event) = due
  /\ appended (calls o) ++ liveBufferText (turn (after o))
     = liveBufferText (turn p)
       ++ acceptedText params (turn p)
            (if due then separator ++ td_text event else td_text event).
Proof.
  intros p separator due o Hproj Hpending.
  split; [apply shouldInsertSeparator_due|].
  pose proof (onTextDelta_text event (turn p) (reachable_consistent history)
                p eq_refl) as [Hx _].
  fold (onEvent params (ev_text_delta event)) in Hx. fold o in Hx.
  rewrite Hx. unfold contribution. rewrite Hproj.
  unfold textWithSeparator. rewrite Hpending. simpl.
  by rewrite shouldInsertSeparator_due.
Qed.

Lemma countNotices_app l1 l2 :
  countNotices (l1 ++ l2) = (countNotices l1 + countNotices l2)%nat.
Proof. unfold countNotices. by rewrite filter_app, length_app. Qed.

Lemma countNotices_one d :
  countNotices [d] = if bool_decide (d = truncationNotice params) then 1%nat else 0%nat.
Proof.
  unfold countNotices. case_bool_decide.
  - by rewrite filter_cons_True.
  - by rewrite filter_cons_False.
Qed.

Lemma toolEntry_not_notice event :
  toolEntry event <> truncationNotice params.
Proof. intros H. apply (f_equal meta) in H. simpl in H. congruence. Qed.

Lemma countNotices_scheduled i t t' new :
  shouldSendToolSummaries params = true ->
  mimicsNotice i = false ->
  scheduledBy i t t' new ->
  countNotices new
  = (if truncatesInput i t && negb (truncationNoticeEmitted t)
     then 1%nat else 0%nat)
  /\ truncationNoticeEmitted t'
     = truncationNoticeEmitted t || truncatesInput i t.
Proof.
  intros Hsend Hmimic Hsched.
  destruct i as [[event|event|event| |]|force|]; simpl in *.
  - destruct Hsched as (-> & -> & _). rewrite Hsend. simpl.
    split; [|done]. case_match; [|done].
    rewrite countNotices_one. by rewrite bool_decide_eq_true_2.
  - destruct Hsched as ([-> | [_ ->]] & -> & _); rewrite orb_false_r;
      (split; [|done]); [done|].
    rewrite countNotices_one. by rewrite Hmimic.
  - destruct Hsched as ([-> | [_ ->]] & -> & _); rewrite orb_false_r;
      (split; [|done]); [done|].
    rewrite countNotices_one.
    rewrite bool_decide_eq_false_2; [done | apply toolEntry_not_notice].
  - destruct Hsched as (-> & -> & _). by rewrite orb_false_r.
  - destruct Hsched as (-> & -> & _). by rewrite orb_false_r.
  - destruct Hsched as (-> & -> & _). by rewrite orb_false_r.
  - destruct Hsched as (-> & -> & _). by rewrite orb_false_r.
Qed.

Lemma run_cons i rest (p : Projector host) :
  run params (i :: rest) p = bind (step params i) (fun _ => run params rest) p.
Proof. reflexivity. Qed.

Lemma run_notices (inputs : list Input) :
  shouldSendToolSummaries params = true ->
  forall p : Projector host,
    consistent (turn p) ->
    forallb (fun i => negb (endsTurn i)) inputs = true ->
    forallb (fun i => negb (mimicsNotice i)) inputs = true ->
    let o := run params inputs p in
    consistent (turn (after o))
    /\ (countNotices (toolDeliveries (calls o)
                      ++ pendingToolDeliveries (turn (after o)))
        = countNotices (pendingToolDeliveries (turn p))
          + (if truncationIn inputs p && negb (truncationNoticeEmitted (turn p))
             then 1 else 0))%nat
    /\ truncationNoticeEmitted (turn (after o))
       = truncationNoticeEmitted (turn p) || truncationIn inputs p.
Proof.
  intros Hsend.
  induction inputs as [|i inputs IH]; intros p Hcons Hends Hmimics;
    cbn [truncationIn forallb] in *; cbv zeta.
  - cbn. rewrite orb_false_r, Nat.add_0_r. done.
  - rewrite run_cons.
    apply andb_true_iff in Hends as [Hend%negb_true_iff Hends].
    apply andb_true_iff in Hmimics as [Hmimic%negb_true_iff Hmimics].
    pose proof (step_consistent i (turn p) Hcons p eq_refl) as Hcons1.
    pose proof (step_scheduled i (turn p) Hend Hcons p eq_refl)
      as (new & Hnew & Hsched).
    unfold wp in Hcons1.
    destruct (countNotices_scheduled _ _ _ _ Hsend Hmimic Hsched)
      as [Hcount Hlatch].
    destruct (IH (after (step params i p)) Hcons1 Hends Hmimics)
      as (Hcons2 & Hcount2 & Hlatch2).
    rewrite calls_bind, after_bind. split; [done|].
    rewrite Hlatch2, Hlatch. split; [|by rewrite orb_assoc].
    rewrite toolDeliveries_app, <- app_assoc, countNotices_app, Hcount2.
    rewrite Hlatch, Nat.add_assoc, <- countNotices_app, Hnew.
    rewrite countNotices_app, Hcount.
    destruct (truncatesInput i (turn p)), (truncationNoticeEmitted (turn p)),
      (truncationIn inputs (after (step params i p))); simpl; lia.
Qed.

Lemma run_app (a b : list Input) (p : Projector host) :
  calls (run params (a ++ b) p)
  = calls (run params a p) ++ calls (run params b (after (run params a p))).
Proof.
  revert p. induction a as [|i a IH]; intros p; [done|].
  cbn [app]. rewrite !run_cons, !calls_bind, after_bind, IH.
  by rewrite app_assoc.
Qed.

(** The end of a turn delivers what was buffered. *)
Lemma turn_end_delivers_pending (p : Projector host) (final : AcpRuntimeEvent) :
  consistent (turn p) ->
  final = ev_done \/ final = ev_error ->
  toolDeliveries (calls (onEvent params final p))
  = pendingToolDeliveries (turn p).
Proof.
  intros [_ _ _ Hpend] Hfinal.
  assert (wpt (step params (OnEvent ev_done))
            (fun _ _ d _ => d = pendingToolDeliveries (turn p)) (turn p)) as H.
  { destruct (deliveryMode (settings params)) eqn:Hmode.
    all: try (specialize (Hpend eq_refl)).
    all: wp_unfold; wp_run; wp_leaf.
    all: rewrite ?app_nil_r; done. }
  specialize (H p eq_refl). by destruct Hfinal as [-> | ->].
Qed.

(** C3, amended: with [shouldSendToolSummaries] set, the truncation notice
    goes out once per turn in which text was cut short, and not otherwise.
    (1) Over a (part of a) turn, from a state with the initial turn
        variables through inputs none of which is [done] or [error] (nor a
        status event that renders to the notice itself): the notice has
        been delivered or buffered exactly once if truncation occurred and
        not at all if it did not, and [truncationNoticeEmitted] tells
        which.  When the turn then ends, the tool deliveries of the whole
        turn hold the notice exactly once or not at all accordingly.
    (2) A text delta that is cut short while the latch is unset delivers or
        buffers the notice whatever [emittedMetaEvents] and
        [lastStatusHash] are, and leaves [emittedMetaEvents] alone; the
        notice is tagged [session_info_update] and reads
        "output truncated". *)
Theorem truncation_notice_once :
  shouldSendToolSummaries params = true ->
  (forall (p : Projector host) (inputs : list Input),
     turn p = initialTurn ->
     forallb (fun i => negb (endsTurn i)) inputs = true ->
     forallb (fun i => negb (mimicsNotice i)) inputs = true ->
     let o := run params inputs p in
     countNotices (toolDeliveries (calls o)
                   ++ pendingToolDeliveries (turn (after o)))
     = (if truncationIn inputs p then 1%nat else 0%nat)
     /\ truncationNoticeEmitted (turn (after o)) = truncationIn inputs p
     /\ forall final,
          final = ev_done \/ final = ev_error ->
          countNotices
            (toolDeliveries
               (calls (run params (inputs ++ [OnEvent final]) p)))
          = (if truncationIn inputs p then 1%nat else 0%nat))
  /\ (forall (history : list Input) (event : TextDeltaEvent),
        let p := after (run params history (createAcpReplyProjector params)) in
        let o := onEvent params (ev_text_delta event) p in
        truncates params (turn p) event = true ->
        truncationNoticeEmitted (turn p) = false ->
        toolDeliveries (calls o) ++ pendingToolDeliveries (turn (after o))
        = pendingToolDeliveries (turn p) ++ [truncationNotice params]
        /\ emittedMetaEvents (turn (after o)) = emittedMetaEvents (turn p)
        /\ meta (truncationNotice params)
           = Some {| meta_tag := Some s_session_info_update;
                     meta_toolCallId := None;
                     meta_toolStatus := None;
                     meta_allowEdit := None |}
        /\ payload_text (payload (truncationNotice params))
           = prefixSystemMessage s_output_truncated).
Proof.
  intros Hsend. split.
  - intros p inputs Hp Hends Hmimics o.
    assert (consistent (turn p)) as Hcons
      by (rewrite Hp; apply consistent_initial).
    destruct (run_notices inputs Hsend p Hcons Hends Hmimics)
      as (Hcons' & Hcount & Hlatch).
    fold o in Hcons', Hcount, Hlatch.
    rewrite Hp in Hcount, Hlatch. simpl in Hcount, Hlatch.
    rewrite andb_true_r in Hcount.
    split; [done|]. split; [done|].
    intros final Hfinal. rewrite run_app, toolDeliveries_app.
    fold o. rewrite run_cons, calls_bind.
    change (step params (OnEvent final)) with (onEvent params final).
    rewrite toolDeliveries_app. cbn [run ret calls toolDeliveries omap].
    rewrite app_nil_r.
    by rewrite (turn_end_delivers_pending (after o) final Hcons' Hfinal).
  - intros history event p o Htrunc Hlatch.
    destruct (onEvent_scheduled p (ev_text_delta event)
                (reachable_consistent history))
      as (_ & new & Hnew & (Hwhat & _ & Hmeta) & _); [done|].
    fold p o in Hnew, Hwhat, Hmeta.
    rewrite Hsend, Htrunc, Hlatch in Hwhat. simpl in Hwhat. subst new.
    split; [done|]. split; [done|]. split; [done|].
    unfold truncationNotice. cbn [payload payload_text].
    by rewrite truncationNotice_text.
Qed.

(** What a tool-call event does to the tool deliveries and to the lifecycle
    map. *)
Lemma onToolCall_effect (event : ToolCallEvent) t :
  wpt (onToolCall params event)
    (fun _ t' d _ =>
       let passes :=
         shouldSendToolSummaries params
         && isAcpTagVisible (settings params) (tc_tag event)
         && toolPasses event t in
       d = (if passes && quotaAdmits false t
            then deliveredNow (toolEntry event) else [])
       /\ pendingToolDeliveries t'
          = (if passes && quotaAdmits false t
             then pendingToolDeliveries
                    (delivered (toolEntry event) t)
             else pendingToolDeliveries t)
       /\ toolLifecycleById t'
          = (if passes then recordedLifecycle event t
             else toolLifecycleById t)) t.
Proof.
  unfold onToolCall.
  destruct (isAcpTagVisible (settings params) (tc_tag event)) eqn:Hvis;
    cbn [negb].
  - apply wpt_emitToolSummary. cbv zeta.
    change (bool_decide (None = Some true)) with false.
    rewrite Hvis, andb_true_r.
    destruct (shouldSendToolSummaries params && toolPasses event t);
      [|done].
    change (quotaAdmits false (recorded event t))
      with (quotaAdmits false t).
    cbn [andb]. destruct (quotaAdmits false t); [|done].
    unfold delivered, flushedLive, charged, recorded.
    by destruct (deliveryMode (settings params)).
  - rewrite andb_false_r. cbn [andb]. wp_run; done.
Qed.

Lemma lifecycleOf_recorded (event : ToolCallEvent) (id : jsstring) t :
  repeatSuppression (settings params) = true ->
  trimmedToolCallId event = Some id ->
  default {| started := false; terminal := false; lastRenderedHash := None |}
    (recordedLifecycle event t !! id)
  = {| started :=
         if isStartEvent event then true
         else started (lifecycleOf id t);
       terminal :=
         if isTerminalEvent event then true
         else terminal (lifecycleOf id t);
       lastRenderedHash := Some (hashText (toolSummaryOf params event)) |}.
Proof.
  intros Hrs Hid. unfold recordedLifecycle. rewrite Hrs, Hid.
  by rewrite lookup_insert_eq.
Qed.

Lemma onToolCall_new (p : Projector host) (event : ToolCallEvent) :
  consistent (turn p) ->
  let o := onEvent params (ev_tool_call event) p in
  toolDeliveries (calls o) ++ pendingToolDeliveries (turn (after o))
  = pendingToolDeliveries (turn p)
    ++ (if toolCallGoesOut event (turn p) then [toolEntry event] else [])
  /\ toolLifecycleById (turn (after o))
     = (if toolCallPasses event (turn p)
        then recordedLifecycle event (turn p)
        else toolLifecycleById (turn p))
  /\ (toolCallGoesOut event (turn p) = false ->
      toolDeliveries (calls o) = []
      /\ pendingToolDeliveries (turn (after o))
         = pendingToolDeliveries (turn p)).
Proof.
  intros [_ _ _ Hpend]. cbv zeta.
  destruct (onToolCall_effect event (turn p) p eq_refl) as (Hd & Hp & Hl).
  change (onToolCall params event) with (onEvent params (ev_tool_call event))
    in *.
  fold (toolCallPasses event (turn p)) in Hd, Hp, Hl.
  fold (toolCallGoesOut event (turn p)) in Hd, Hp.
  rewrite Hd, Hp, Hl. split; [|split; [done|by intros ->]].
  destruct (toolCallGoesOut event (turn p)); [|by rewrite app_nil_r].
  unfold deliveredNow, delivered.
  destruct (deliveryMode (settings params)) eqn:Hmode; [|done].
  simpl. by rewrite (Hpend eq_refl).
Qed.

Lemma toolPasses_after_recorded (first second : ToolCallEvent) id t t' :
  repeatSuppression (settings params) = true ->
  trimmedToolCallId first = Some id ->
  trimmedToolCallId second = Some id ->
  hashText (toolSummaryOf params first) = hashText (toolSummaryOf params second) ->
  toolLifecycleById t' = recordedLifecycle first t ->
  toolPasses second t' = false.
Proof.
  intros Hrs Hid1 Hid2 Hhash Hl. unfold toolPasses. rewrite Hrs, Hid2.
  unfold lifecycleOf. rewrite Hl, (lifecycleOf_recorded first id t Hrs Hid1).
  cbn [lastRenderedHash Js.opt_is]. rewrite Hhash.
  unfold Js.eqb. rewrite bool_decide_eq_true_2 by done.
  by rewrite !andb_false_r.
Qed.

(** C6, amended: with repeat suppression on, take two consecutive visible
    tool-call events for the same tool-call id whose summaries have the same
    hash, neither with a terminal status.  Together they deliver or buffer
    at most one payload; if the first delivers or buffers its summary, the
    second delivers and buffers nothing; and at the start of a turn, with
    tool summaries on, the first does deliver or buffer its summary, so
    that exactly one payload goes out. *)
Theorem repeated_tool_summary_suppressed
    (history : list Input) (first second : ToolCallEvent) (id : jsstring) :
  let p := after (run params history (createAcpReplyProjector params)) in
  let o1 := onEvent params (ev_tool_call first) p in
  let o2 := onEvent params (ev_tool_call second) (after o1) in
  repeatSuppression (settings params) = true ->
  isAcpTagVisible (settings params) (tc_tag first) = true ->
  isAcpTagVisible (settings params) (tc_tag second) = true ->
  trimmedToolCallId first = Some id ->
  trimmedToolCallId second = Some id ->
  hashText (toolSummaryOf params first) = hashText (toolSummaryOf params second) ->
  isTerminalStatus (normalizeToolStatus (tc_status first)) = false ->
  isTerminalStatus (normalizeToolStatus (tc_status second)) = false ->
  exists new1 new2,
    toolDeliveries (calls o1) ++ pendingToolDeliveries (turn (after o1))
    = pendingToolDeliveries (turn p) ++ new1
    /\ toolDeliveries (calls o2) ++ pendingToolDeliveries (turn (after o2))
       = pendingToolDeliveries (turn (after o1)) ++ new2
    /\ (length new1 + length new2 <= 1)%nat
    /\ (new1 <> [] -> new1 = [toolEntry first] /\ new2 = [])
    /\ (shouldSendToolSummaries params = true -> turn p = initialTurn ->
        new1 = [toolEntry first] /\ new2 = []).
Proof.
  intros p o1 o2 Hrs Hvis1 Hvis2 Hid1 Hid2 Hhash Hterm1 Hterm2.
  pose proof (reachable_consistent history) as Hcons. fold p in Hcons.
  pose proof (step_consistent (OnEvent (ev_tool_call first)) (turn p) Hcons
                p eq_refl) as Hcons1.
  change (step params (OnEvent (ev_tool_call first)) p) with o1 in Hcons1.
  unfold wp in Hcons1.
  destruct (onToolCall_new p first Hcons) as (Hnew1 & Hl1 & _).
  destruct (onToolCall_new (after o1) second Hcons1) as (Hnew2 & _ & _).
  fold o1 in Hnew1, Hl1. fold o2 in Hnew2.
  eexists _, _. split; [exact Hnew1|]. split; [exact Hnew2|].
  assert (toolCallPasses first (turn p) = true ->
          toolCallGoesOut second (turn (after o1)) = false) as Hsecond.
  { intros Hpass. rewrite Hpass in Hl1.
    unfold toolCallGoesOut, toolCallPasses.
    by rewrite (toolPasses_after_recorded first second id (turn p)
                  (turn (after o1)) Hrs Hid1 Hid2 Hhash Hl1), !andb_false_r. }
  split; [|split].
  - destruct (toolCallGoesOut first (turn p)) eqn:Hout1; simpl.
    + unfold toolCallGoesOut in Hout1.
      apply andb_true_iff in Hout1 as [Hpass _]. by rewrite (Hsecond Hpass).
    + destruct (toolCallGoesOut second (turn (after o1))); simpl; lia.
  - destruct (toolCallGoesOut first (turn p)) eqn:Hout1; [|done].
    intros _. unfold toolCallGoesOut in Hout1.
    apply andb_true_iff in Hout1 as [Hpass _]. by rewrite (Hsecond Hpass).
  - intros Hsend Hp.
    assert (toolCallGoesOut first (turn p) = true) as Hout1.
    { unfold toolCallGoesOut, toolCallPasses, toolPasses, quotaAdmits.
      rewrite Hsend, Hvis1, Hrs, Hid1, Hp. unfold lifecycleOf, isTerminalEvent.
      rewrite Hterm1. cbn.
      pose proof (settings_maxMetaEventsPerTurn) as Hmax.
      rewrite andb_false_r. cbn.
      destruct (Z.leb_spec (maxMetaEventsPerTurn (settings params)) 0);
        [lia|done]. }
    rewrite Hout1. unfold toolCallGoesOut in Hout1.
    apply andb_true_iff in Hout1 as [Hpass _]. by rewrite (Hsecond Hpass).
Qed.

Lemma terminalSeen_recorded (event : ToolCallEvent) (id : jsstring) t :
  terminalSeen id t = true ->
  terminal
    (default {| started := false; terminal := false; lastRenderedHash := None |}
       (recordedLifecycle event t !! id)) = true.
Proof.
  intros Hseen. unfold recordedLifecycle.
  destruct (repeatSuppression (settings params)); [|done].
  destruct (trimmedToolCallId event) as [id'|]; [|done].
  destruct (decide (id' = id)) as [->|Hne].
  - rewrite lookup_insert_eq. cbn. unfold terminalSeen in Hseen.
    rewrite Hseen. by destruct (isTerminalEvent event).
  - by rewrite lookup_insert_ne.
Qed.

(** Until the turn ends the terminal mark of a tool call stays. *)
Lemma step_terminalSeen i id t :
  endsTurn i = false ->
  terminalSeen id t = true ->
  wpt (step params i) (fun _ t' _ _ => terminalSeen id t' = true) t.
Proof.
  intros Hend Hseen.
  destruct i as [[event|event|event| |]|force|]; try done.
  3:{ unfold step, onEvent.
      eapply wpt_mono; [apply onToolCall_effect|].
      intros ? t' ? ? (_ & _ & Hl). unfold terminalSeen, lifecycleOf.
      rewrite Hl. case_match; [|done]. by apply terminalSeen_recorded. }
  all: destruct (deliveryMode (settings params)) eqn:Hmode.
  all: wp_unfold; wp_run; wp_leaf; done.
Qed.

Lemma run_terminalSeen inputs id t :
  forallb (fun i => negb (endsTurn i)) inputs = true ->
  terminalSeen id t = true ->
  wpt (run params inputs) (fun _ t' _ _ => terminalSeen id t' = true) t.
Proof.
  revert t. induction inputs as [|i inputs IH]; intros t Hends Hseen;
    cbn [run forallb] in *.
  - by apply wpt_ret.
  - apply andb_true_iff in Hends as [Hend%negb_true_iff Hends].
    apply wpt_bind. eapply wpt_mono; [by apply step_terminalSeen|].
    intros ? t1 ? ? Hseen1. cbv beta. eapply wpt_mono; [by apply IH|]. done.
Qed.

(** C2, amended: with repeat suppression on, once the lifecycle map has a
    tool call as terminal, no further event for that id with a terminal
    status delivers or buffers anything for the rest of the turn.
    (1) A terminal-status event for a tool call that the map has as
        terminal changes nothing and delivers nothing.
    (2) Once a terminal-status event for an id has delivered or buffered
        its summary, then after any inputs that do not end the turn a
        further terminal-status event for that id delivers nothing and
        buffers nothing. *)
Theorem terminal_tool_call_not_repeated :
  repeatSuppression (settings params) = true ->
  (forall (p : Projector host) (event : ToolCallEvent) (id : jsstring),
     let o := onEvent params (ev_tool_call event) p in
     terminalSeen id (turn p) = true ->
     trimmedToolCallId event = Some id ->
     isTerminalStatus (normalizeToolStatus (tc_status event)) = true ->
     isAcpTagVisible (settings params) (tc_tag event) = true ->
     toolDeliveries (calls o) = [] /\ turn (after o) = turn p)
  /\ (forall (history inputs : list Input) (first later : ToolCallEvent)
        (id : jsstring),
        let p := after (run params history (createAcpReplyProjector params)) in
        let o1 := onEvent params (ev_tool_call first) p in
        let p2 := after (run params inputs (after o1)) in
        let o2 := onEvent params (ev_tool_call later) p2 in
        trimmedToolCallId first = Some id ->
        trimmedToolCallId later = Some id ->
        isTerminalStatus (normalizeToolStatus (tc_status first)) = true ->
        isTerminalStatus (normalizeToolStatus (tc_status later)) = true ->
        toolDeliveries (calls o1) ++ pendingToolDeliveries (turn (after o1))
        <> pendingToolDeliveries (turn p) ->
        forallb (fun i => negb (endsTurn i)) inputs = true ->
        toolDeliveries (calls o2) = []
        /\ pendingToolDeliveries (turn (after o2))
           = pendingToolDeliveries (turn p2)).
Proof.
  intros Hrs.
  assert (Hblocked : forall (event : ToolCallEvent) (id : jsstring) t,
            terminalSeen id t = true ->
            trimmedToolCallId event = Some id ->
            isTerminalStatus (normalizeToolStatus (tc_status event)) = true ->
            toolPasses event t = false).
  { intros event id t Hseen Hid Hterm. unfold toolPasses.
    rewrite Hrs, Hid. unfold isTerminalEvent. rewrite Hterm.
    unfold terminalSeen in Hseen. by rewrite Hseen. }
  split.
  - intros p event id o Hseen Hid Hterm Hvis.
    assert (wpt (onToolCall params event)
              (fun _ t' d _ => d = [] /\ t' = turn p) (turn p)) as H.
    { unfold onToolCall. rewrite Hvis. cbn [negb].
      apply wpt_emitToolSummary.
      by rewrite (Hblocked event id (turn p) Hseen Hid Hterm), andb_false_r. }
    apply (H p eq_refl).
  - intros history inputs first later id p o1 p2 o2 Hid1 Hid2 Hterm1 Hterm2
      Hout Hends.
    pose proof (reachable_consistent history) as Hcons. fold p in Hcons.
    destruct (onToolCall_new p first Hcons) as (Hnew1 & Hl1 & _).
    fold o1 in Hnew1, Hl1.
    assert (toolCallPasses first (turn p) = true) as Hpass.
    { destruct (toolCallGoesOut first (turn p)) eqn:Hgo.
      - unfold toolCallGoesOut in Hgo. by apply andb_true_iff in Hgo as [? _].
      - rewrite app_nil_r in Hnew1. by destruct Hout. }
    rewrite Hpass in Hl1.
    assert (terminalSeen id (turn (after o1)) = true) as Hseen1.
    { unfold terminalSeen, lifecycleOf.
      rewrite Hl1, (lifecycleOf_recorded first id (turn p) Hrs Hid1).
      unfold isTerminalEvent. by rewrite Hterm1. }
    pose proof (run_terminalSeen inputs id (turn (after o1)) Hends Hseen1
                  (after o1) eq_refl) as Hseen2.
    unfold wp in Hseen2. fold p2 in Hseen2.
    pose proof (step_consistent (OnEvent (ev_tool_call first)) (turn p) Hcons
                  p eq_refl) as Hcons1.
    pose proof (run_consistent inputs (turn (after o1)) Hcons1 (after o1)
                  eq_refl) as Hcons2.
    destruct (onToolCall_new p2 later Hcons2) as (_ & _ & Hnone).
    apply Hnone. unfold toolCallGoesOut, toolCallPasses.
    by rewrite (Hblocked later id (turn p2) Hseen2 Hid2 Hterm2), !andb_false_r.
Qed.

(** ** Further properties of the projector *)

(** *** The live buffer and its idle timer *)

Lemma liveIdleFlushMs_floor : ACP_LIVE_IDLE_FLUSH_FLOOR_MS <= liveIdleFlushMs params.
Proof. unfold liveIdleFlushMs. lia. Qed.

(** The delay is never zero or less, so [scheduleLiveIdleFlush] arms the
    timer whenever the live buffer holds text. *)
Lemma wpt_scheduleLiveIdleFlush_arms (Q : Post unit) t :
  (if bool_decide (deliveryMode (settings params) = live)
      && negb (Js.falsy (liveBufferText t))
   then Q tt (set_liveIdleTimer (Some timer_pending) t) [] []
   else Q tt t [] []) ->
  wpt (scheduleLiveIdleFlush params) Q t.
Proof.
  intros HQ. unfold scheduleLiveIdleFlush.
  pose proof liveIdleFlushMs_floor as Hfloor.
  unfold ACP_LIVE_IDLE_FLUSH_FLOOR_MS in Hfloor.
  destruct (bool_decide _); simpl in *; [|by apply wpt_ret].
  apply wpt_bind, wpt_read.
  destruct (Z.leb_spec (liveIdleFlushMs params) 0); [lia|]. simpl.
  destruct (Js.falsy _); simpl in *; [by apply wpt_ret|].
  apply wpt_bind, wpt_clearLiveIdleTimer, wpt_assign. simpl.
  replace (set_liveIdleTimer (Some timer_pending) (set_liveIdleTimer None t))
    with (set_liveIdleTimer (Some timer_pending) t) by by destruct t.
  exact HQ.
Qed.

Ltac wp_rule' :=
  lazymatch goal with
  | |- wpt (scheduleLiveIdleFlush _) _ _ => apply wpt_scheduleLiveIdleFlush_arms
  | _ => wp_rule
  end.

Ltac wp_run' :=
  repeat first
    [ wp_rule'
    | progress (cbv beta iota zeta)
    | match goal with
      | H : deliveryMode ?s = _ |- context [deliveryMode ?s] => rewrite H
      end ].

Lemma falsy_true (s : jsstring) : Js.falsy s = true <-> s = [].
Proof. by destruct s. Qed.

Lemma falsy_false (s : jsstring) : Js.falsy s = false <-> s <> [].
Proof. by destruct s. Qed.

Lemma falsy_app_r (a b : jsstring) : 0 < Js.len b -> Js.falsy (a ++ b) = false.
Proof. destruct b; [unfold Js.len; simpl; lia|]. by destruct a. Qed.

Lemma step_buffered i t :
  buffered t -> wpt (step params i) (fun _ t' _ _ => buffered t') t.
Proof.
  intros Ht. destruct (Ht) as [Hlow Harm Hidle].
  destruct (deliveryMode (settings params)) eqn:Hmode.
  all: destruct i as [[event|event|event| |]|force|]; wp_unfold; wp_run'.
  all: wp_leaf.
  all: try done.
  all: repeat match goal with
              | Hlen : (0 <? Js.len ?acc) = true,
                H : context [Js.falsy (?b ++ ?acc)] |- _ =>
                  rewrite (falsy_app_r b acc) in H by (apply Z.ltb_lt, Hlen)
              end.
  all: try done.
  all: split; simpl; wp_mode; try done; try tauto.
  all: to_prop.
  all: repeat match goal with
              | H : Js.falsy _ = true |- _ => apply falsy_true in H
              | H : Js.falsy _ = false |- _ => apply falsy_false in H
              end.
  all: try (intuition congruence).
  all: split; [done|]; intros _ Happ.
  all: apply app_eq_nil in Happ as [_ Happ]; rewrite Happ in *.
  all: unfold Js.len in *; simpl in *; lia.
Qed.

Lemma reachable_buffered (history : list Input) :
  buffered (turn (after (run params history (createAcpReplyProjector params)))).
Proof.
  apply (wpt_run buffered history step_buffered initialTurn); [|done].
  by split.
Qed.

(** X1: the live buffer and its idle timer.  Whatever inputs a projector
    has processed, the live buffer holds less than
    [ACP_LIVE_HARD_FLUSH_CHARS] characters and no text that meets the
    boundary test; the idle timer is pending exactly when the buffer holds
    text; in final-only mode the buffer stays empty and the timer is never
    armed. *)
Theorem live_buffer_discipline (history : list Input) :
  let t := turn (after (run params history (createAcpReplyProjector params))) in
  Js.len (liveBufferText t) < ACP_LIVE_HARD_FLUSH_CHARS
  /\ shouldFlushLiveBufferOnBoundary (liveBufferText t) = false
  /\ (liveBufferText t <> [] <-> liveIdleTimer t = Some timer_pending)
  /\ (deliveryMode (settings params) = final_only ->
      liveBufferText t = [] /\ liveIdleTimer t = None).
Proof.
  intros t. destruct (reachable_buffered history) as [Hlow Harm Hidle].
  fold t in Hlow, Harm, Hidle.
  repeat split; try done; try tauto.
  unfold shouldFlushLiveBufferOnBoundary in Hlow.
  destruct (Js.falsy (liveBufferText t)) eqn:Hempty.
  - apply falsy_true in Hempty. by rewrite Hempty.
  - destruct (Z.leb_spec ACP_LIVE_HARD_FLUSH_CHARS (Js.len (liveBufferText t)));
      [done|lia].
Qed.

Lemma idleTimeout_effect t :
  deliveryMode (settings params) = live ->
  liveIdleTimer t = Some timer_pending ->
  liveBufferText t <> [] ->
  wpt (step params IdleTimeout)
    (fun _ t' d x =>
       d = []
       /\ if shouldFlushLiveBufferOnIdle (liveBufferText t)
          then x = liveBufferText t
               /\ t' = set_liveBufferText []
                         (set_liveIdleTimer (Some timer_fired) t)
          else x = [] /\ t' = t) t.
Proof.
  intros Hmode Htimer Hbuf. apply falsy_false in Hbuf.
  wp_unfold. wp_run'.
  all: wp_leaf.
  all: try congruence.
  all: repeat match goal with
              | H : Some _ = Some _ |- _ => injection H as <-
              end.
  all: rewrite ?Hbuf in *; simpl in *.
  all: try done.
  all: to_prop.
  all: repeat match goal with
              | H : ?b = _ |- context [if ?b then _ else _] => rewrite H
              end.
  all: try done.
  - by rewrite app_nil_r.
  - repeat split. destruct t; simpl in *. by subst.
Qed.

(** X2: the expiry of the idle timer.  When the timer a projector has armed
    expires, no tool payload is delivered, and either the whole live buffer
    goes to the chunker (the idle test holds of it; the buffer is then
    empty and the timer spent), or nothing is handed over and the buffer
    and the timer are as before: the timer is armed again. *)
Theorem idle_timeout_flushes_or_rearms (history : list Input) :
  let p := after (run params history (createAcpReplyProjector params)) in
  liveIdleTimer (turn p) = Some timer_pending ->
  let o := step params IdleTimeout p in
  toolDeliveries (calls o) = []
  /\ if shouldFlushLiveBufferOnIdle (liveBufferText (turn p))
     then appended (calls o) = liveBufferText (turn p)
          /\ turn (after o)
             = set_liveBufferText []
                 (set_liveIdleTimer (Some timer_fired) (turn p))
     else appended (calls o) = [] /\ turn (after o) = turn p.
Proof.
  intros p Htimer o.
  destruct (reachable_buffered history) as [_ Harm Hidle].
  fold p in Harm, Hidle.
  assert (liveBufferText (turn p) <> []) as Hbuf by tauto.
  assert (deliveryMode (settings params) = live) as Hmode.
  { destruct (deliveryMode (settings params)); [done|].
    destruct (Hidle eq_refl) as [_ Hnone]. congruence. }
  exact (idleTimeout_effect (turn p) Hmode Htimer Hbuf p eq_refl).
Qed.

(** *** Flushing *)

Lemma flush_effect (force : bool) t :
  consistent t -> buffered t ->
  wpt (flush params force)
    (fun _ t1 d1 x1 =>
       x1 = liveBufferText t
       /\ liveBufferText t1 = []
       /\ liveIdleTimer t1 = None
       /\ (if force
           then d1 = pendingToolDeliveries t /\ pendingToolDeliveries t1 = []
           else d1 = []
                /\ pendingToolDeliveries t1 = pendingToolDeliveries t)
       /\ wpt (flush params force)
            (fun _ t2 d2 x2 => d2 = [] /\ x2 = [] /\ t2 = t1) t1) t.
Proof.
  intros [_ _ Hbuf Hpend] [_ _ Hidle].
  destruct (deliveryMode (settings params)) eqn:Hmode.
  - specialize (Hpend eq_refl). clear Hbuf Hidle.
    wp_run; wp_leaf. rewrite Hpend.
    split_and!; try by destruct force.
    wp_run; wp_leaf.
    all: split_and!; try done.
    all: destruct t; simpl in *; by subst.
  - destruct (Hidle eq_refl) as [Hempty Hnone]. clear Hbuf Hpend Hidle.
    destruct force; wp_run; wp_leaf; rewrite ?Hempty.
    all: split_and!; try done.
    all: wp_run; wp_leaf; split_and!; try done.
    all: destruct t; simpl in *; by subst.
Qed.

(** X3: [flush].  Whatever inputs a projector has processed, a flush hands
    the whole live buffer to the chunker and leaves it empty with no timer
    pending; a forced flush delivers the buffered tool payloads, in the
    order they were buffered, and leaves none, an unforced one delivers no
    tool payload and keeps them.  A second flush of the same kind right
    after delivers no tool payload, hands no text over and leaves the turn
    state as it is. *)
Theorem flush_hands_over_once (history : list Input) (force : bool) :
  let p := after (run params history (createAcpReplyProjector params)) in
  let o := flush params force p in
  let o' := flush params force (after o) in
  appended (calls o) = liveBufferText (turn p)
  /\ liveBufferText (turn (after o)) = []
  /\ liveIdleTimer (turn (after o)) = None
  /\ (if force
      then toolDeliveries (calls o) = pendingToolDeliveries (turn p)
           /\ pendingToolDeliveries (turn (after o)) = []
      else toolDeliveries (calls o) = []
           /\ pendingToolDeliveries (turn (after o))
              = pendingToolDeliveries (turn p))
  /\ toolDeliveries (calls o') = []
  /\ appended (calls o') = []
  /\ turn (after o') = turn (after o).
Proof.
  intros p o o'.
  pose proof (flush_effect force (turn p) (reachable_consistent history)
                (reachable_buffered history) p eq_refl) as H.
  unfold wp in H. fold o in H.
  destruct H as (Hx & Hbuf & Htimer & Hd & Hagain).
  specialize (Hagain (after o) eq_refl). unfold wp in Hagain. fold o' in Hagain.
  tauto.
Qed.

(** *** Hidden and repeated events *)

(** X4: an event whose tag is hidden makes no call on any collaborator
    (nothing is delivered, nothing goes to the chunker or the pipeline) and
    leaves the turn state alone, but for one variable: a hidden tool call
    tagged [tool_call] or [tool_call_update] assigns
    [pendingHiddenBoundary], true for the tag [tool_call] or a terminal
    status and false otherwise. *)
Theorem hidden_event_is_silent (p : Projector host) (event : AcpRuntimeEvent) :
  isAcpTagVisible (settings params) (eventTag event) = false ->
  let o := onEvent params event p in
  calls o = []
  /\ chunker (after o) = chunker p
  /\ blockReplyPipeline (after o) = blockReplyPipeline p
  /\ turn (after o)
     = match event with
       | ev_tool_call event =>
           if has HIDDEN_BOUNDARY_TAGS (default [] (tc_tag event))
           then set_pendingHiddenBoundary
                  (Js.opt_is (tc_tag event) s_tool_call
                   || isTerminalEvent event) (turn p)
           else turn p
       | _ => turn p
       end.
Proof.
  intros Hhidden.
  destruct event as [event|event|event| |]; simpl in Hhidden; try done.
  - unfold onEvent, onTextDelta. rewrite Hhidden. simpl.
    by destruct (negb _ && negb _).
  - unfold onEvent, onStatus. by rewrite Hhidden.
  - unfold onEvent, onToolCall, isTerminalEvent. rewrite Hhidden. cbn [negb].
    destruct (tc_tag event) as [[|c tag]|] eqn:Htag; [done| |done].
    cbn [Js.falsy negb andb default from_option id Js.opt_is].
    by destruct (has HIDDEN_BOUNDARY_TAGS (c :: tag)).
Qed.

Lemma opt_is_same (s : jsstring) : Js.opt_is (Some s) s = true.
Proof. by apply opt_is_Some. Qed.

Lemma repeated_status_effect (event : StatusEvent) t :
  repeatSuppression (settings params) = true ->
  wpt (onStatus params event)
    (fun _ t1 _ _ =>
       wpt (onStatus params event)
         (fun _ t2 d2 x2 => d2 = [] /\ x2 = [] /\ t2 = t1) t1) t.
Proof.
  intros Hrs. unfold onStatus. rewrite Hrs.
  destruct (isAcpTagVisible _ _); cbn [negb]; [|by wp_run].
  set (emit := emitSystemStatus params _ _ _ _).
  assert (forall t0,
    wpt emit (fun _ t1 _ _ =>
      lastUsageTuple t1 = lastUsageTuple t0
      /\ wpt emit (fun _ t2 d2 x2 => d2 = [] /\ x2 = [] /\ t2 = t1) t1) t0)
    as Hemit.
  { intros t0. unfold emit. apply wpt_emitSystemStatus. cbv zeta.
    change (bool_decide (None = Some true)) with false.
    destruct (statusPasses _ _ t0 && quotaAdmits false t0) eqn:Hgo.
    - split; [wp_leaf; by repeat case_match|].
      apply wpt_emitSystemStatus. cbv zeta.
      unfold statusPasses at 1. rewrite Hrs.
      cbn [lastStatusHash set_lastStatusHash]. rewrite opt_is_same.
      change (bool_decide (Some true = Some false)) with false.
      cbn [negb andb]. by rewrite andb_false_r.
    - split; [done|]. apply wpt_emitSystemStatus. cbv zeta.
      change (bool_decide (None = Some true)) with false.
      by rewrite Hgo. }
  clearbody emit.
  destruct (Js.opt_is (st_tag event) s_usage_update); cbn [andb].
  - apply wpt_bind, wpt_read.
    destruct (Js.opt_is (lastUsageTuple t) _) eqn:Hsame.
    + apply wpt_ret, wpt_bind, wpt_read. rewrite Hsame. by apply wpt_ret.
    + apply wpt_bind, wpt_assign.
      eapply wpt_mono; [apply Hemit|]. intros _ t1 _ _ [Hlast _].
      cbn [lastUsageTuple set_lastUsageTuple] in Hlast.
      apply wpt_bind, wpt_read. rewrite Hlast, opt_is_same. by apply wpt_ret.
  - eapply wpt_mono; [apply Hemit|]. by intros _ t1 _ _ [_ ?].
Qed.

Lemma recorded_without_id (event : ToolCallEvent) t :
  trimmedToolCallId event = None -> recorded event t = t.
Proof.
  intros Hid. unfold recorded, recordedLifecycle. rewrite Hid.
  destruct (repeatSuppression _); apply set_toolLifecycleById_same.
Qed.

Lemma repeated_tool_call_effect (event : ToolCallEvent) t :
  repeatSuppression (settings params) = true ->
  wpt (onToolCall params event)
    (fun _ t1 _ _ =>
       wpt (onToolCall params event)
         (fun _ t2 d2 x2 => d2 = [] /\ x2 = [] /\ t2 = t1) t1) t.
Proof.
  intros Hrs. unfold onToolCall.
  destruct (isAcpTagVisible (settings params) (tc_tag event)) eqn:Hvis;
    cbn [negb].
  2:{ wp_run; done. }
  apply wpt_emitToolSummary. cbv zeta. rewrite Hvis.
  change (bool_decide (None = Some true)) with false.
  destruct (shouldSendToolSummaries params) eqn:Hs; cbn [andb].
  2:{ apply wpt_emitToolSummary. by rewrite Hs. }
  destruct (toolPasses event t) eqn:Hpass.
  2:{ apply wpt_emitToolSummary. by rewrite Hs, Hvis, Hpass. }
  destruct (trimmedToolCallId event) as [id|] eqn:Hid.
  - assert (forall t1, toolLifecycleById t1 = recordedLifecycle event t ->
                       toolPasses event t1 = false) as Hnot
      by (intros t1; by apply (toolPasses_after_recorded event event id)).
    destruct (quotaAdmits false (recorded event t)).
    all: apply wpt_emitToolSummary; rewrite Hs, Hvis; cbn [andb].
    all: rewrite Hnot; [done|].
    all: unfold delivered, flushedLive, charged, recorded.
    all: repeat case_match; done.
  - rewrite (recorded_without_id event t Hid).
    destruct (quotaAdmits false t) eqn:Hq.
    + apply wpt_emitToolSummary. rewrite Hs, Hvis. cbn [andb].
      unfold toolPasses at 1. rewrite Hrs, Hid.
      cbn [lastToolHash set_lastToolHash]. by rewrite opt_is_same.
    + apply wpt_emitToolSummary. rewrite Hs, Hvis, Hpass. cbn [andb].
      rewrite (recorded_without_id event t Hid).
      change (bool_decide (None = Some true)) with false. by rewrite Hq.
Qed.

Lemma repeated_end_effect t :
  wpt (bind (flush params true) (fun _ => resetTurnState))
    (fun _ t1 _ _ =>
       wpt (bind (flush params true) (fun _ => resetTurnState))
         (fun _ t2 d2 x2 => d2 = [] /\ x2 = [] /\ t2 = t1) t1) t.
Proof.
  destruct (deliveryMode (settings params)) eqn:Hmode.
  all: unfold resetTurnState; wp_run; wp_leaf; done.
Qed.

(** X5: with repeat suppression on, an event other than a text delta that
    comes twice in a row has no effect the second time: no tool payload is
    delivered, nothing goes to the chunker and the turn state stays as the
    first one left it. *)
Theorem repeated_event_is_suppressed (p : Projector host)
    (event : AcpRuntimeEvent) :
  repeatSuppression (settings params) = true ->
  (forall delta, event <> ev_text_delta delta) ->
  let o := onEvent params event p in
  let o' := onEvent params event (after o) in
  toolDeliveries (calls o') = []
  /\ appended (calls o') = []
  /\ turn (after o') = turn (after o).
Proof.
  intros Hrs Hnot o o'.
  assert (wpt (onEvent params event)
            (fun _ t1 _ _ =>
               wpt (onEvent params event)
                 (fun _ t2 d2 x2 => d2 = [] /\ x2 = [] /\ t2 = t1) t1)
            (turn p)) as H.
  { destruct event as [delta|event|event| |].
    - by destruct (Hnot delta).
    - by apply repeated_status_effect.
    - by apply repeated_tool_call_effect.
    - apply repeated_end_effect.
    - apply repeated_end_effect. }
  exact (H p eq_refl (after o) eq_refl).
Qed.

(** *** When tool payloads go out *)

Lemma step_defers i t :
  deliveryMode (settings params) = final_only ->
  forcesFlush i = false ->
  consistent t ->
  wpt (step params i)
    (fun _ t' d _ =>
       consistent t'
       /\ d = []
       /\ exists new,
            pendingToolDeliveries t' = pendingToolDeliveries t ++ new) t.
Proof.
  intros Hmode Hforce Ht.
  apply wpt_and; [by apply step_consistent|].
  destruct i as [event|[|]|]; try done.
  - assert (endsTurn (OnEvent event) = false) as Hend by by destruct event.
    eapply wpt_mono.
    { apply wpt_and; [by apply (step_scheduled _ t Hend)|].
      apply (step_final_only_buffers _ t Hmode Hend). by intros force. }
    intros _ t' d x [(new & Hnew & _) ->]. split; [done|]. by exists new.
  - unfold step. wp_run.
    all: split; [done|]; exists []; by rewrite app_nil_r.
  - eapply wpt_mono.
    { apply wpt_and; [by apply (step_scheduled _ t)|].
      by apply (step_final_only_buffers _ t Hmode). }
    intros _ t' d x [(new & Hnew & _) ->]. split; [done|]. by exists new.
Qed.

(** X6: when tool payloads go out.  In live mode no tool payload is ever
    held back: [pendingToolDeliveries] is empty whatever the projector has
    processed.  In final-only mode inputs other than [flush(true)], [done]
    and [error] deliver no tool payload at all: whatever they schedule is
    added to the end of [pendingToolDeliveries], and what was there stays
    in place. *)
Theorem tool_payloads_wait_for_forced_flush (history : list Input) :
  let p := after (run params history (createAcpReplyProjector params)) in
  (deliveryMode (settings params) = live ->
   pendingToolDeliveries (turn p) = [])
  /\ (deliveryMode (settings params) = final_only ->
      forall inputs : list Input,
        forallb (fun i => negb (forcesFlush i)) inputs = true ->
        let o := run params inputs p in
        toolDeliveries (calls o) = []
        /\ exists new,
             pendingToolDeliveries (turn (after o))
             = pendingToolDeliveries (turn p) ++ new).
Proof.
  intros p. pose proof (reachable_consistent history) as Hp. fold p in Hp.
  split; [apply Hp|]. intros Hmode inputs Hquiet o.
  pose proof (wpt_run_rel consistent (fun i => negb (forcesFlush i))
                (fun t t' d _ =>
                   d = []
                   /\ exists new,
                        pendingToolDeliveries t'
                        = pendingToolDeliveries t ++ new) inputs) as H.
  apply (fun H1 H2 H3 => H H1 H2 H3 Hquiet (turn p) Hp p eq_refl).
  - intros t _. split; [done|]. exists []. by rewrite app_nil_r.
  - intros t t1 t2 d1 d2 _ _ [-> (n1 & H1)] [-> (n2 & H2)]. split; [done|].
    exists (n1 ++ n2). by rewrite H2, H1, app_assoc.
  - intros i t Hi Ht. apply negb_true_iff in Hi. by apply step_defers.
Qed.

(** *** The tail of the visible output *)

Lemma slice_last (s : jsstring) :
  s <> [] -> Some (Js.slice s (-1) None) = tailOf s.
Proof.
  intros Hs. unfold tailOf, Js.slice, Js.sliceIndex, Js.len.
  destruct s as [|c s] using rev_ind; [done|]. clear IHs Hs.
  rewrite last_snoc, length_app. simpl.
  set (n := Z.of_nat (length s + 1)).
  replace (Z.to_nat (Z.max (n + -1) 0)) with (length s) by lia.
  replace (Z.to_nat (n - Z.max (n + -1) 0)) with 1%nat by lia.
  by rewrite drop_app_length.
Qed.

Lemma onTextDelta_tail (event : TextDeltaEvent) t :
  consistent t ->
  wpt (onTextDelta params event)
    (fun _ t' _ _ =>
       lastVisibleOutputTail t'
       = if Js.falsy (contribution t event) then lastVisibleOutputTail t
         else tailOf (contribution t event)) t.
Proof.
  intros Ht.
  unfold contribution, isProjectedText, onTextDelta.
  destruct (negb (Js.falsy_opt _) && _); simpl; [by apply wpt_ret|].
  destruct (isAcpTagVisible _ _); simpl; [|by apply wpt_ret].
  destruct (Js.falsy (td_text event)); simpl; [by apply wpt_ret|].
  destruct (deliveryMode (settings params)) eqn:Hmode.
  all: wp_run.
  all: wp_leaf.
  all: change (acceptedText params (set_pendingHiddenBoundary false t))
         with (acceptedText params t) in *.
  all: try match goal with
           | H : (_ <=? _) = true |- _ =>
               apply Z.leb_le in H; rewrite (acceptedText_exhausted t) by done
           end.
  all: try match goal with
           | H : (0 <? Js.len ?acc) = false |- _ =>
               apply Z.ltb_ge in H;
               rewrite (len_zero acc) by (pose proof (len_nonneg acc); lia)
           end.
  all: try done.
  all: match goal with
       | H : (0 <? Js.len ?acc) = true |- _ =>
           apply Z.ltb_lt in H;
           assert (acc <> []) as Hacc
             by (intros Hnil; rewrite Hnil in H; unfold Js.len in H;
                 simpl in H; lia)
       end.
  all: rewrite (proj2 (falsy_false _) Hacc); by apply slice_last.
Qed.

Lemma step_tail i t :
  endsTurn i = false ->
  consistent t ->
  wpt (step params i) (fun _ t' _ x => tailFollows t t' x) t.
Proof.
  intros Hend Ht. destruct (Ht) as [_ _ Hbuf _].
  destruct i as [[event|event|event| |]|force|]; try done.
  { unfold step, onEvent. eapply wpt_mono.
    { apply wpt_and; [by apply onTextDelta_text | by apply onTextDelta_tail]. }
    intros ? t' ? x [[Hx _] Htail]. simpl. by exists (contribution t event). }
  all: assert (Hnil : deliveryMode (settings params) = final_only ->
                      forall s : jsstring, s ++ liveBufferText t = s)
    by (intros Hm s; by rewrite (Hbuf Hm), app_nil_r).
  all: destruct (deliveryMode (settings params)) eqn:Hmode.
  all: wp_unfold; wp_run.
  all: exists []; wp_leaf.
  all: repeat case_match; simpl.
  all: rewrite ?app_nil_r, ?app_nil_l, ?(Hnil eq_refl).
  all: split; reflexivity.
Qed.

(** X7: [lastVisibleOutputTail] is the last character of the visible text
    of the turn.  Over a (part of a) turn, from a state with the initial
    turn variables through inputs none of which is [done] or [error], the
    variable holds the last character of the text accepted so far (handed
    to the chunker, or held in the live buffer), and is undefined while no
    text has been accepted. *)
Theorem last_visible_tail_tracks_output (p : Projector host)
    (inputs : list Input) :
  turn p = initialTurn ->
  forallb (fun i => negb (endsTurn i)) inputs = true ->
  let o := run params inputs p in
  lastVisibleOutputTail (turn (after o))
  = tailOf (appended (calls o) ++ liveBufferText (turn (after o))).
Proof.
  intros Hp Hin o.
  pose proof (wpt_run_rel consistent (fun i => negb (endsTurn i))
                (fun t t' _ x => tailFollows t t' x) inputs) as H.
  assert (consistent (turn (after o))
          /\ tailFollows (turn p) (turn (after o)) (appended (calls o)))
    as [_ (acc & Hx & Htail)].
  { apply (fun H1 H2 H3 H4 => H H1 H2 H3 Hin (turn p) H4 p eq_refl); try done.
    - intros t _. exists []. by rewrite app_nil_r.
    - intros t t1 t2 _ _ x1 x2 (a1 & Hx1 & Ht1) (a2 & Hx2 & Ht2).
      exists (a1 ++ a2). rewrite <- app_assoc, Hx2, !app_assoc, Hx1.
      split; [done|]. rewrite Ht2, Ht1. unfold tailOf.
      destruct a2 as [|c a2] using rev_ind; [by rewrite app_nil_r|].
      rewrite app_assoc, !last_snoc.
      by destruct a2, a1.
    - intros i t Hi Ht. apply wpt_and; [by apply step_consistent|].
      apply step_tail; [|done]. apply negb_true_iff in Hi. by rewrite Hi.
    - rewrite Hp. apply consistent_initial. }
  rewrite Hx, Htail, Hp. simpl. by destruct acc.
Qed.

(** *** The shape of the tool payloads *)

Lemma truncateText_len (input : jsstring) (maxChars : Z) :
  0 <= maxChars ->
  Js.len (truncateText input maxChars) = Z.min (Js.len input) maxChars.
Proof.
  intros Hmax. unfold truncateText.
  destruct (Z.leb_spec (Js.len input) maxChars); [lia|].
  destruct (Z.leb_spec maxChars 1).
  - rewrite slice_prefix_length; lia.
  - rewrite len_app, slice_prefix_length by lia.
    change (Js.len s_ellipsis) with 1. lia.
Qed.

Lemma statusPayload_notice : statusPayload (truncationNotice params).
Proof.
  pose proof settings_maxStatusChars as Hmax.
  split; [|right; by exists s_session_info_update].
  exists s_output_truncated. split; [done|]. split.
  - change (Js.len s_output_truncated) with 16. lia.
  - unfold truncationNotice. simpl. by rewrite truncationNotice_text.
Qed.

Lemma statusPayload_status (event : StatusEvent) dedupe t :
  statusPasses (st_text event) dedupe t = true ->
  statusPayload
    {| payload := {| payload_text := statusText (st_text event) |};
       meta := if Js.falsy_opt (st_tag event) then None
               else Some {| meta_tag := st_tag event;
                            meta_toolCallId := None;
                            meta_toolStatus := None;
                            meta_allowEdit := None |} |}.
Proof.
  pose proof settings_maxStatusChars as Hmax.
  unfold statusPasses. intros Hpass. to_prop.
  match goal with H : Js.falsy _ = false |- _ => apply falsy_false in H end.
  split.
  - eexists. split; [eassumption|]. split; [|reflexivity].
    rewrite truncateText_len by lia. lia.
  - simpl. destruct (st_tag event) as [[|c tag]|]; simpl; [by left| |by left].
    right. by exists (c :: tag).
Qed.

Lemma summaryPayload_tool (event : ToolCallEvent) :
  summaryPayload (toolEntry event).
Proof.
  pose proof settings_maxToolSummaryChars as Hmax.
  split.
  - unfold toolEntry, toolSummaryOf. simpl. rewrite truncateText_len by lia. lia.
  - eexists. split; [reflexivity|]. simpl. split_and!.
    + by destruct (tc_tag event) as [[|c tag]|].
    + unfold trimmedToolCallId. destruct (tc_toolCallId event) as [id|]; [|done].
      by destruct (Js.trim id).
    + unfold normalizeToolStatus.
      destruct (tc_status event) as [[|c status]|]; try done. simpl.
      by destruct (toLowerCase _).
    + f_equal. rewrite andb_comm. generalize (trimmedToolCallId event) as id.
      intros id. destruct (tc_tag event) as [[|c tag]|]; simpl.
      * first [done | symmetry; apply bool_decide_eq_false; by intros [? _]].
      * unfold Js.eqb.
        destruct (decide (c :: tag = s_tool_call_update)) as [->|Hne].
        -- rewrite bool_decide_eq_true_2 by done. simpl.
           apply bool_decide_ext. tauto.
        -- rewrite bool_decide_eq_false_2 by done. simpl. symmetry.
           apply bool_decide_eq_false. intros [? _]. congruence.
      * first [done | symmetry; apply bool_decide_eq_false; by intros [? _]].
Qed.

Lemma step_payloads i t :
  Forall (fun d => statusPayload d \/ summaryPayload d)
    (pendingToolDeliveries t) ->
  wpt (step params i)
    (fun _ t' d _ =>
       Forall (fun d => statusPayload d \/ summaryPayload d) d
       /\ Forall (fun d => statusPayload d \/ summaryPayload d)
            (pendingToolDeliveries t')) t.
Proof.
  intros Hpend.
  pose proof statusPayload_notice as Hnotice.
  pose proof summaryPayload_tool as Htool.
  pose proof statusPayload_status as Hstatus.
  destruct (deliveryMode (settings params)) eqn:Hmode.
  all: destruct i as [[event|event|event| |]|force|]; wp_unfold; wp_run.
  all: wp_leaf.
  all: split; rewrite ?Forall_app, ?Forall_singleton; try done.
  all: to_prop.
  all: eauto 6.
Qed.

(** X8: the shape of the tool payloads.  Every tool payload a projector
    delivers is a status line or a tool summary.  A status line is the
    system prefix before a text that is not empty and has at most
    [maxStatusChars] characters; its meta is absent or a tag alone.  A tool
    summary has at most [maxToolSummaryChars] characters; its meta holds no
    empty string, and allows editing exactly when it is tagged
    [tool_call_update] and names its tool call. *)
Theorem tool_payloads_well_formed (history : list Input) :
  Forall (fun d => statusPayload d \/ summaryPayload d)
    (toolDeliveries
       (calls (run params history (createAcpReplyProjector params)))).
Proof.
  pose proof (wpt_run_rel
                (fun t => Forall (fun d => statusPayload d \/ summaryPayload d)
                            (pendingToolDeliveries t))
                (fun _ => true)
                (fun _ _ d _ =>
                   Forall (fun d => statusPayload d \/ summaryPayload d) d)
                history) as H.
  apply (fun H1 H2 H3 H4 H5 =>
           proj2 (H H1 H2 H3 H4 initialTurn H5
                    (createAcpReplyProjector params) eq_refl)).
  - by intros t _.
  - intros t t1 t2 d1 d2 _ _ H1 H2. by apply Forall_app.
  - intros i t _ Ht. eapply wpt_mono; [by apply step_payloads|].
    by intros _ t' d _ [? ?].
  - by apply forallb_forall.
  - by apply Forall_nil.
Qed.

(** *** The order of the calls *)

Lemma calls_forEach_tool entries (p : Projector host) :
  calls (forEach entries
           (fun entry => deliver kind_tool (payload entry) (meta entry)) p)
  = toolCalls entries
  /\ after (forEach entries
              (fun entry => deliver kind_tool (payload entry) (meta entry)) p)
     = p.
Proof.
  induction entries as [|entry entries [IHc IHa]]; [done|].
  cbn [forEach]. rewrite calls_bind, after_bind. simpl.
  rewrite IHc, IHa. done.
Qed.

Lemma calls_forEach_block replies (p : Projector host) :
  calls (forEach replies (fun reply => deliver kind_block reply None) p)
  = blockCalls replies
  /\ after (forEach replies (fun reply => deliver kind_block reply None) p)
     = p.
Proof.
  induction replies as [|reply replies [IHc IHa]]; [done|].
  cbn [forEach]. rewrite calls_bind, after_bind. simpl.
  rewrite IHc, IHa. done.
Qed.

Lemma blockCalls_app a b : blockCalls (a ++ b) = blockCalls a ++ blockCalls b.
Proof. apply fmap_app. Qed.

Lemma sendsBlocksOnly_ret : sendsBlocksOnly (ret tt).
Proof. intros p. split; [done|]. by exists []. Qed.

Lemma sendsBlocksOnly_bind (m : Proj host unit) (k : unit -> Proj host unit) :
  sendsBlocksOnly m -> (forall u, sendsBlocksOnly (k u)) ->
  sendsBlocksOnly (bind m k).
Proof.
  intros Hm Hk p. destruct (Hm p) as [Ht (r1 & Hc)].
  destruct (Hk (result (m p)) (after (m p))) as [Ht' (r2 & Hc')].
  rewrite after_bind, calls_bind. split; [congruence|].
  exists (r1 ++ r2). unfold blockCalls. by rewrite fmap_app, Hc, Hc'.
Qed.

Lemma sendsBlocksOnly_pipelineEnqueue payload :
  sendsBlocksOnly (pipelineEnqueue payload).
Proof.
  intros p. unfold pipelineEnqueue. rewrite after_bind, calls_bind. simpl.
  set (sent := pipeline_enqueue payload (blockReplyPipeline p)).
  destruct (calls_forEach_block sent.1 (set_blockReplyPipeline sent.2 p))
    as [Hc Ha].
  rewrite Hc, Ha. split; [done|]. by exists sent.1.
Qed.

Lemma sendsBlocksOnly_pipelineFlush force :
  sendsBlocksOnly (pipelineFlush force).
Proof.
  intros p. unfold pipelineFlush. rewrite after_bind, calls_bind. simpl.
  set (sent := pipeline_flush force (blockReplyPipeline p)).
  destruct (calls_forEach_block sent.1 (set_blockReplyPipeline sent.2 p))
    as [Hc Ha].
  rewrite Hc, Ha. split; [done|]. by exists sent.1.
Qed.

Lemma sendsBlocksOnly_forEach_enqueue chunks :
  sendsBlocksOnly
    (forEach chunks (fun chunk => pipelineEnqueue {| payload_text := chunk |})).
Proof.
  induction chunks as [|chunk chunks IH]; [apply sendsBlocksOnly_ret|].
  cbn [forEach]. apply sendsBlocksOnly_bind; [|done].
  apply sendsBlocksOnly_pipelineEnqueue.
Qed.

Lemma sendsBlocksOnly_drainChunker force :
  sendsBlocksOnly (drainChunker params force).
Proof.
  unfold drainChunker. destruct (_ && _); [apply sendsBlocksOnly_ret|].
  intros p. rewrite after_bind, calls_bind. simpl.
  set (drained := chunker_drain force (chunker p)).
  apply (sendsBlocksOnly_forEach_enqueue drained.1 (set_chunker drained.2 p)).
Qed.

Lemma calls_flushLiveBuffer force (p : Projector host) :
  deliveryMode (settings params) = live ->
  turn (after (flushLiveBuffer params force false p))
  = set_liveBufferText [] (turn p)
  /\ exists replies,
       calls (flushLiveBuffer params force false p)
       = appendCalls (liveBufferText (turn p)) ++ blockCalls replies.
Proof.
  intros Hmode. unfold flushLiveBuffer, appendCalls. rewrite Hmode.
  rewrite bool_decide_eq_true_2 by done. cbn [negb andb].
  rewrite after_bind, calls_bind. cbn [read gets result after calls app].
  destruct (liveBufferText (turn p)) as [|c text] eqn:Hbuf; cbn [Js.falsy].
  { split; [|by exists []]. cbn [ret after].
    destruct p as [t ? ?]. destruct t. simpl in *. by subst. }
  rewrite !after_bind, !calls_bind.
  destruct (sendsBlocksOnly_drainChunker force
              (after (chunkerAppend (c :: text)
                        (after (assign (set_liveBufferText []) p)))))
    as [Ht (replies & Hc)].
  cbn [result]. rewrite Ht, Hc. split; [done|]. by exists replies.
Qed.

Lemma calls_clearLiveIdleTimer (p : Projector host) :
  calls (clearLiveIdleTimer p) = []
  /\ turn (after (clearLiveIdleTimer p)) = set_liveIdleTimer None (turn p).
Proof.
  unfold clearLiveIdleTimer. rewrite calls_bind, after_bind.
  cbn [read gets result after calls app].
  destruct (liveIdleTimer (turn p)) eqn:Htimer; [done|].
  split; [done|]. cbn [ret after]. by rewrite <- Htimer, set_liveIdleTimer_same.
Qed.

Lemma calls_flush (force : bool) (p : Projector host) :
  exists replies,
    calls (flush params force p)
    = match deliveryMode (settings params) with
      | live => appendCalls (liveBufferText (turn p))
      | final_only =>
          if force then toolCalls (pendingToolDeliveries (turn p)) else []
      end ++ blockCalls replies.
Proof.
  unfold flush, flushBufferedToolDeliveries.
  destruct (deliveryMode (settings params)) eqn:Hmode.
  - rewrite bool_decide_eq_true_2, bool_decide_eq_false_2 by done.
    cbn [negb andb]. rewrite !calls_bind, !after_bind.
    destruct (calls_clearLiveIdleTimer p) as [Hc1 Ht1].
    destruct (calls_flushLiveBuffer true (after (clearLiveIdleTimer p)) Hmode)
      as [Ht2 (r2 & Hc2)].
    rewrite Hc1, Hc2, Ht1. cbn [ret result after calls app liveBufferText
      set_liveIdleTimer].
    match goal with
    | |- context [calls (drainChunker params force ?q)] =>
        destruct (sendsBlocksOnly_drainChunker force q) as [_ (r3 & ->)]
    end.
    match goal with
    | |- context [calls (pipelineFlush force ?q)] =>
        destruct (sendsBlocksOnly_pipelineFlush force q) as [_ (r4 & ->)]
    end.
    exists (r2 ++ r3 ++ r4). by rewrite !blockCalls_app, <- !app_assoc.
  - rewrite bool_decide_eq_false_2, bool_decide_eq_true_2 by done.
    rewrite !calls_bind, ?after_bind. cbn [ret result after calls app andb].
    match goal with
    | |- context [calls (drainChunker params force ?q)] =>
        destruct (sendsBlocksOnly_drainChunker force q) as [_ (r3 & ->)]
    end.
    match goal with
    | |- context [calls (pipelineFlush force ?q)] =>
        destruct (sendsBlocksOnly_pipelineFlush force q) as [_ (r4 & ->)]
    end.
    exists (r3 ++ r4). rewrite blockCalls_app. f_equal.
    destruct force; cbn [negb]; [|done].
    rewrite !calls_bind. cbn [read gets assign modify result after calls app].
    apply calls_forEach_tool.
Qed.

Lemma calls_consumeMetaQuota force (p : Projector host) :
  calls (consumeMetaQuota params force p) = []
  /\ liveBufferText (turn (after (consumeMetaQuota params force p)))
     = liveBufferText (turn p).
Proof.
  unfold consumeMetaQuota. destruct force; [done|].
  rewrite calls_bind, after_bind. cbn [read gets result after calls app].
  by destruct (_ <=? _).
Qed.

Lemma calls_deliverOrBuffer pl mt (p : Projector host) :
  deliveryMode (settings params) = live ->
  exists replies,
    calls (deliverOrBuffer params pl mt p)
    = appendCalls (liveBufferText (turn p)) ++ blockCalls replies
      ++ [Deliver kind_tool pl mt].
Proof.
  intros Hmode. unfold deliverOrBuffer. rewrite Hmode, calls_bind.
  destruct (calls_flush true p) as (replies & ->). rewrite Hmode.
  exists replies. by rewrite <- app_assoc.
Qed.

Lemma calls_emitSystemStatus text mt opts_force opts_dedupe
    (p : Projector host) :
  deliveryMode (settings params) = live ->
  calls (emitSystemStatus params text mt opts_force opts_dedupe p) = []
  \/ exists replies,
       calls (emitSystemStatus params text mt opts_force opts_dedupe p)
       = appendCalls (liveBufferText (turn p)) ++ blockCalls replies
         ++ [Deliver kind_tool {| payload_text := statusText text |} mt].
Proof.
  intros Hmode. unfold emitSystemStatus, statusText.
  destruct (negb _); [by left|].
  destruct (Js.falsy _); [by left|]. cbv zeta.
  rewrite calls_bind. cbn [read gets result after calls app].
  destruct (_ && Js.opt_is _ _); [by left|].
  rewrite calls_bind.
  destruct (calls_consumeMetaQuota (bool_decide (opts_force = Some true)) p)
    as [-> Hbuf].
  destruct (result _); cbn [negb app]; [|by left].
  right. rewrite calls_bind. cbn [assign modify calls].
  rewrite app_nil_r, <- Hbuf. by apply calls_deliverOrBuffer.
Qed.

Lemma calls_emitToolSummary event opts_force (p : Projector host) :
  deliveryMode (settings params) = live ->
  calls (emitToolSummary params event opts_force p) = []
  \/ exists replies,
       calls (emitToolSummary params event opts_force p)
       = appendCalls (liveBufferText (turn p)) ++ blockCalls replies
         ++ toolCalls [toolEntry event].
Proof.
  intros Hmode. unfold emitToolSummary.
  destruct (negb _); [by left|].
  destruct (negb _); [by left|]. cbv zeta.
  set (send := bind (consumeMetaQuota params _) _).
  assert (forall q, liveBufferText (turn q) = liveBufferText (turn p) ->
            calls (send q) = []
            \/ exists replies,
                 calls (send q)
                 = appendCalls (liveBufferText (turn p)) ++ blockCalls replies
                   ++ toolCalls [toolEntry event]) as Hsend.
  { intros q Hq. unfold send. rewrite calls_bind.
    destruct (calls_consumeMetaQuota (bool_decide (opts_force = Some true)) q)
      as [-> Hbuf].
    destruct (result _); cbn [negb app]; [|by left].
    right. rewrite calls_bind. cbn [assign modify calls].
    rewrite app_nil_r, <- Hq, <- Hbuf. by apply calls_deliverOrBuffer. }
  clearbody send.
  destruct (repeatSuppression (settings params)); [|by apply Hsend].
  destruct (trimmedToolCallId event) as [id|].
  - rewrite calls_bind. cbn [read gets result after calls app].
    destruct (_ && terminal _); [by left|].
    destruct (_ && started _); [by left|].
    destruct (Js.opt_is _ _); [by left|].
    rewrite calls_bind. cbn [assign modify result after calls app].
    by apply Hsend.
  - rewrite calls_bind. cbn [read gets result after calls app].
    destruct (Js.opt_is _ _); [by left|]. by apply Hsend.
Qed.

(** X9: the order of the calls of a flush, and so of the end of a turn.
    In final-only mode a forced flush first delivers the buffered tool
    payloads, in the order they were buffered, and only then do block
    replies go out; an unforced flush makes no call but block replies.  In
    live mode a flush first hands the live buffer, if it holds text, to the
    chunker, and then block replies go out.  A [done] or an [error] event
    makes the calls of a forced flush. *)
Theorem flush_calls_in_order (p : Projector host) (force : bool) :
  (exists replies,
     calls (flush params force p)
     = match deliveryMode (settings params) with
       | live => appendCalls (liveBufferText (turn p))
       | final_only =>
           if force then toolCalls (pendingToolDeliveries (turn p)) else []
       end ++ blockCalls replies)
  /\ calls (onEvent params ev_done p) = calls (flush params true p)
  /\ calls (onEvent params ev_error p) = calls (flush params true p).
Proof.
  split; [apply calls_flush|].
  unfold onEvent. rewrite calls_bind.
  destruct (resetTurnState_initial (after (flush params true p))) as [_ ->].
  by rewrite app_nil_r.
Qed.

(** X10: in live mode a tool payload goes out after the text before it.  A
    status or tool-call event either makes no call at all, or makes these
    calls in this order: the live buffer, if it holds text, is handed to
    the chunker; block replies go out; the one tool payload of the event
    is delivered. *)
Theorem live_tool_payload_follows_text (p : Projector host)
    (event : AcpRuntimeEvent) :
  deliveryMode (settings params) = live ->
  (exists status, event = ev_status status)
  \/ (exists toolCall, event = ev_tool_call toolCall) ->
  let o := onEvent params event p in
  calls o = []
  \/ exists replies entry,
       calls o
       = appendCalls (liveBufferText (turn p)) ++ blockCalls replies
         ++ toolCalls [entry].
Proof.
  intros Hmode [[event' ->]|[event' ->]].
  - unfold onEvent, onStatus. cbv zeta.
    destruct (negb _); [by left|].
    set (emit := emitSystemStatus params _ _ _ _).
    assert (forall q, liveBufferText (turn q) = liveBufferText (turn p) ->
              calls (emit q) = []
              \/ exists replies entry,
                   calls (emit q)
                   = appendCalls (liveBufferText (turn p))
                     ++ blockCalls replies ++ toolCalls [entry]) as Hemit.
    { intros q Hq. unfold emit.
      match goal with
      | |- context [emitSystemStatus params ?text ?mt ?f ?d q] =>
          destruct (calls_emitSystemStatus text mt f d q Hmode)
            as [->|(replies & ->)]; [by left|right]
      end.
      rewrite Hq. eexists replies, {| payload := _; meta := _ |}. done. }
    clearbody emit.
    destruct (_ && _); [|by apply Hemit].
    rewrite calls_bind. cbn [read gets result after calls app].
    destruct (Js.opt_is _ _); [by left|].
    rewrite calls_bind. cbn [assign modify result after calls app].
    by apply Hemit.
  - unfold onEvent, onToolCall.
    destruct (negb _).
    + left. destruct (tc_tag event'); [|done]. by destruct (_ && _).
    + destruct (calls_emitToolSummary event' None p Hmode)
        as [->|(replies & ->)]; [by left|right].
      by exists replies, (toolEntry event').
Qed.

(** *** One turn after the other *)

Lemma turnOnly_ret {A} (a : A) : turnOnly (ret a).
Proof. by intros p p' Hp. Qed.

Lemma turnOnly_bind {A B} (m : Proj host A) (k : A -> Proj host B) :
  turnOnly m -> (forall a, turnOnly (k a)) -> turnOnly (bind m k).
Proof.
  intros Hm Hk p p' Hp. destruct (Hm p p' Hp) as (Hr & Ht & Hd & Hx).
  destruct (Hk (result (m p)) (after (m p)) (after (m p')) Ht)
    as (Hr' & Ht' & Hd' & Hx').
  rewrite !calls_bind, !after_bind, !toolDeliveries_app, !appended_app.
  cbn [bind result]. rewrite <- Hr. by rewrite Hd, Hx, Hd', Hx'.
Qed.

Lemma turnOnly_read {A} (f : TurnState -> A) : turnOnly (read f).
Proof. intros p p' Hp. cbn. by rewrite Hp. Qed.

Lemma turnOnly_assign (f : TurnState -> TurnState) : turnOnly (assign f).
Proof. intros p p' Hp. cbn. by rewrite Hp. Qed.

Lemma turnOnly_deliver kind payload meta :
  turnOnly (deliver kind payload meta).
Proof. by intros p p' Hp. Qed.

Lemma turnOnly_chunkerAppend text : turnOnly (chunkerAppend text).
Proof. by intros p p' Hp. Qed.

Lemma toolDeliveries_blockCalls replies :
  toolDeliveries (blockCalls replies) = []
  /\ appended (blockCalls replies) = [].
Proof. by induction replies. Qed.

Lemma turnOnly_blocks (m : Proj host unit) : sendsBlocksOnly m -> turnOnly m.
Proof.
  intros Hm p p' Hp.
  destruct (Hm p) as [Ht (r & ->)]. destruct (Hm p') as [Ht' (r' & ->)].
  destruct (toolDeliveries_blockCalls r) as [-> ->].
  destruct (toolDeliveries_blockCalls r') as [-> ->].
  split; [by destruct (result _), (result _)|]. by rewrite Ht, Ht'.
Qed.

Lemma turnOnly_forEach_tool entries :
  turnOnly (forEach entries
              (fun entry => deliver kind_tool (payload entry) (meta entry))).
Proof.
  induction entries as [|entry entries IH]; [apply turnOnly_ret|].
  cbn [forEach]. apply turnOnly_bind; [apply turnOnly_deliver|done].
Qed.

(** The routines one by one, each from the ones it calls. *)
Ltac turn_only_rule :=
  lazymatch goal with
  | |- turnOnly (bind _ _) => apply turnOnly_bind; [|intros ?]
  | |- turnOnly (ret _) => apply turnOnly_ret
  | |- turnOnly (read _) => apply turnOnly_read
  | |- turnOnly (assign _) => apply turnOnly_assign
  | |- turnOnly (deliver _ _ _) => apply turnOnly_deliver
  | |- turnOnly (chunkerAppend _) => apply turnOnly_chunkerAppend
  | |- turnOnly (forEach _ _) => apply turnOnly_forEach_tool
  | |- turnOnly (drainChunker _ _) =>
      apply turnOnly_blocks, sendsBlocksOnly_drainChunker
  | |- turnOnly (pipelineFlush _) =>
      apply turnOnly_blocks, sendsBlocksOnly_pipelineFlush
  | |- turnOnly (if ?c then _ else _) => destruct c
  | |- turnOnly (match ?c with _ => _ end) => destruct c
  | |- turnOnly _ => match goal with H : _ |- _ => apply H end
  end.

Ltac turn_only :=
  repeat first [turn_only_rule | progress (cbv beta iota zeta)].

Lemma turnOnly_clearLiveIdleTimer : turnOnly clearLiveIdleTimer.
Proof. unfold clearLiveIdleTimer. turn_only. Qed.

Lemma turnOnly_flushLiveBuffer force idle :
  turnOnly (flushLiveBuffer params force idle).
Proof. unfold flushLiveBuffer. turn_only. Qed.

Lemma turnOnly_scheduleLiveIdleFlush : turnOnly (scheduleLiveIdleFlush params).
Proof.
  pose proof turnOnly_clearLiveIdleTimer.
  unfold scheduleLiveIdleFlush. turn_only.
Qed.

Lemma turnOnly_flush force : turnOnly (flush params force).
Proof.
  pose proof turnOnly_clearLiveIdleTimer.
  pose proof (turnOnly_flushLiveBuffer true false).
  unfold flush, flushBufferedToolDeliveries. turn_only.
Qed.

Lemma turnOnly_consumeMetaQuota force : turnOnly (consumeMetaQuota params force).
Proof. unfold consumeMetaQuota. turn_only. Qed.

Lemma turnOnly_deliverOrBuffer payload meta :
  turnOnly (deliverOrBuffer params payload meta).
Proof.
  pose proof (turnOnly_flush true).
  unfold deliverOrBuffer. turn_only.
Qed.

Lemma turnOnly_emitSystemStatus text meta opts_force opts_dedupe :
  turnOnly (emitSystemStatus params text meta opts_force opts_dedupe).
Proof.
  unfold emitSystemStatus.
  pose proof turnOnly_consumeMetaQuota.
  pose proof turnOnly_deliverOrBuffer.
  turn_only.
Qed.

Lemma turnOnly_emitToolSummary event opts_force :
  turnOnly (emitToolSummary params event opts_force).
Proof.
  unfold emitToolSummary.
  pose proof turnOnly_consumeMetaQuota.
  pose proof turnOnly_deliverOrBuffer.
  turn_only.
Qed.

Lemma turnOnly_emitTruncationNotice : turnOnly (emitTruncationNotice params).
Proof.
  unfold emitTruncationNotice.
  pose proof turnOnly_emitSystemStatus.
  turn_only.
Qed.

Lemma turnOnly_step i : turnOnly (step params i).
Proof.
  pose proof turnOnly_clearLiveIdleTimer.
  pose proof turnOnly_emitTruncationNotice.
  pose proof turnOnly_scheduleLiveIdleFlush.
  destruct i as [[event|event|event| |]|force|]; wp_unfold.
  all: pose proof turnOnly_flushLiveBuffer.
  all: pose proof turnOnly_flush.
  all: pose proof turnOnly_emitSystemStatus.
  all: pose proof turnOnly_emitToolSummary.
  all: turn_only.
Qed.

Lemma turnOnly_run inputs : turnOnly (run params inputs).
Proof.
  induction inputs as [|i inputs IH]; [apply turnOnly_ret|].
  cbn [run]. apply turnOnly_bind; [apply turnOnly_step|done].
Qed.

Lemma after_run_app (a b : list Input) (p : Projector host) :
  after (run params (a ++ b) p) = after (run params b (after (run params a p))).
Proof.
  revert p. induction a as [|i a IH]; intros p; [done|].
  cbn [app]. by rewrite !run_cons, !after_bind, IH.
Qed.

(** X22: one turn after the other.  What a projector delivers as tool
    payloads and hands to the chunker, and the turn state it ends in,
    depend on the turn state it starts from and on the inputs only, not on
    what the chunker and the pipeline hold.  Hence, once a [done] or an
    [error] event has ended a turn, the projector treats the inputs that
    follow as a new projector would. *)
Theorem turn_starts_afresh (history inputs : list Input)
    (final : AcpRuntimeEvent) :
  final = ev_done \/ final = ev_error ->
  let fresh := createAcpReplyProjector params in
  let p := after (run params (history ++ [OnEvent final]) fresh) in
  turn p = turn fresh
  /\ turn (after (run params inputs p)) = turn (after (run params inputs fresh))
  /\ toolDeliveries (calls (run params inputs p))
     = toolDeliveries (calls (run params inputs fresh))
  /\ appended (calls (run params inputs p))
     = appended (calls (run params inputs fresh)).
Proof.
  intros Hfinal fresh p.
  assert (turn p = turn fresh) as Hp.
  { unfold p. rewrite after_run_app, run_cons, after_bind.
    cbn [run ret after].
    assert (step params (OnEvent final)
            = bind (flush params true) (fun _ => resetTurnState)) as ->
      by by destruct Hfinal as [-> | ->].
    rewrite after_bind.
    by destruct (resetTurnState_initial
                   (after (flush params true (after (run params history fresh)))))
      as [-> _]. }
  split; [exact Hp|].
  destruct (turnOnly_run inputs p fresh Hp) as (_ & Ht & Hd & Hx). done.
Qed.

End Properties.

(** ** Properties of the settings *)

(** X11: whatever the configuration holds, the numbers resolved from it lie
    within their bounds. *)
Theorem resolved_numbers_within_bounds (cfg : OpenClawConfig) :
  let s := resolveAcpProjectionSettings cfg in
  1 <= maxTurnChars s <= 500000
  /\ 64 <= maxToolSummaryChars s <= 8000
  /\ 64 <= maxStatusChars s <= 8000
  /\ 1 <= maxMetaEventsPerTurn s <= 2000
  /\ 0 <= resolveAcpStreamCoalesceIdleMs cfg <= 5000
  /\ 50 <= resolveAcpStreamMaxChunkChars cfg <= 4000.
Proof.
  cbv zeta. split_and!; by apply clampPositiveInteger_bounds.
Qed.

Lemma round_integer (n : Z) : Js.round (inject_Z n) = n.
Proof.
  unfold Js.round, Qfloor, Qplus, inject_Z. simpl.
  rewrite Z.mul_1_r. change (Z.pos (1 * 2)) with 2.
  symmetry. apply Z.div_unique with (r := 1); lia.
Qed.

(** X12: [clampPositiveInteger].  A finite number is rounded and brought
    into the bounds, so that a whole number within the bounds is returned
    as it is; any other value (undefined, a string, NaN, an infinity)
    yields the fallback as it is, within the bounds or not. *)
Theorem clampPositiveInteger_clamps (fallback lo hi : Z) :
  lo <= hi ->
  (forall q : Q,
     clampPositiveInteger (Js.Number (Js.Finite q)) fallback lo hi
     = Z.max lo (Z.min hi (Js.round q)))
  /\ (forall n : Z,
        lo <= n <= hi ->
        clampPositiveInteger (Js.Number (Js.Finite (inject_Z n))) fallback lo hi
        = n)
  /\ (forall value : Js.value,
        (forall q, value <> Js.Number (Js.Finite q)) ->
        clampPositiveInteger value fallback lo hi = fallback).
Proof.
  intros Hbounds.
  assert (forall q : Q,
            clampPositiveInteger (Js.Number (Js.Finite q)) fallback lo hi
            = Z.max lo (Z.min hi (Js.round q))) as Hq.
  { intros q. unfold clampPositiveInteger.
    destruct (Z.ltb_spec (Js.round q) lo); [lia|].
    destruct (Z.ltb_spec hi (Js.round q)); lia. }
  split_and!; [done| |].
  - intros n Hn. rewrite Hq, round_integer. lia.
  - intros value Hvalue. destruct value as [| | |[q| | |]| |]; try done.
    by destruct (Hvalue q).
Qed.

(** X13: the fallbacks of the delivery mode and of the separator.  The
    delivery mode is live exactly when the configuration holds the string
    "live", and final-only for any other value; where the configuration
    names none of the four separators, the separator is a space in live
    mode and a paragraph break in final-only mode; repeat suppression is
    off exactly when the configuration holds the boolean false. *)
Theorem delivery_mode_and_separator_fallbacks (cfg : OpenClawConfig) :
  let s := resolveAcpProjectionSettings cfg in
  (deliveryMode s = live
   <-> streamField cfg cfg_deliveryMode = Js.String s_live)
  /\ ((forall name,
         streamField cfg cfg_hiddenBoundarySeparator = Js.String name ->
         name ∉ [s_none; s_space; s_newline; s_paragraph]) ->
      hiddenBoundarySeparator s
      = match deliveryMode s with
        | live => sep_space
        | final_only => sep_paragraph
        end)
  /\ (repeatSuppression s = false
      <-> streamField cfg cfg_repeatSuppression = Js.Bool false).
Proof.
  cbv zeta. unfold resolveAcpProjectionSettings. cbn [deliveryMode
    hiddenBoundarySeparator repeatSuppression]. split_and!.
  - unfold resolveAcpDeliveryMode.
    destruct (streamField cfg cfg_deliveryMode) as [| | | |name|]; try done.
    unfold Js.eqb. repeat case_bool_decide; subst; try done.
    all: split; [done|]; congruence.
  - intros Hname. unfold resolveAcpHiddenBoundarySeparator.
    destruct (streamField cfg cfg_hiddenBoundarySeparator)
      as [| | | |name|]; try by destruct (resolveAcpDeliveryMode _).
    specialize (Hname name eq_refl). unfold Js.eqb.
    repeat case_bool_decide; subst;
      try by destruct (resolveAcpDeliveryMode _).
    all: exfalso; apply Hname; set_solver.
  - unfold clampBoolean.
    destruct (streamField cfg cfg_repeatSuppression) as [| |[|]| | |];
      split; done.
Qed.

(** X14: the visibility of a tag that is not empty.  A boolean the
    conversation holds for the tag decides; any other entry counts as none.
    Without a boolean, the tag is hidden exactly when it is one of the
    nine tags the defaults hide, that is any default tag but
    [agent_message_chunk]. *)
Theorem isAcpTagVisible_override_then_default
    (settings : AcpProjectionSettings) (tag : jsstring) :
  tag <> [] ->
  (forall visible : bool,
     tagVisibility settings !! tag = Some (Js.Bool visible) ->
     isAcpTagVisible settings (Some tag) = visible)
  /\ ((forall visible : bool,
         tagVisibility settings !! tag <> Some (Js.Bool visible)) ->
      (isAcpTagVisible settings (Some tag) = false
       <-> tag ∈ [s_tool_call; s_tool_call_update; s_usage_update;
                  s_available_commands_update; s_current_mode_update;
                  s_config_option_update; s_session_info_update; s_plan;
                  s_agent_thought_chunk])).
Proof.
  intros Htag. unfold isAcpTagVisible.
  destruct tag as [|c tag]; [done|]. cbn [Js.falsy]. split.
  - by intros visible ->.
  - intros Hnone.
    assert (match ACP_TAG_VISIBILITY_DEFAULTS !! (c :: tag) with
            | Some visible => visible
            | None => true
            end = false
            <-> c :: tag ∈ [s_tool_call; s_tool_call_update; s_usage_update;
                            s_available_commands_update; s_current_mode_update;
                            s_config_option_update; s_session_info_update;
                            s_plan; s_agent_thought_chunk]) as Hdefaults.
    { generalize (c :: tag). clear. intros tag.
      destruct (ACP_TAG_VISIBILITY_DEFAULTS !! tag) as [visible|] eqn:Hdefault.
      - apply elem_of_list_to_map_2 in Hdefault.
        repeat (apply elem_of_cons in Hdefault as [[= -> ->]|Hdefault];
                [first
                   [ split; [done|]; intros Hin;
                     repeat (apply elem_of_cons in Hin as [Hin|Hin];
                             [discriminate Hin|]);
                     by apply elem_of_nil in Hin
                   | split; [intros _|done];
                     repeat first [ apply list_elem_of_here
                                  | apply list_elem_of_further ] ]|]).
        by apply elem_of_nil in Hdefault.
      - split; [done|]. intros Hin. exfalso.
        repeat (apply elem_of_cons in Hin as [->|Hin];
                [vm_compute in Hdefault; discriminate Hdefault|]).
        by apply elem_of_nil in Hin. }
    destruct (tagVisibility _ !! _) as [[| |b|n|s|]|] eqn:E;
      first [exact Hdefaults | by destruct (Hnone b)].
Qed.

(** ** Properties of the pure helpers *)

(** X15: [truncateText] with a bound that is not negative.  The result has
    the length of the input or the bound, whichever is less; an input
    within the bound is returned as it is; an input beyond a bound of two
    or more keeps its first [maxChars - 1] characters, followed by an
    ellipsis; truncating twice is truncating once. *)
Theorem truncateText_fits (input : jsstring) (maxChars : Z) :
  0 <= maxChars ->
  Js.len (truncateText input maxChars) = Z.min (Js.len input) maxChars
  /\ (Js.len input <= maxChars -> truncateText input maxChars = input)
  /\ (2 <= maxChars < Js.len input ->
      truncateText input maxChars
      = take (Z.to_nat (maxChars - 1)) input ++ s_ellipsis)
  /\ truncateText (truncateText input maxChars) maxChars
     = truncateText input maxChars.
Proof.
  intros Hmax. split_and!.
  - by apply truncateText_len.
  - intros Hfits. unfold truncateText.
    by destruct (Z.leb_spec (Js.len input) maxChars); [|lia].
  - intros Hlong. unfold truncateText.
    destruct (Z.leb_spec (Js.len input) maxChars); [lia|].
    destruct (Z.leb_spec maxChars 1); [lia|].
    by rewrite slice_prefix_take by lia.
  - pose proof (truncateText_len input maxChars Hmax) as Hlen.
    unfold truncateText at 1.
    destruct (Z.leb_spec (Js.len (truncateText input maxChars)) maxChars);
      [done|lia].
Qed.

Lemma isCloser_not_whitespace (c : Js.char) :
  isCloser c = true -> Js.isWhitespace c = false.
Proof.
  unfold isCloser. rewrite !orb_true_iff, !N.eqb_eq.
  by intros [[[->| ->]| ->]| ->].
Qed.

Lemma isSentenceEnd_not_whitespace (c : Js.char) :
  isSentenceEnd c = true -> Js.isWhitespace c = false.
Proof.
  unfold isSentenceEnd. rewrite !orb_true_iff, !N.eqb_eq.
  by intros [[->| ->]| ->].
Qed.

Lemma endsSentence_trimEnd (text : jsstring) :
  endsSentenceThenSpace text = true -> endsSentence (Js.trimEnd text) = true.
Proof.
  unfold endsSentenceThenSpace, Js.trimEnd.
  destruct (rev text) as [|w before]; [done|].
  intros [Hw Hends]%andb_true_iff. cbn [Js.dropWhile]. rewrite Hw.
  assert (Js.dropWhile Js.isWhitespace before = before) as ->; [|done].
  unfold endsSentence in Hends. rewrite rev_involutive in Hends.
  destruct before as [|b rest]; [done|]. cbn [Js.dropWhile] in *.
  destruct (isCloser b) eqn:Hb.
  - by rewrite (isCloser_not_whitespace b Hb).
  - by rewrite (isSentenceEnd_not_whitespace b Hends).
Qed.

Lemma includes_middle (a rest : jsstring) (c : Js.char) :
  Js.includes (a ++ c :: rest) [c] = true.
Proof.
  induction a as [|x a IH]; simpl.
  - by rewrite N.eqb_refl, startsWith_nil.
  - rewrite IH. apply orb_true_r.
Qed.

Lemma endsWith_paragraph_includes_newline (text : jsstring) :
  Js.endsWith text s_nlnl = true -> Js.includes text s_nl = true.
Proof.
  unfold Js.endsWith. change (rev s_nlnl) with [10%N; 10%N].
  destruct (rev text) as [|a [|b r]] eqn:Hrev; cbn [Js.startsWith]; try done.
  { by rewrite andb_false_r. }
  intros [Ha%N.eqb_eq _]%andb_true_iff. subst a.
  apply (f_equal (@rev _)) in Hrev. rewrite rev_involutive in Hrev.
  rewrite Hrev. cbn [rev]. apply (includes_middle (rev r ++ [b]) []).
Qed.

(** X16: text that meets the boundary test meets the idle test: whichever
    text [onEvent] would flush from the live buffer at once, the idle timer
    would flush as well. *)
Theorem boundary_flush_implies_idle_flush (text : jsstring) :
  shouldFlushLiveBufferOnBoundary text = true ->
  shouldFlushLiveBufferOnIdle text = true.
Proof.
  unfold shouldFlushLiveBufferOnBoundary, shouldFlushLiveBufferOnIdle,
    ACP_LIVE_HARD_FLUSH_CHARS, ACP_LIVE_SOFT_FLUSH_CHARS,
    ACP_LIVE_IDLE_MIN_CHARS.
  destruct (Js.falsy text); [done|].
  destruct (Z.leb_spec 80 (Js.len text)); [done|].
  destruct (Z.leb_spec 480 (Js.len text)); [lia|].
  destruct (Js.endsWith text s_nlnl) eqn:Hpar.
  { rewrite (endsWith_paragraph_includes_newline text Hpar).
    by destruct (endsSentence _). }
  destruct (endsSentenceThenSpace text) eqn:Hsentence.
  { by rewrite (endsSentence_trimEnd text Hsentence). }
  destruct (Z.leb_spec 220 (Js.len text)); [lia|done].
Qed.

Section Rendering.
Context `{host : Host}.

(** X17: the detail line of a tool summary.  [renderToolSummaryText]
    formats, under the name "tool_call", the trimmed title and the trimmed
    status after "status=", joined by a middle dot, where they are not
    blank; the trimmed text of the event is used only when both are blank;
    when that is blank too the detail is "tool call". *)
Theorem renderToolSummaryText_detail (event : ToolCallEvent) :
  renderToolSummaryText event
  = formatToolSummary (resolveToolDisplay s_tool_call (toolSummaryMeta event)).
Proof.
  unfold renderToolSummaryText, toolSummaryMeta. cbv zeta.
  destruct (tc_title event) as [title|]; destruct (tc_status event) as [status|];
    destruct (tc_text event) as [text|]; simpl.
  all: repeat match goal with
              | |- context [Js.trim ?s] =>
                  let t := fresh "t" in
                  generalize (Js.trim s); intros t
              end.
  all: repeat match goal with
              | t : jsstring |- _ => destruct t; simpl; try done
              end.
  all: done.
Qed.

End Rendering.

(** ** Properties of the direct-room tracker *)

Section DirectProperties.
Context `{client : Direct.MatrixClient}.
Import Direct.

Lemma holds_ret {A} (a : A) Q (s : Tracker client) :
  Q a s [] -> holds (ret a) Q s.
Proof. done. Qed.

Lemma holds_bind {A B} (m : Routine client A) (k : A -> Routine client B) Q s :
  holds m (fun a s1 t1 => holds (k a) (fun b s2 t2 => Q b s2 (t1 ++ t2)) s1) s ->
  holds (bind m k) Q s.
Proof. done. Qed.

Lemma holds_ask {A} made (f : World -> A * World) Q (s : Tracker client) :
  Q (f (world s)).1 (set_world (f (world s)).2 s) made ->
  holds (ask made f) Q s.
Proof. done. Qed.

Lemma holds_log message Q (s : Tracker client) :
  Q tt s [Log message] -> holds (log message) Q s.
Proof. done. Qed.

Lemma holds_refreshDmCache Q (s : Tracker client) :
  (let reading := date_now (world s) in
   if reading.1 - lastDmUpdateMs s <? DM_CACHE_TTL_MS
   then Q tt (set_world reading.2 s) []
   else
     let update := dms_update reading.2 in
     forall logged,
       Forall (fun c => exists message, c = Log message) logged ->
       Q tt (set_world update.2 (set_lastDmUpdateMs reading.1 s))
         (DmsUpdate :: logged)) ->
  holds refreshDmCache Q s.
Proof.
  cbv zeta. unfold refreshDmCache, holds. intros HQ.
  cbn [bind ask read answer final trace app set_world lastDmUpdateMs].
  destruct (_ <? _); [done|].
  cbn [bind assign ask answer final trace app world set_world
         set_lastDmUpdateMs].
  destruct (dms_update _).1 as [err|]; cbn [answer final trace log ret app].
  - apply (HQ [Log _]). repeat constructor. by eexists.
  - apply (HQ []). constructor.
Qed.

Lemma holds_ensureSelfUserId Q (s : Tracker client) :
  (if negb (Js.falsy_opt (cachedSelfUserId s))
   then Q (cachedSelfUserId s) s []
   else
     let fetched := getUserId (world s) in
     let userId := match fetched.1 with
                   | inr userId => Some userId
                   | inl _ => None
                   end in
     Q userId (set_cachedSelfUserId userId (set_world fetched.2 s))
       [GetUserId]) ->
  holds ensureSelfUserId Q s.
Proof.
  cbv zeta. unfold ensureSelfUserId, holds. intros HQ.
  cbn [bind read answer final trace app].
  by destruct (negb _).
Qed.

Lemma holds_hasDirectFlag room userId Q (s : Tracker client) :
  match Js.trim <$> userId with
  | Some (c :: target) =>
      let fetched :=
        getRoomStateEvent room s_m_room_member (c :: target) (world s) in
      Q match fetched.1 with
        | inr (Some state) =>
            match is_direct state with
            | Js.Bool true => true
            | _ => false
            end
        | _ => false
        end
        (set_world fetched.2 s)
        [GetRoomStateEvent room s_m_room_member (c :: target)]
  | _ => Q false s []
  end ->
  holds (hasDirectFlag room userId) Q s.
Proof.
  unfold hasDirectFlag, holds.
  by destruct (Js.trim <$> userId) as [[|c target]|].
Qed.

(** [resolveMemberCount] asks for the joined members and logs, and touches
    the member-count cache and the world only. *)
Lemma holds_resolveMemberCount room
    (Q : option nat -> Tracker client -> list ClientCall -> Prop)
    (s : Tracker client) :
  (forall found s' made,
     lastDmUpdateMs s' = lastDmUpdateMs s ->
     cachedSelfUserId s' = cachedSelfUserId s ->
     Forall (fun c => c = GetJoinedRoomMembers room
                      \/ exists message, c = Log message) made ->
     Q found s' made) ->
  holds (resolveMemberCount room) Q s.
Proof.
  intros HQ. unfold resolveMemberCount, holds.
  cbn [bind read answer final trace app].
  destruct (memberCountCache s) as [entries|]; [|by apply HQ].
  cbn [bind ask answer final trace app].
  set (now := (date_now (world s)).1). set (s1 := set_world _ s).
  assert (forall s0 : Tracker client,
            lastDmUpdateMs s0 = lastDmUpdateMs s ->
            cachedSelfUserId s0 = cachedSelfUserId s ->
            forall (k : Routine client (option nat)),
              k = bind (ask [GetJoinedRoomMembers room]
                          (getJoinedRoomMembers room))
                    (fun fetched =>
                       match fetched with
                       | inr members =>
                           bind (assign (fun s =>
                                   set_memberCountCache
                                     (insert room
                                        {| count := length members; ts := now |}
                                        <$> memberCountCache s) s))
                             (fun _ => ret (Some (length members)))
                       | inl err =>
                           bind (log (Js.lit "matrix: dm member count failed room="
                                      ++ room ++ Js.lit " (" ++ thrownToString err
                                      ++ Js.lit ")"))
                             (fun _ => ret None)
                       end) ->
              Q (answer (k s0)) (final (k s0)) (trace (k s0))) as Hfetch.
  { intros s0 Hlast Hcached k ->.
    cbn [bind ask answer final trace app].
    destruct (getJoinedRoomMembers room (world s0)).1 as [err|members].
    - apply HQ; [done..|]. cbn [bind log ret answer final trace app].
      apply Forall_cons; split; [by left|].
      apply Forall_cons; split; [right; by eexists|]. constructor.
    - apply HQ; [done..|]. cbn [bind assign ret answer final trace app].
      apply Forall_cons; split; [by left|]. constructor. }
  destruct (entries !! room) as [entry|].
  - destruct (_ <? _); [by apply HQ|]. by apply Hfetch.
  - by apply Hfetch.
Qed.

(** Symbolic execution of a routine of the tracker. *)
Ltac run_rule :=
  lazymatch goal with
  | |- holds (bind _ _) _ _ => apply holds_bind
  | |- holds (ret _) _ _ => apply holds_ret
  | |- holds (ask _ _) _ _ => apply holds_ask
  | |- holds (log _) _ _ => apply holds_log
  | |- holds refreshDmCache _ _ => apply holds_refreshDmCache
  | |- holds ensureSelfUserId _ _ => apply holds_ensureSelfUserId
  | |- holds (hasDirectFlag _ _) _ _ => apply holds_hasDirectFlag
  | |- holds (resolveMemberCount _) _ _ =>
      apply holds_resolveMemberCount; intros ? ? ? ? ? ?
  | |- holds (if ?c then _ else _) _ _ => destruct c eqn:?
  | |- holds (match ?c with _ => _ end) _ _ => destruct c eqn:?
  | |- if ?c then _ else _ => destruct c eqn:?
  | |- match ?c with _ => _ end => destruct c eqn:?
  | |- forall _, _ => intros ?
  end.

Ltac run := repeat first [run_rule | progress (cbv beta iota zeta)].

(** *** The verdict and the member count *)

Lemma agree_ret {A} (a : A) : agree (ret a) (ret a).
Proof. by intros s s' Hs. Qed.

Lemma agree_bind {A B} (m m' : Routine client A)
    (k k' : A -> Routine client B) :
  agree m m' -> (forall a, agree (k a) (k' a)) -> agree (bind m k) (bind m' k').
Proof.
  intros Hm Hk s s' Hs. destruct (Hm s s' Hs) as (Ha & Ht & Hf).
  destruct (Hk (answer (m s)) (final (m s)) (final (m' s')) Hf)
    as (Ha' & Ht' & Hf').
  cbn [bind answer final trace]. rewrite <- Ha. by rewrite Ht, Ht'.
Qed.

Lemma agree_read {A} (f : Tracker client -> A) :
  (forall s s', sameButCache s s' -> f s = f s') -> agree (read f) (read f).
Proof. intros Hf s s' Hs. split; [by apply Hf|done]. Qed.

Lemma agree_assign (f : Tracker client -> Tracker client) :
  (forall s s', sameButCache s s' -> sameButCache (f s) (f s')) ->
  agree (assign f) (assign f).
Proof. intros Hf s s' Hs. split; [done|]. split; [done|by apply Hf]. Qed.

Lemma agree_ask {A} made (f : World -> A * World) :
  agree (ask made f) (ask made f).
Proof.
  intros s s' (Hl & Hc & Hw). unfold sameButCache.
  cbn [ask answer final trace lastDmUpdateMs cachedSelfUserId world set_world].
  by rewrite Hw.
Qed.

Lemma agree_log message : agree (log message) (log message).
Proof. by intros s s' Hs. Qed.

Lemma agree_refreshDmCache : agree refreshDmCache refreshDmCache.
Proof.
  unfold refreshDmCache. apply agree_bind; [apply agree_ask|]. intros now.
  apply agree_bind; [apply agree_read; by intros s s' (? & _)|]. intros last.
  destruct (_ <? _); [apply agree_ret|].
  apply agree_bind; [apply agree_assign; by intros s s' (? & ? & ?)|].
  intros _. apply agree_bind; [apply agree_ask|].
  intros [err|]; [apply agree_log | apply agree_ret].
Qed.

Lemma agree_ensureSelfUserId : agree ensureSelfUserId ensureSelfUserId.
Proof.
  unfold ensureSelfUserId.
  apply agree_bind; [apply agree_read; by intros s s' (_ & ? & _)|].
  intros cached. destruct (negb _); [apply agree_ret|].
  apply agree_bind; [apply agree_ask|]. intros fetched.
  apply agree_bind; [apply agree_assign; by intros s s' (? & ? & ?)|].
  intros _. apply agree_read. by intros s s' (_ & ? & _).
Qed.

Lemma agree_hasDirectFlag room userId :
  agree (hasDirectFlag room userId) (hasDirectFlag room userId).
Proof.
  unfold hasDirectFlag. destruct (Js.trim <$> userId) as [target|];
    [|apply agree_ret].
  destruct (Js.falsy target); [apply agree_ret|].
  apply agree_bind; [apply agree_ask|]. intros fetched. apply agree_ret.
Qed.

Lemma agreeOnVerdict_agree (m m' : Routine client bool) :
  agree m m' -> agreeOnVerdict m m'.
Proof. intros H s s' Hs. destruct (H s s' Hs) as (? & ? & _). done. Qed.

Lemma agreeOnVerdict_bind {A} (m m' : Routine client A)
    (k k' : A -> Routine client bool) :
  agree m m' -> (forall a, agreeOnVerdict (k a) (k' a)) ->
  agreeOnVerdict (bind m k) (bind m' k').
Proof.
  intros Hm Hk s s' Hs. destruct (Hm s s' Hs) as (Ha & Ht & Hf).
  destruct (Hk (answer (m s)) (final (m s)) (final (m' s')) Hf) as (Ha' & Ht').
  cbn [bind answer final trace]. rewrite <- Ha. split; [done|].
  intros Htrue. by rewrite Ht, Ht'.
Qed.

Lemma isDirectMessage_agree (params : DirectMessageCheck) :
  agreeOnVerdict
    (isDirectMessage {| includeMemberCountInLogs := false |} params)
    (isDirectMessage {| includeMemberCountInLogs := true |} params).
Proof.
  unfold isDirectMessage. cbv zeta.
  apply agreeOnVerdict_bind; [apply agree_refreshDmCache|]. intros _.
  apply agreeOnVerdict_bind; [apply agree_ask|]. intros [|].
  { apply agreeOnVerdict_agree, agree_bind; [apply agree_log|].
    intros _. apply agree_ret. }
  apply agreeOnVerdict_bind.
  { destruct (selfUserId params); [apply agree_ret|apply agree_ensureSelfUserId]. }
  intros self. apply agreeOnVerdict_bind; [apply agree_hasDirectFlag|].
  intros viaSender. apply agreeOnVerdict_bind.
  { destruct viaSender; [apply agree_ret|apply agree_hasDirectFlag]. }
  intros [|].
  { apply agreeOnVerdict_agree, agree_bind; [apply agree_log|].
    intros _. apply agree_ret. }
  cbn [includeMemberCountInLogs negb]. intros s s' _.
  split; [reflexivity|]. intros Htrue. change (false = true) in Htrue. done.
Qed.

Lemma isDirectMessage_no_member_list (params : DirectMessageCheck) s :
  holds (isDirectMessage {| includeMemberCountInLogs := false |} params)
    (fun _ _ made => Forall (fun c => isMemberListQuery c = false) made) s.
Proof.
  unfold isDirectMessage. cbn [includeMemberCountInLogs negb]. run.
  all: cbn [app]; rewrite ?Forall_cons, ?Forall_app, ?Forall_cons, ?Forall_nil.
  all: repeat split; try done.
  all: eapply Forall_impl; [eassumption|]; by intros ? [? ->].
Qed.

(** X18: the member count does not make a room direct.  A check with
    [includeMemberCountInLogs] on and the same check with it off, on two
    trackers that differ in the member-count cache at most, give the same
    verdict, and make the same calls when the verdict is that the room is
    direct.  With the option off the joined members are never asked for;
    with it on they are asked for only once the verdict is that the room
    is a group. *)
Theorem verdict_ignores_member_count (params : DirectMessageCheck)
    (s s' : Tracker client) :
  sameButCache s s' ->
  let o := isDirectMessage {| includeMemberCountInLogs := false |} params s in
  let o' := isDirectMessage {| includeMemberCountInLogs := true |} params s' in
  answer o = answer o'
  /\ (answer o = true -> trace o = trace o')
  /\ Forall (fun c => isMemberListQuery c = false) (trace o)
  /\ (answer o' = true ->
      Forall (fun c => isMemberListQuery c = false) (trace o')).
Proof.
  intros Hs o o'.
  destruct (isDirectMessage_agree params s s' Hs) as [Hanswer Htrace].
  pose proof (isDirectMessage_no_member_list params s) as Hnone.
  fold o in Hanswer, Htrace, Hnone. fold o' in Hanswer, Htrace.
  split_and!; try done.
  intros Htrue. rewrite <- Htrace by congruence. exact Hnone.
Qed.

(** *** The refresh of the list of direct rooms *)

Lemma countCalls_app kind (a b : list ClientCall) :
  countCalls kind (a ++ b) = (countCalls kind a + countCalls kind b)%nat.
Proof. unfold countCalls. by rewrite List.filter_app, length_app. Qed.

Lemma countCalls_cons kind (c : ClientCall) (l : list ClientCall) :
  countCalls kind (c :: l)
  = ((if kind c then 1 else 0) + countCalls kind l)%nat.
Proof. unfold countCalls. simpl. by destruct (kind c). Qed.

Lemma countCalls_none kind (l : list ClientCall) :
  Forall (fun c => kind c = false) l -> countCalls kind l = 0%nat.
Proof.
  induction 1 as [|c l Hc _ IH]; [done|]. by rewrite countCalls_cons, Hc, IH.
Qed.

Lemma countCalls_logged kind (l : list ClientCall) :
  (forall message, kind (Log message) = false) ->
  Forall (fun c => exists message, c = Log message) l ->
  countCalls kind l = 0%nat.
Proof.
  intros Hkind Hl. apply countCalls_none.
  eapply Forall_impl; [exact Hl|]. by intros ? [? ->].
Qed.

Lemma countCalls_counted kind room (l : list ClientCall) :
  kind (GetJoinedRoomMembers room) = false ->
  (forall message, kind (Log message) = false) ->
  Forall (fun c => c = GetJoinedRoomMembers room
                   \/ exists message, c = Log message) l ->
  countCalls kind l = 0%nat.
Proof.
  intros Hroom Hkind Hl. apply countCalls_none.
  eapply Forall_impl; [exact Hl|]. by intros ? [->|[? ->]].
Qed.

(** Evaluating a count over the calls of one path. *)
Ltac count_calls :=
  cbn [app];
  repeat first
    [ rewrite countCalls_cons
    | rewrite countCalls_app
    | match goal with
      | H : Forall _ ?l |- context [countCalls ?kind ?l] =>
          first [ rewrite (countCalls_logged kind l) by done
                | rewrite (countCalls_counted kind _ l) by done ]
      end ];
  change (countCalls _ []) with 0%nat.

(** X19: the list of direct rooms is refreshed at most once per
    [DM_CACHE_TTL_MS].  A check first reads the clock.  If less than the
    interval has passed since [lastDmUpdateMs], it does not call
    [client.dms.update] and leaves [lastDmUpdateMs] as it is; otherwise it
    calls it exactly once and sets [lastDmUpdateMs] to the reading, whether
    the update resolves or throws, so that a failed update is not tried
    again before the interval has passed. *)
Theorem dm_list_refresh_is_throttled (opts : DirectRoomTrackerOptions)
    (params : DirectMessageCheck) (s : Tracker client) :
  let reading := (date_now (world s)).1 in
  let o := isDirectMessage opts params s in
  if reading - lastDmUpdateMs s <? DM_CACHE_TTL_MS
  then countCalls isDmListUpdate (trace o) = 0%nat
       /\ lastDmUpdateMs (final o) = lastDmUpdateMs s
  else countCalls isDmListUpdate (trace o) = 1%nat
       /\ lastDmUpdateMs (final o) = reading.
Proof.
  cbv zeta.
  change (holds (isDirectMessage opts params)
            (fun _ s' made =>
               if (date_now (world s)).1 - lastDmUpdateMs s <? DM_CACHE_TTL_MS
               then countCalls isDmListUpdate made = 0%nat
                    /\ lastDmUpdateMs s' = lastDmUpdateMs s
               else countCalls isDmListUpdate made = 1%nat
                    /\ lastDmUpdateMs s' = (date_now (world s)).1) s).
  unfold isDirectMessage. run.
  all: count_calls.
  all: cbn [isDmListUpdate lastDmUpdateMs set_world set_cachedSelfUserId
              set_lastDmUpdateMs] in *.
  all: split; [done|congruence].
Qed.

(** *** The queries of a check *)

(** X20: the member state a check asks for.  A check asks for the member
    state at most twice (of the sender, and of the tracker's own user if
    the sender is not flagged direct), each time for the room of the check,
    the event type [m.room.member] and a user whose name is not empty. *)
Theorem member_state_is_asked_by_name (opts : DirectRoomTrackerOptions)
    (params : DirectMessageCheck) (s : Tracker client) :
  let o := isDirectMessage opts params s in
  Forall (wellFormedFor (roomId params)) (trace o)
  /\ (countCalls isMemberStateQuery (trace o) <= 2)%nat.
Proof.
  cbv zeta.
  change (holds (isDirectMessage opts params)
            (fun _ _ made =>
               Forall (wellFormedFor (roomId params)) made
               /\ (countCalls isMemberStateQuery made <= 2)%nat) s).
  unfold isDirectMessage. run.
  all: split; [|count_calls; cbn [isMemberStateQuery]; lia].
  all: cbn [app]; rewrite ?Forall_cons, ?Forall_app, ?Forall_cons, ?Forall_app,
         ?Forall_cons, ?Forall_nil.
  all: repeat split; try done.
  all: eapply Forall_impl; [eassumption|]; by intros ? [->|[? ->]] || by intros ? [? ->].
Qed.

Lemma set_cachedSelfUserId_same (s : Tracker client) :
  set_cachedSelfUserId (cachedSelfUserId s) s = s.
Proof. by destruct s. Qed.

(** X21: the tracker's own user id.  A check asks the client for it at
    most once, and not at all when the check names it or when the tracker
    holds one that is not empty; the one it holds is then kept.  An id
    that [ensureSelfUserId] returns not empty is held: asking again makes
    no call and returns the same.  A failure is not held: after a call
    that throws the tracker holds none. *)
Theorem self_user_id_is_asked_once (opts : DirectRoomTrackerOptions)
    (params : DirectMessageCheck) (s : Tracker client) :
  let o := isDirectMessage opts params s in
  let e := ensureSelfUserId s in
  (countCalls isUserIdQuery (trace o) <= 1)%nat
  /\ (is_Some (selfUserId params)
      \/ Js.falsy_opt (cachedSelfUserId s) = false ->
      countCalls isUserIdQuery (trace o) = 0%nat
      /\ cachedSelfUserId (final o) = cachedSelfUserId s)
  /\ (Js.falsy_opt (answer e) = false ->
      trace (ensureSelfUserId (final e)) = []
      /\ answer (ensureSelfUserId (final e)) = answer e
      /\ final (ensureSelfUserId (final e)) = final e)
  /\ ((exists err, (getUserId (world s)).1 = inl err) ->
      Js.falsy_opt (cachedSelfUserId s) = true ->
      answer e = None /\ cachedSelfUserId (final e) = None).
Proof.
  cbv zeta. split_and!.
  - change (holds (isDirectMessage opts params)
              (fun _ _ made => (countCalls isUserIdQuery made <= 1)%nat) s).
    unfold isDirectMessage. run.
    all: count_calls; cbn [isUserIdQuery]; lia.
  - intros Hheld.
    change (holds (isDirectMessage opts params)
              (fun _ s' made =>
                 countCalls isUserIdQuery made = 0%nat
                 /\ cachedSelfUserId s' = cachedSelfUserId s) s).
    unfold isDirectMessage. run.
    all: cbn [cachedSelfUserId set_world set_lastDmUpdateMs
                set_cachedSelfUserId] in *.
    all: try (destruct Hheld as [[? ?]|Hc];
              [congruence|rewrite Hc in *; discriminate]).
    all: split; [count_calls; cbn [isUserIdQuery]; lia|congruence].
  - unfold ensureSelfUserId. cbn [bind read answer final trace app].
    destruct (negb (Js.falsy_opt (cachedSelfUserId s))) eqn:Hcached.
    + cbn [ret answer final trace]. by rewrite Hcached.
    + cbn [bind read ask assign answer final trace app cachedSelfUserId
             set_cachedSelfUserId set_world]. intros ->. done.
  - intros [err Herr] Hnone. unfold ensureSelfUserId.
    cbn [bind read answer final trace app]. rewrite Hnone.
    cbn [negb bind read ask assign answer final trace app cachedSelfUserId
           set_cachedSelfUserId set_world]. by rewrite Herr.
Qed.

End DirectProperties.

(** ** The properties on concrete runs *)

Section Examples.
Import Sample.

(** The end-to-end run of the specification: two deltas and [done] in
    final-only mode give one block reply and no notice. *)
Example hello_world :
  trace (params s_final_only 100 64 [] true)
    [say "Hello"; say " world."; OnEvent ev_done]
  = [ChunkerAppend (Js.lit "Hello");
     ChunkerAppend (Js.lit " world.");
     Deliver kind_block {| payload_text := Js.lit "Hello world." |} None].
Proof. vm_compute. reflexivity. Qed.

(** A tool call and its completion, both tags visible: two tool deliveries,
    the second with status [completed]. *)
Example tool_call_then_completed :
  let ps := params s_live 100 64 toolsVisible true in
  (fun d => meta_toolStatus <$> meta d)
    <$> toolDeliveries
          (trace ps [tool "tool_call" "T1" "in_progress" "run";
                     tool "tool_call_update" "T1" "completed" "run"])
  = [Some (Some s_in_progress); Some (Some (Js.lit "completed"))].
Proof. vm_compute. reflexivity. Qed.

(** Live mode: ten characters that end no sentence stay in the live buffer
    when the idle timer expires, and the timer is armed again; a sentence
    is flushed to the chunker. *)
Example idle_timer_polls :
  let ps := params s_live 100 64 [] true in
  trace ps [say "abcdefghij"; IdleTimeout] = []
  /\ liveBufferText (turn (final ps [say "abcdefghij"; IdleTimeout]))
     = Js.lit "abcdefghij"
  /\ liveIdleTimer (turn (final ps [say "abcdefghij"; IdleTimeout]))
     = Some timer_pending
  /\ trace ps [say "Hello."; IdleTimeout] = [ChunkerAppend (Js.lit "Hello.")].
Proof. vm_compute. repeat split; reflexivity. Qed.

End Examples.

(** The tests of the tracker in the source, on the client they mock: a room
    in [m.direct] is direct; a room of two members without direct flags is
    not, and the joined members are not asked for; a sender flagged direct
    makes the room direct. *)
Example direct_room_tracker_tests :
  let quiet := {| Direct.includeMemberCountInLogs := false |} in
  Direct.answer (Direct.Mock.check quiet true false false) = true
  /\ Direct.answer (Direct.Mock.check quiet false false false) = false
  /\ Direct.countCalls Direct.isMemberListQuery
       (Direct.trace (Direct.Mock.check quiet false false false)) = 0%nat
  /\ Direct.answer (Direct.Mock.check quiet false true false) = true
  /\ Direct.trace (Direct.Mock.check quiet false true false)
     = [Direct.DmsUpdate;
        Direct.IsDm Direct.Mock.room;
        Direct.GetUserId;
        Direct.GetRoomStateEvent Direct.Mock.room Direct.s_m_room_member
          Direct.Mock.alice;
        Direct.Log
          (Js.lit "matrix: dm detected via member state room=!room:example.org")].
Proof. vm_compute. repeat split; reflexivity. Qed.

#[local] Existing Instance Sample.host.

Lemma isAcpTagVisible_unlisted_witness :
  isAcpTagVisible
    (resolveAcpProjectionSettings (Sample.config s_live 100 64 []))
    (Some (Js.lit "custom_tag")) = true.
Proof.
  apply isAcpTagVisible_unlisted. right; right.
  exists (Js.lit "custom_tag"). split; [reflexivity|].
  split; [intros b; vm_compute; discriminate | vm_compute; reflexivity].
Defined.

(** Closing a statement about a concrete run from an instance of a theorem:
    both sides are evaluated. *)
Ltac by_instance H :=
  cbv zeta in H; vm_compute in H; vm_compute; exact H.

Lemma turn_budget_respected_witness :
  let ps := Sample.params s_live 10 64 [] true in
  let p := createAcpReplyProjector ps in
  let o := run ps [Sample.say "Hello"; Sample.say " wor"] p in
  (Js.len (appended (calls o) ++ liveBufferText (turn (after o)))
   = emittedTurnChars (turn (after o))
   /\ emittedTurnChars (turn (after o)) <= 10)
  /\ (let p1 := after (run ps [Sample.say "Hello"] p) in
      let o1 := onEvent ps (ev_text_delta (Sample.text " world.")) p1 in
      appended (calls o1) ++ liveBufferText (turn (after o1))
      = liveBufferText (turn p1) ++ Js.lit " worl"
      /\ Js.len (Js.lit " worl") = 5
      /\ emittedTurnChars (turn (after o1)) = 10).
Proof.
  intros ps p o. split.
  - pose proof (proj1 (proj2 (turn_budget_respected ps)) p
                  [Sample.say "Hello"; Sample.say " wor"]) as H.
    specialize (H ltac:(vm_compute; reflexivity)
                  ltac:(vm_compute; reflexivity)).
    by_instance H.
  - pose proof (proj2 (proj2 (turn_budget_respected ps)) [Sample.say "Hello"]
                  (Sample.text " world.")) as H.
    specialize (H ltac:(vm_compute; reflexivity)
                  ltac:(vm_compute; reflexivity)).
    by_instance H.
Defined.

(** C2 as stated fails: after a delivered [completed] update for T1, an
    update for T1 with the status [running] is delivered as well. *)
Lemma terminal_then_update_delivered :
  let ps := Sample.params s_live 100 64 Sample.toolsVisible true in
  let first := Sample.toolCall "tool_call_update" "T1" "completed" "run" in
  let later := Sample.toolCall "tool_call_update" "T1" "running" "run" in
  let o1 := onEvent ps (ev_tool_call first) (createAcpReplyProjector ps) in
  let o2 := onEvent ps (ev_tool_call later) (after o1) in
  repeatSuppression (settings ps) = true
  /\ isTerminalStatus (normalizeToolStatus (tc_status first)) = true
  /\ trimmedToolCallId first = trimmedToolCallId later
  /\ toolDeliveries (calls o1) = [toolEntry ps first]
  /\ toolDeliveries (calls o2) = [toolEntry ps later].
Proof. vm_compute. repeat split; reflexivity. Qed.

Lemma terminal_tool_call_not_repeated_witness :
  let ps := Sample.params s_live 100 64 Sample.toolsVisible true in
  let first := Sample.toolCall "tool_call_update" "T1" "completed" "run" in
  let later := Sample.toolCall "tool_call_update" "T1" "failed" "run" in
  let o1 := onEvent ps (ev_tool_call first) (createAcpReplyProjector ps) in
  let p2 := after (run ps [Sample.say "ok"] (after o1)) in
  let o2 := onEvent ps (ev_tool_call later) p2 in
  toolDeliveries (calls o1) = [toolEntry ps first]
  /\ toolDeliveries (calls o2) = []
  /\ pendingToolDeliveries (turn (after o2)) = pendingToolDeliveries (turn p2).
Proof.
  intros ps first later o1 p2 o2.
  split; [vm_compute; reflexivity|].
  pose proof (proj2 (terminal_tool_call_not_repeated ps
                       ltac:(vm_compute; reflexivity))
                [] [Sample.say "ok"] first later (Js.lit "T1")) as H.
  specialize (H ltac:(vm_compute; reflexivity) ltac:(vm_compute; reflexivity)
                ltac:(vm_compute; reflexivity) ltac:(vm_compute; reflexivity)
                ltac:(vm_compute; discriminate) ltac:(vm_compute; reflexivity)).
  by_instance H.
Defined.

(** C3 as stated fails: without tool summaries a turn whose text is cut
    short ends without any tool delivery, the notice included. *)
Lemma truncation_without_notice :
  let ps := Sample.params s_live 5 64 [] false in
  let p := createAcpReplyProjector ps in
  truncationIn ps [Sample.say "Hello world"] p = true
  /\ toolDeliveries
       (calls (run ps [Sample.say "Hello world"; OnEvent ev_done] p)) = []
  /\ truncationNoticeEmitted
       (turn (after (run ps [Sample.say "Hello world"] p))) = true.
Proof. vm_compute. repeat split; reflexivity. Qed.

Lemma truncation_notice_once_witness :
  let ps := Sample.params s_final_only 10 64 [] true in
  let p := createAcpReplyProjector ps in
  let inputs := [Sample.say "Hello"; Sample.say " world."; Sample.say "more"] in
  let o := run ps inputs p in
  (countNotices ps (toolDeliveries (calls o)
                    ++ pendingToolDeliveries (turn (after o))) = 1%nat
   /\ truncationNoticeEmitted (turn (after o)) = true
   /\ countNotices ps
        (toolDeliveries (calls (run ps (inputs ++ [OnEvent ev_done]) p)))
      = 1%nat)
  /\ (let p1 := after (run ps [Sample.say "Hello"] p) in
      let o1 := onEvent ps (ev_text_delta (Sample.text " world.")) p1 in
      toolDeliveries (calls o1) ++ pendingToolDeliveries (turn (after o1))
      = [truncationNotice ps]
      /\ emittedMetaEvents (turn (after o1)) = 0).
Proof.
  intros ps p inputs o.
  pose proof (truncation_notice_once ps ltac:(vm_compute; reflexivity))
    as [Hturn Hstep].
  split.
  - specialize (Hturn p inputs ltac:(vm_compute; reflexivity)
                  ltac:(vm_compute; reflexivity)
                  ltac:(vm_compute; reflexivity)).
    cbv zeta in Hturn. destruct Hturn as (H1 & H2 & H3).
    specialize (H3 ev_done (or_introl eq_refl)).
    split; [by_instance H1|]. split; [by_instance H2 | by_instance H3].
  - specialize (Hstep [Sample.say "Hello"] (Sample.text " world.")
                  ltac:(vm_compute; reflexivity)
                  ltac:(vm_compute; reflexivity)).
    cbv zeta in Hstep. destruct Hstep as (H1 & H2 & _).
    split; [by_instance H1 | by_instance H2].
Defined.

(** C4 as stated fails: with the paragraph separator, the separator goes in
    after text that ends in a space, which is whitespace. *)
Lemma separator_after_trailing_space :
  let ps := Sample.params s_final_only 100 64 [] true in
  let p :=
    after (run ps [Sample.say "x ";
                   Sample.tool "tool_call" "T1" "in_progress" "run"]
             (createAcpReplyProjector ps)) in
  resolveHiddenBoundarySeparatorText (hiddenBoundarySeparator (settings ps))
  = s_nlnl
  /\ pendingHiddenBoundary (turn p) = true
  /\ lastVisibleOutputTail (turn p) = Some [32%N]
  /\ Js.isWhitespace 32%N = true
  /\ calls (onEvent ps (ev_text_delta (Sample.text "y")) p)
     = [ChunkerAppend (s_nlnl ++ Js.lit "y")].
Proof. vm_compute. repeat split; reflexivity. Qed.

Lemma separator_inserted_when_due_witness :
  let ps := Sample.params s_final_only 100 64 [] true in
  let history :=
    [Sample.say "x"; Sample.tool "tool_call" "T1" "in_progress" "run"] in
  let p := after (run ps history (createAcpReplyProjector ps)) in
  let o := onEvent ps (ev_text_delta (Sample.text "y...")) p in
  let o' := onEvent ps (ev_text_delta (Sample.text " y...")) p in
  appended (calls o) ++ liveBufferText (turn (after o))
  = liveBufferText (turn p) ++ s_nlnl ++ Js.lit "y..."
  /\ appended (calls o') ++ liveBufferText (turn (after o'))
     = liveBufferText (turn p) ++ Js.lit " y...".
Proof.
  intros ps history p o o'. split.
  - pose proof (separator_inserted_when_due ps history (Sample.text "y..."))
      as H.
    specialize (H ltac:(vm_compute; reflexivity)
                  ltac:(vm_compute; reflexivity)).
    cbv zeta in H. destruct H as [_ H]. by_instance H.
  - pose proof (separator_inserted_when_due ps history (Sample.text " y..."))
      as H.
    specialize (H ltac:(vm_compute; reflexivity)
                  ltac:(vm_compute; reflexivity)).
    cbv zeta in H. destruct H as [_ H]. by_instance H.
Defined.

(** C6 as stated fails: the two events deliver nothing when tool summaries
    are off, and nothing when an identical event has gone before them. *)
Lemma repeated_pair_without_delivery :
  let event := Sample.toolCall "tool_call" "T1" "in_progress" "run" in
  let pair := [OnEvent (ev_tool_call event); OnEvent (ev_tool_call event)] in
  (let ps := Sample.params s_live 100 64 Sample.toolsVisible false in
   repeatSuppression (settings ps) = true
   /\ isAcpTagVisible (settings ps) (tc_tag event) = true
   /\ isTerminalStatus (normalizeToolStatus (tc_status event)) = false
   /\ toolDeliveries (calls (run ps pair (createAcpReplyProjector ps))) = [])
  /\ (let ps := Sample.params s_live 100 64 Sample.toolsVisible true in
      let p :=
        after (run ps [OnEvent (ev_tool_call event)]
                 (createAcpReplyProjector ps)) in
      repeatSuppression (settings ps) = true
      /\ isAcpTagVisible (settings ps) (tc_tag event) = true
      /\ toolDeliveries (calls (run ps pair p)) = []).
Proof. vm_compute. repeat split; reflexivity. Qed.

Lemma repeated_tool_summary_suppressed_witness :
  let ps := Sample.params s_live 100 64 Sample.toolsVisible true in
  let event := Sample.toolCall "tool_call" "T1" "in_progress" "run" in
  let p := createAcpReplyProjector ps in
  let o1 := onEvent ps (ev_tool_call event) p in
  let o2 := onEvent ps (ev_tool_call event) (after o1) in
  toolDeliveries (calls o1) ++ pendingToolDeliveries (turn (after o1))
  = [toolEntry ps event]
  /\ toolDeliveries (calls o2) ++ pendingToolDeliveries (turn (after o2))
     = pendingToolDeliveries (turn (after o1)).
Proof.
  intros ps event p o1 o2.
  pose proof (repeated_tool_summary_suppressed ps [] event event (Js.lit "T1"))
    as H.
  specialize (H ltac:(vm_compute; reflexivity) ltac:(vm_compute; reflexivity)
                ltac:(vm_compute; reflexivity) ltac:(vm_compute; reflexivity)
                ltac:(vm_compute; reflexivity) ltac:(vm_compute; reflexivity)
                ltac:(vm_compute; reflexivity) ltac:(vm_compute; reflexivity)).
  cbv zeta in H. destruct H as (new1 & new2 & H1 & H2 & _ & _ & Hfresh).
  destruct (Hfresh ltac:(vm_compute; reflexivity)
              ltac:(vm_compute; reflexivity)) as [-> ->].
  rewrite app_nil_r in H2. split; [by_instance H1 | by_instance H2].
Defined.

Lemma meta_quota_respected_witness :
  let ps := Sample.params s_live 100 1 Sample.toolsVisible true in
  let p := createAcpReplyProjector ps in
  let p1 :=
    after (run ps [Sample.tool "tool_call" "T1" "in_progress" "run"] p) in
  let further := Sample.toolCall "tool_call" "T2" "in_progress" "build" in
  let o := onEvent ps (ev_tool_call further) p1 in
  (result (consumeMetaQuota ps false p) = true
   /\ emittedMetaEvents (turn (after (consumeMetaQuota ps false p))) = 1)
  /\ (result (consumeMetaQuota ps false p1) = false
      /\ after (consumeMetaQuota ps false p1) = p1)
  /\ emittedMetaEvents (turn p1) = 1
  /\ toolDeliveries (calls o) = []
  /\ pendingToolDeliveries (turn (after o)) = pendingToolDeliveries (turn p1)
  /\ emittedMetaEvents (turn (after o)) = 1.
Proof.
  intros ps p p1 further o.
  pose proof (meta_quota_respected ps) as (_ & Hconsume & _ & _ & Hfull).
  split; [|split; [|split; [vm_compute; reflexivity|]]].
  - pose proof (proj1 (proj2 (Hconsume p)) ltac:(vm_compute; reflexivity))
      as H.
    by_instance H.
  - pose proof (proj2 (proj2 (Hconsume p1)) ltac:(vm_compute; discriminate))
      as H.
    by_instance H.
  - specialize (Hfull [Sample.tool "tool_call" "T1" "in_progress" "run"]
                  (ev_tool_call further)
                  (or_intror (ex_intro _ further eq_refl))
                  ltac:(vm_compute; discriminate)).
    by_instance Hfull.
Defined.

(** C8 as stated fails: a visible text delta on the output stream whose
    text is empty leaves a pending hidden boundary pending. *)
Lemma empty_text_keeps_pending_boundary :
  let ps := Sample.params s_final_only 100 64 [] true in
  let p :=
    after (run ps [Sample.tool "tool_call" "T1" "in_progress" "run"]
             (createAcpReplyProjector ps)) in
  let event := Sample.text "" in
  td_stream event = Some s_output
  /\ isAcpTagVisible (settings ps) (td_tag event) = true
  /\ pendingHiddenBoundary (turn p) = true
  /\ pendingHiddenBoundary
       (turn (after (onEvent ps (ev_text_delta event) p))) = true.
Proof. vm_compute. repeat split; reflexivity. Qed.

Lemma text_delta_clears_pending_boundary_witness :
  let ps := Sample.params s_final_only 100 64 [] true in
  let p :=
    after (run ps [Sample.tool "tool_call" "T1" "in_progress" "run"]
             (createAcpReplyProjector ps)) in
  pendingHiddenBoundary (turn p) = true
  /\ pendingHiddenBoundary
       (turn (after (onEvent ps (ev_text_delta (Sample.text " y")) p)))
     = false
  /\ calls (onEvent ps (ev_text_delta (Sample.text "")) p) = []
  /\ after (onEvent ps (ev_text_delta (Sample.text "")) p) = p.
Proof.
  intros ps p. split; [vm_compute; reflexivity|]. split.
  - apply (text_delta_clears_pending_boundary ps p (Sample.text " y")).
    + right. right. reflexivity.
    + vm_compute. reflexivity.
    + discriminate.
  - pose proof (text_delta_clears_pending_boundary ps p (Sample.text "")) as H.
    specialize (H ltac:(right; right; reflexivity)
                  ltac:(vm_compute; reflexivity)).
    destruct H as [_ H]. destruct (H eq_refl) as (Hcalls & Hafter & _).
    split; [exact Hcalls | exact Hafter].
Defined.

Lemma no_tool_delivery_without_summaries_witness :
  let ps := Sample.params s_live 5 64 Sample.toolsVisible false in
  let history :=
    [Sample.tool "tool_call" "T1" "in_progress" "run";
     Sample.note "" "thinking";
     Sample.say "Hello world";
     OnEvent ev_done] in
  let o := run ps history (createAcpReplyProjector ps) in
  (toolDeliveries (calls o) = []
   /\ pendingToolDeliveries (turn (after o)) = [])
  /\ truncationNoticeEmitted
       (turn (after (onEvent ps (ev_text_delta (Sample.text "Hello world"))
                       (createAcpReplyProjector ps)))) = true.
Proof.
  intros ps history o.
  pose proof (no_tool_delivery_without_summaries ps
                ltac:(vm_compute; reflexivity)) as (Hrun & _ & Hlatch).
  split.
  - apply (Hrun history).
  - apply (Hlatch [] (Sample.text "Hello world")). vm_compute. reflexivity.
Defined.

(** ** The further properties on concrete runs *)

Lemma live_buffer_discipline_witness :
  let ps := Sample.params s_final_only 100 64 [] true in
  let history := [Sample.say "Hello"; IdleTimeout; Sample.say " world."] in
  let t := turn (after (run ps history (createAcpReplyProjector ps))) in
  deliveryMode (settings ps) = final_only
  /\ liveBufferText t = [] /\ liveIdleTimer t = None.
Proof.
  intros ps history t. split; [vm_compute; reflexivity|].
  pose proof (live_buffer_discipline ps history) as (_ & _ & _ & H).
  apply H. vm_compute. reflexivity.
Defined.

Lemma idle_timeout_flushes_or_rearms_witness :
  let ps := Sample.params s_live 100 64 [] true in
  let p := after (run ps [Sample.say "Hello."] (createAcpReplyProjector ps)) in
  let o := step ps IdleTimeout p in
  liveIdleTimer (turn p) = Some timer_pending
  /\ (toolDeliveries (calls o) = []
      /\ if shouldFlushLiveBufferOnIdle (liveBufferText (turn p))
         then appended (calls o) = liveBufferText (turn p)
              /\ turn (after o)
                 = set_liveBufferText []
                     (set_liveIdleTimer (Some timer_fired) (turn p))
         else appended (calls o) = [] /\ turn (after o) = turn p).
Proof.
  intros ps p o. split; [vm_compute; reflexivity|].
  pose proof (idle_timeout_flushes_or_rearms ps [Sample.say "Hello."]) as H.
  specialize (H ltac:(vm_compute; reflexivity)).
  by_instance H.
Defined.

Lemma hidden_event_is_silent_witness :
  let ps := Sample.params s_final_only 100 64 [] true in
  let event :=
    ev_tool_call (Sample.toolCall "tool_call_update" "T1" "completed" "run") in
  let p := createAcpReplyProjector ps in
  let o := onEvent ps event p in
  isAcpTagVisible (settings ps) (eventTag event) = false
  /\ calls o = []
  /\ turn (after o) = set_pendingHiddenBoundary true (turn p).
Proof.
  intros ps event p o. split; [vm_compute; reflexivity|].
  pose proof (hidden_event_is_silent ps p event) as H.
  specialize (H ltac:(vm_compute; reflexivity)).
  destruct H as (Hcalls & _ & _ & Hturn). split; [exact Hcalls|].
  by_instance Hturn.
Defined.

Lemma repeated_event_is_suppressed_witness :
  let ps := Sample.params s_live 100 64 [] true in
  let event := ev_status (Sample.statusNote "" "thinking") in
  let o := onEvent ps event (createAcpReplyProjector ps) in
  let o' := onEvent ps event (after o) in
  repeatSuppression (settings ps) = true
  /\ length (toolDeliveries (calls o)) = 1%nat
  /\ toolDeliveries (calls o') = []
  /\ appended (calls o') = []
  /\ turn (after o') = turn (after o).
Proof.
  intros ps event o o'. split; [vm_compute; reflexivity|].
  split; [vm_compute; reflexivity|].
  pose proof (repeated_event_is_suppressed ps (createAcpReplyProjector ps)
                event) as H.
  specialize (H ltac:(vm_compute; reflexivity) ltac:(discriminate)).
  exact H.
Defined.

Lemma tool_payloads_wait_for_forced_flush_witness :
  let ps := Sample.params s_final_only 100 64 Sample.toolsVisible true in
  let p := createAcpReplyProjector ps in
  let inputs :=
    [Sample.tool "tool_call" "T1" "in_progress" "run"; Sample.say "Hello";
     Flush false] in
  let o := run ps inputs p in
  deliveryMode (settings ps) = final_only
  /\ toolDeliveries (calls o) = []
  /\ length (pendingToolDeliveries (turn (after o))) = 1%nat.
Proof.
  intros ps p inputs o. split; [vm_compute; reflexivity|].
  pose proof (tool_payloads_wait_for_forced_flush ps []) as [_ H].
  specialize (H ltac:(vm_compute; reflexivity) inputs
                ltac:(vm_compute; reflexivity)).
  destruct H as [Hnone _]. split; [exact Hnone|]. vm_compute. reflexivity.
Defined.

Lemma last_visible_tail_tracks_output_witness :
  let ps := Sample.params s_live 10 64 [] true in
  let p := createAcpReplyProjector ps in
  let o := run ps [Sample.say "Hello"; Sample.say " world."] p in
  turn p = initialTurn
  /\ appended (calls o) ++ liveBufferText (turn (after o)) = Js.lit "Hello worl"
  /\ lastVisibleOutputTail (turn (after o))
     = tailOf (appended (calls o) ++ liveBufferText (turn (after o))).
Proof.
  intros ps p o. split; [reflexivity|]. split; [vm_compute; reflexivity|].
  pose proof (last_visible_tail_tracks_output ps p
                [Sample.say "Hello"; Sample.say " world."]) as H.
  specialize (H ltac:(reflexivity) ltac:(vm_compute; reflexivity)).
  exact H.
Defined.

Lemma live_tool_payload_follows_text_witness :
  let ps := Sample.params s_live 100 64 [] true in
  let p := after (run ps [Sample.say "Hello"] (createAcpReplyProjector ps)) in
  let event := ev_status (Sample.statusNote "" "thinking") in
  let o := onEvent ps event p in
  deliveryMode (settings ps) = live
  /\ calls o
     = [ChunkerAppend (Js.lit "Hello");
        Deliver kind_block {| payload_text := Js.lit "Hello" |} None;
        Deliver kind_tool {| payload_text := Js.lit "System: thinking" |} None]
  /\ (calls o = []
      \/ exists replies entry,
           calls o
           = appendCalls (liveBufferText (turn p)) ++ blockCalls replies
             ++ toolCalls [entry]).
Proof.
  intros ps p event o. split; [vm_compute; reflexivity|].
  split; [vm_compute; reflexivity|].
  pose proof (live_tool_payload_follows_text ps p event) as H.
  specialize (H ltac:(vm_compute; reflexivity)
                ltac:(left; eexists; reflexivity)).
  exact H.
Defined.

Lemma clampPositiveInteger_clamps_witness :
  64 <= 8000
  /\ clampPositiveInteger (Js.Number (Js.Finite (5 # 2))) 320 64 8000 = 64
  /\ clampPositiveInteger (Js.Number (Js.Finite (inject_Z 100))) 320 64 8000
     = 100
  /\ clampPositiveInteger (Js.Number Js.NaN) 320 64 8000 = 320.
Proof.
  split; [lia|].
  destruct (clampPositiveInteger_clamps 320 64 8000 ltac:(lia))
    as (Hq & Hn & Hv).
  split; [by rewrite Hq|]. split; [apply Hn; lia|]. by apply Hv.
Defined.

Lemma delivery_mode_and_separator_fallbacks_witness :
  let cfg := Sample.config s_live 100 64 [] in
  let s := resolveAcpProjectionSettings cfg in
  deliveryMode s = live /\ hiddenBoundarySeparator s = sep_space.
Proof.
  intros cfg s.
  destruct (delivery_mode_and_separator_fallbacks cfg) as (Hmode & Hsep & _).
  assert (deliveryMode s = live) as Hlive by (apply Hmode; reflexivity).
  split; [exact Hlive|]. fold s in Hsep. rewrite Hlive in Hsep.
  apply Hsep. intros name Hname. vm_compute in Hname. discriminate Hname.
Defined.

Lemma isAcpTagVisible_override_then_default_witness :
  let settings :=
    resolveAcpProjectionSettings
      (Sample.config s_live 100 64 [(s_tool_call, true)]) in
  s_tool_call <> [] /\ s_plan <> []
  /\ isAcpTagVisible settings (Some s_tool_call) = true
  /\ isAcpTagVisible settings (Some s_plan) = false.
Proof.
  intros settings. split; [discriminate|]. split; [discriminate|]. split.
  - apply (isAcpTagVisible_override_then_default settings s_tool_call
             ltac:(discriminate)).
    vm_compute. reflexivity.
  - apply (isAcpTagVisible_override_then_default settings s_plan
             ltac:(discriminate)).
    + intros visible. vm_compute. discriminate.
    + repeat first [apply list_elem_of_here | apply list_elem_of_further].
Defined.

Lemma truncateText_fits_witness :
  0 <= 5
  /\ truncateText (Js.lit "Hello world") 5 = Js.lit "Hell" ++ s_ellipsis
  /\ Js.len (truncateText (Js.lit "Hello world") 5) = 5.
Proof.
  split; [lia|].
  destruct (truncateText_fits (Js.lit "Hello world") 5 ltac:(lia))
    as (Hlen & _ & Hcut & _).
  split; [|exact Hlen]. apply Hcut. vm_compute. split; [discriminate|reflexivity].
Defined.

Lemma boundary_flush_implies_idle_flush_witness :
  shouldFlushLiveBufferOnBoundary (Js.lit "Done. ") = true
  /\ shouldFlushLiveBufferOnIdle (Js.lit "Done. ") = true.
Proof.
  split; [vm_compute; reflexivity|].
  apply boundary_flush_implies_idle_flush. vm_compute. reflexivity.
Defined.

Lemma verdict_ignores_member_count_witness :
  let quiet := {| Direct.includeMemberCountInLogs := false |} in
  let loud := {| Direct.includeMemberCountInLogs := true |} in
  Direct.answer (Direct.Mock.check quiet false false false)
  = Direct.answer (Direct.Mock.check loud false false false)
  /\ Direct.countCalls Direct.isMemberListQuery
       (Direct.trace (Direct.Mock.check loud false false false)) = 1%nat
  /\ Forall (fun c => Direct.isMemberListQuery c = false)
       (Direct.trace (Direct.Mock.check quiet false false false)).
Proof.
  intros quiet loud.
  pose (mock := Direct.Mock.client false false false
                  [Direct.Mock.alice; Direct.Mock.bot]).
  pose proof (verdict_ignores_member_count (client := mock)
                Direct.Mock.question
                (Direct.createDirectRoomTracker quiet 1700000000000)
                (Direct.createDirectRoomTracker loud 1700000000000)) as H.
  specialize (H ltac:(repeat split)).
  destruct H as (Hanswer & _ & Hnone & _).
  split; [exact Hanswer|]. split; [vm_compute; reflexivity|exact Hnone].
Defined.

Lemma self_user_id_is_asked_once_witness :
  let quiet := {| Direct.includeMemberCountInLogs := false |} in
  let mock := Direct.Mock.client false false false
                [Direct.Mock.alice; Direct.Mock.bot] in
  let s := Direct.final (Direct.Mock.check quiet false false false) in
  let o := Direct.isDirectMessage (client := mock) quiet Direct.Mock.question s in
  Direct.cachedSelfUserId s = Some Direct.Mock.bot
  /\ Direct.countCalls Direct.isUserIdQuery (Direct.trace o) = 0%nat
  /\ Direct.cachedSelfUserId (Direct.final o) = Direct.cachedSelfUserId s.
Proof.
  intros quiet mock s o. split; [vm_compute; reflexivity|].
  pose proof (self_user_id_is_asked_once (client := mock) quiet
                Direct.Mock.question s) as (_ & H & _).
  apply H. right. vm_compute. reflexivity.
Defined.

Lemma turn_starts_afresh_witness :
  let ps := Sample.params s_live 100 1 Sample.toolsVisible true in
  let fresh := createAcpReplyProjector ps in
  let history :=
    [Sample.say "Hello"; Sample.tool "tool_call" "T1" "in_progress" "run"] in
  let inputs := [Sample.tool "tool_call" "T1" "in_progress" "run"] in
  let p := after (run ps (history ++ [OnEvent ev_error]) fresh) in
  length (toolDeliveries (calls (run ps inputs p))) = 1%nat
  /\ turn p = turn fresh
  /\ turn (after (run ps inputs p)) = turn (after (run ps inputs fresh))
  /\ toolDeliveries (calls (run ps inputs p))
     = toolDeliveries (calls (run ps inputs fresh))
  /\ appended (calls (run ps inputs p))
     = appended (calls (run ps inputs fresh)).
Proof.
  intros ps fresh history inputs p. split; [vm_compute; reflexivity|].
  pose proof (turn_starts_afresh ps history inputs ev_error) as H.
  specialize (H ltac:(right; reflexivity)).
  exact H.
Defined.
